(** * Verification of the voice front-end

    A shallow embedding of the React components of the repository
    ([src/App.tsx], [src/components/LiveVoice.tsx],
    [src/components/ChatInterface.tsx]) and the properties proved of them.

    Conventions of the embedding.
    - A JavaScript number that carries a time (seconds) or an audio level is
      a real number: arithmetic is exact, there is no NaN and no rounding.
    - Every browser object the component holds through a [useRef] lives in a
      store (a list indexed by the object's identity); the ref holds the
      index, so that two refs to one object alias it.
    - A callback runs to completion before the next one starts.  What an
      [await] receives ([ctx.currentTime], the outcome of [getUserMedia],
      the decoded buffer) is an argument of the handler; the one promise the
      code keeps and waits on again, the session promise, is modelled with
      its queue of reactions.
    - A closure created during a render sees the values of that render: the
      captured values are explicit arguments or fields.
    - The helpers of [utils/audioUtils], which the sources do not include,
      are total functions given as parameters. *)

From Stdlib Require Import Reals Lra Lia String Ascii List.
From stdpp Require Import base option list gmap sets strings pretty.

(** ** JavaScript helpers *)

Module JS.

(** Truthiness of a string: every string but the empty one. *)
Definition truthy (s : string) : bool :=
  match s with
  | EmptyString => false
  | String _ _ => true
  end.

(** An error value as the handlers read it: only [message] is used, and it
    may be missing (anything can be thrown). *)
Record Error := { message : option string }.

(** [m || fallback] on an optional string. *)
Definition or_else (m : option string) (fallback : string) : string :=
  match m with
  | Some s => if truthy s then s else fallback
  | None => fallback
  end.

(** White space of [String.prototype.trim], for code units below 256:
    TAB, LF, VT, FF, CR, SP and NBSP. *)
Definition is_space (c : ascii) : bool :=
  let n := nat_of_ascii c in
  (n =? 9) || (n =? 10) || (n =? 11) || (n =? 12) || (n =? 13)
  || (n =? 32) || (n =? 160).

Fixpoint trim_start (s : string) : string :=
  match s with
  | EmptyString => EmptyString
  | String c r => if is_space c then trim_start r else s
  end.

Fixpoint trim_end (s : string) : string :=
  match s with
  | EmptyString => EmptyString
  | String c r =>
      match trim_end r with
      | EmptyString => if is_space c then EmptyString else String c EmptyString
      | r' => String c r'
      end
  end.

Definition trim (s : string) : string := trim_end (trim_start s).

End JS.

(** ** The level meter of [onaudioprocess] *)

Module Volume.

Local Open Scope R_scope.

(** The loop [for (let i = 0; i < inputData.length; i += 4)
    sum += inputData[i] * inputData[i]].  [fuel] bounds the number of
    iterations; [stride_sum] passes the length of the block, which is
    always enough ([sum_loop_every_fourth]). *)
Fixpoint sum_loop (fuel : nat) (inputData : list R) (i : nat) (sum : R) : R :=
  match fuel with
  | O => sum
  | S fuel' =>
      if (i <? length inputData)%nat
      then sum_loop fuel' inputData (i + 4)
             (sum + nth i inputData 0 * nth i inputData 0)
      else sum
  end.

Definition stride_sum (inputData : list R) : R :=
  sum_loop (length inputData) inputData 0 0.

(** [Math.sqrt(sum / (inputData.length / 4))] *)
Definition rms (inputData : list R) : R :=
  sqrt (stride_sum inputData / (INR (length inputData) / 4)).

(** [Math.min(rms * 5, 1)], the value stored in [currentVolumeRef]. *)
Definition level (inputData : list R) : R := Rmin (rms inputData * 5) 1.

(** One animation frame: [prev + (currentVolumeRef.current - prev) * 0.2]. *)
Definition smooth (prev current : R) : R := prev + (current - prev) * 0.2.

(** *** The same quantities as the specification words them *)

(** The samples at positions 0, 4, 8, ... of a block. *)
Fixpoint every_fourth (l : list R) : list R :=
  match l with
  | x :: _ :: _ :: _ :: t => x :: every_fourth t
  | x :: _ => [x]
  | [] => []
  end.

Definition sum_of_squares (l : list R) : R :=
  fold_right (fun x acc => x * x + acc) 0 l.

(** Root mean square of a list of samples. *)
Definition root_mean_square (l : list R) : R :=
  sqrt (sum_of_squares l / INR (length l)).

End Volume.

(** ** [LiveVoice]: the data *)

Module LiveVoice.

(** *** Values exchanged with the SDK and the audio helpers *)

(** The [Blob] of the SDK: base64 payload and MIME type. *)
Record Blob := { blob_data : string; blob_mimeType : string }.

(** An [AudioBuffer]; the component reads its [duration] only. *)
Record AudioBuffer := { duration : R }.

(** [../utils/audioUtils] is imported by the component and is not part of
    the sources at hand: its three functions are parameters. *)
Class AudioUtils := {
  createBlob : list R -> Blob;
  decode : string -> list Byte.byte;
  decodeAudioData : list Byte.byte -> nat -> Z -> Z -> AudioBuffer
}.

(** [LiveServerMessage], down to the fields [onmessage] reads. *)
Record InlineData := { data : option string }.
Record Part := { inlineData : option InlineData }.
Record Content := { parts : option (list Part) }.
Record ServerContent :=
  { modelTurn : option Content; interrupted : option bool }.
Record LiveServerMessage := { serverContent : option ServerContent }.

Inductive Modality := AUDIO | TEXT | IMAGE.

(** The argument of [ai.live.connect], without the callbacks. *)
Record LiveConnectConfig := {
  cfg_model : string;
  cfg_responseModalities : list Modality;
  cfg_voiceName : string;
  cfg_systemInstruction : string
}.

Record GoogleGenAI := { apiKey : string }.

(** *** Browser objects *)

Inductive ContextState := suspended | running | closed.

Record AudioContext := { sampleRate : Z; state : ContextState }.

(** A [MediaStream]: whether its tracks are still live. *)
Record MediaStream := { tracksLive : bool }.

Inductive Destination :=
| ToNode (node : nat)
| ToContextDestination (ctx : nat).

(** The closure installed as [onaudioprocess]: it was created inside
    [onopen], itself created inside [connectSession], and so holds the
    [isMicOn] of the render whose [connectSession] ran and the local
    [sessionPromise]. *)
Record AudioProcessClosure :=
  { captured_isMicOn : bool; captured_sessionPromise : nat }.

Inductive NodeKind :=
| MediaStreamSource (stream : nat)
| ScriptProcessor (bufferSize : nat)
    (onaudioprocess : option AudioProcessClosure)
| Gain.

Record AudioNode :=
  { kind : NodeKind; context : nat; outputs : list Destination }.

(** An [AudioBufferSourceNode]. *)
Record BufferSource := {
  buffer : option AudioBuffer;
  connectedTo : list Destination;
  startedAt : option R;
  stopped : bool
}.

(** *** The live session and its promise *)

Inductive PromiseState := pending | fulfilled | rejected.

(** What waits on the session promise: the [then] of [onaudioprocess]
    and the [await] of [disconnectSession]. *)
Inductive Reaction :=
| SendRealtimeInput (media : Blob)
| ResumeDisconnect.

Record Session := {
  config : LiveConnectConfig;
  (** the [isMicOn] seen by the callbacks passed to [connect] *)
  callbacks_isMicOn : bool;
  promise : PromiseState;
  reactions : list Reaction;
  (** arguments of the [sendRealtimeInput] calls, oldest first *)
  sent : list Blob;
  sessionClosed : bool
}.

(** *** The component *)

(** [useState] *)
Record Ui := {
  isActive : bool;
  isConnecting : bool;
  isAiSpeaking : bool;
  isMicOn : bool;
  systemInstruction : string;
  error : option string;
  visualVolume : R
}.

(** [useRef]; a ref to a browser object holds its index in the store. *)
Record Refs := {
  inputAudioContextRef : option nat;
  outputAudioContextRef : option nat;
  inputSourceRef : option nat;
  processorRef : option nat;
  outputNodeRef : option nat;
  streamRef : option nat;
  currentVolumeRef : R;
  animationFrameRef : option nat;
  nextStartTimeRef : R;
  sourcesRef : gset nat;
  aiRef : option GoogleGenAI;
  sessionPromiseRef : option nat
}.

Record Browser := {
  contexts : list AudioContext;
  streams : list MediaStream;
  nodes : list AudioNode;
  bufferSources : list BufferSource;
  sessions : list Session;
  (** animation-frame requests not yet run or cancelled *)
  rafPending : gset nat;
  rafCounter : nat
}.

Record State := { ui : Ui; refs : Refs; browser : Browser }.

(** What a render hands to the closures it creates. *)
Record Render := {
  r_isConnecting : bool;
  r_isMicOn : bool;
  r_systemInstruction : string
}.

Definition render (st : State) : Render :=
  {| r_isConnecting := isConnecting (ui st);
     r_isMicOn := isMicOn (ui st);
     r_systemInstruction := systemInstruction (ui st) |}.

(** *** Assignments, one per state variable, ref and store *)

Definition setIsActive v (st : State) : State :=
  Build_State (Build_Ui v (isConnecting (ui st)) (isAiSpeaking (ui st))
    (isMicOn (ui st)) (systemInstruction (ui st)) (error (ui st))
    (visualVolume (ui st))) (refs st) (browser st).
Definition setIsConnecting v (st : State) : State :=
  Build_State (Build_Ui (isActive (ui st)) v (isAiSpeaking (ui st)) (isMicOn
    (ui st)) (systemInstruction (ui st)) (error (ui st)) (visualVolume (ui
    st))) (refs st) (browser st).
Definition setIsAiSpeaking v (st : State) : State :=
  Build_State (Build_Ui (isActive (ui st)) (isConnecting (ui st)) v (isMicOn
    (ui st)) (systemInstruction (ui st)) (error (ui st)) (visualVolume (ui
    st))) (refs st) (browser st).
Definition setIsMicOn v (st : State) : State :=
  Build_State (Build_Ui (isActive (ui st)) (isConnecting (ui st))
    (isAiSpeaking (ui st)) v (systemInstruction (ui st)) (error (ui st))
    (visualVolume (ui st))) (refs st) (browser st).
Definition setSystemInstruction v (st : State) : State :=
  Build_State (Build_Ui (isActive (ui st)) (isConnecting (ui st))
    (isAiSpeaking (ui st)) (isMicOn (ui st)) v (error (ui st)) (visualVolume
    (ui st))) (refs st) (browser st).
Definition setError v (st : State) : State :=
  Build_State (Build_Ui (isActive (ui st)) (isConnecting (ui st))
    (isAiSpeaking (ui st)) (isMicOn (ui st)) (systemInstruction (ui st)) v
    (visualVolume (ui st))) (refs st) (browser st).
Definition setVisualVolume v (st : State) : State :=
  Build_State (Build_Ui (isActive (ui st)) (isConnecting (ui st))
    (isAiSpeaking (ui st)) (isMicOn (ui st)) (systemInstruction (ui st))
    (error (ui st)) v) (refs st) (browser st).
Definition set_inputAudioContextRef v (st : State) : State :=
  Build_State (ui st) (Build_Refs v (outputAudioContextRef (refs st))
    (inputSourceRef (refs st)) (processorRef (refs st)) (outputNodeRef (refs
    st)) (streamRef (refs st)) (currentVolumeRef (refs st))
    (animationFrameRef (refs st)) (nextStartTimeRef (refs st)) (sourcesRef
    (refs st)) (aiRef (refs st)) (sessionPromiseRef (refs st))) (browser st).
Definition set_outputAudioContextRef v (st : State) : State :=
  Build_State (ui st) (Build_Refs (inputAudioContextRef (refs st)) v
    (inputSourceRef (refs st)) (processorRef (refs st)) (outputNodeRef (refs
    st)) (streamRef (refs st)) (currentVolumeRef (refs st))
    (animationFrameRef (refs st)) (nextStartTimeRef (refs st)) (sourcesRef
    (refs st)) (aiRef (refs st)) (sessionPromiseRef (refs st))) (browser st).
Definition set_inputSourceRef v (st : State) : State :=
  Build_State (ui st) (Build_Refs (inputAudioContextRef (refs st))
    (outputAudioContextRef (refs st)) v (processorRef (refs st))
    (outputNodeRef (refs st)) (streamRef (refs st)) (currentVolumeRef (refs
    st)) (animationFrameRef (refs st)) (nextStartTimeRef (refs st))
    (sourcesRef (refs st)) (aiRef (refs st)) (sessionPromiseRef (refs st)))
    (browser st).
Definition set_processorRef v (st : State) : State :=
  Build_State (ui st) (Build_Refs (inputAudioContextRef (refs st))
    (outputAudioContextRef (refs st)) (inputSourceRef (refs st)) v
    (outputNodeRef (refs st)) (streamRef (refs st)) (currentVolumeRef (refs
    st)) (animationFrameRef (refs st)) (nextStartTimeRef (refs st))
    (sourcesRef (refs st)) (aiRef (refs st)) (sessionPromiseRef (refs st)))
    (browser st).
Definition set_outputNodeRef v (st : State) : State :=
  Build_State (ui st) (Build_Refs (inputAudioContextRef (refs st))
    (outputAudioContextRef (refs st)) (inputSourceRef (refs st))
    (processorRef (refs st)) v (streamRef (refs st)) (currentVolumeRef (refs
    st)) (animationFrameRef (refs st)) (nextStartTimeRef (refs st))
    (sourcesRef (refs st)) (aiRef (refs st)) (sessionPromiseRef (refs st)))
    (browser st).
Definition set_streamRef v (st : State) : State :=
  Build_State (ui st) (Build_Refs (inputAudioContextRef (refs st))
    (outputAudioContextRef (refs st)) (inputSourceRef (refs st))
    (processorRef (refs st)) (outputNodeRef (refs st)) v (currentVolumeRef
    (refs st)) (animationFrameRef (refs st)) (nextStartTimeRef (refs st))
    (sourcesRef (refs st)) (aiRef (refs st)) (sessionPromiseRef (refs st)))
    (browser st).
Definition set_currentVolumeRef v (st : State) : State :=
  Build_State (ui st) (Build_Refs (inputAudioContextRef (refs st))
    (outputAudioContextRef (refs st)) (inputSourceRef (refs st))
    (processorRef (refs st)) (outputNodeRef (refs st)) (streamRef (refs st))
    v (animationFrameRef (refs st)) (nextStartTimeRef (refs st)) (sourcesRef
    (refs st)) (aiRef (refs st)) (sessionPromiseRef (refs st))) (browser st).
Definition set_animationFrameRef v (st : State) : State :=
  Build_State (ui st) (Build_Refs (inputAudioContextRef (refs st))
    (outputAudioContextRef (refs st)) (inputSourceRef (refs st))
    (processorRef (refs st)) (outputNodeRef (refs st)) (streamRef (refs st))
    (currentVolumeRef (refs st)) v (nextStartTimeRef (refs st)) (sourcesRef
    (refs st)) (aiRef (refs st)) (sessionPromiseRef (refs st))) (browser st).
Definition set_nextStartTimeRef v (st : State) : State :=
  Build_State (ui st) (Build_Refs (inputAudioContextRef (refs st))
    (outputAudioContextRef (refs st)) (inputSourceRef (refs st))
    (processorRef (refs st)) (outputNodeRef (refs st)) (streamRef (refs st))
    (currentVolumeRef (refs st)) (animationFrameRef (refs st)) v (sourcesRef
    (refs st)) (aiRef (refs st)) (sessionPromiseRef (refs st))) (browser st).
Definition set_sourcesRef v (st : State) : State :=
  Build_State (ui st) (Build_Refs (inputAudioContextRef (refs st))
    (outputAudioContextRef (refs st)) (inputSourceRef (refs st))
    (processorRef (refs st)) (outputNodeRef (refs st)) (streamRef (refs st))
    (currentVolumeRef (refs st)) (animationFrameRef (refs st))
    (nextStartTimeRef (refs st)) v (aiRef (refs st)) (sessionPromiseRef
    (refs st))) (browser st).
Definition set_aiRef v (st : State) : State :=
  Build_State (ui st) (Build_Refs (inputAudioContextRef (refs st))
    (outputAudioContextRef (refs st)) (inputSourceRef (refs st))
    (processorRef (refs st)) (outputNodeRef (refs st)) (streamRef (refs st))
    (currentVolumeRef (refs st)) (animationFrameRef (refs st))
    (nextStartTimeRef (refs st)) (sourcesRef (refs st)) v (sessionPromiseRef
    (refs st))) (browser st).
Definition set_sessionPromiseRef v (st : State) : State :=
  Build_State (ui st) (Build_Refs (inputAudioContextRef (refs st))
    (outputAudioContextRef (refs st)) (inputSourceRef (refs st))
    (processorRef (refs st)) (outputNodeRef (refs st)) (streamRef (refs st))
    (currentVolumeRef (refs st)) (animationFrameRef (refs st))
    (nextStartTimeRef (refs st)) (sourcesRef (refs st)) (aiRef (refs st)) v)
    (browser st).
Definition set_contexts v (st : State) : State :=
  Build_State (ui st) (refs st) (Build_Browser v (streams (browser st))
    (nodes (browser st)) (bufferSources (browser st)) (sessions (browser
    st)) (rafPending (browser st)) (rafCounter (browser st))).
Definition set_streams v (st : State) : State :=
  Build_State (ui st) (refs st) (Build_Browser (contexts (browser st)) v
    (nodes (browser st)) (bufferSources (browser st)) (sessions (browser
    st)) (rafPending (browser st)) (rafCounter (browser st))).
Definition set_nodes v (st : State) : State :=
  Build_State (ui st) (refs st) (Build_Browser (contexts (browser st))
    (streams (browser st)) v (bufferSources (browser st)) (sessions (browser
    st)) (rafPending (browser st)) (rafCounter (browser st))).
Definition set_bufferSources v (st : State) : State :=
  Build_State (ui st) (refs st) (Build_Browser (contexts (browser st))
    (streams (browser st)) (nodes (browser st)) v (sessions (browser st))
    (rafPending (browser st)) (rafCounter (browser st))).
Definition set_sessions v (st : State) : State :=
  Build_State (ui st) (refs st) (Build_Browser (contexts (browser st))
    (streams (browser st)) (nodes (browser st)) (bufferSources (browser st))
    v (rafPending (browser st)) (rafCounter (browser st))).
Definition set_rafPending v (st : State) : State :=
  Build_State (ui st) (refs st) (Build_Browser (contexts (browser st))
    (streams (browser st)) (nodes (browser st)) (bufferSources (browser st))
    (sessions (browser st)) v (rafCounter (browser st))).
Definition set_rafCounter v (st : State) : State :=
  Build_State (ui st) (refs st) (Build_Browser (contexts (browser st))
    (streams (browser st)) (nodes (browser st)) (bufferSources (browser st))
    (sessions (browser st)) (rafPending (browser st)) v).

(** *** Browser operations *)

(** Allocation in a store: the new object's identity is its index. *)
Definition alloc {A} (x : A) (store : list A) : nat * list A :=
  (length store, store ++ [x]).

Definition with_outputs (o : list Destination) (n : AudioNode) : AudioNode :=
  {| kind := kind n; context := context n; outputs := o |}.

Definition with_handler (cl : AudioProcessClosure) (n : AudioNode)
  : AudioNode :=
  match kind n with
  | ScriptProcessor size _ =>
      {| kind := ScriptProcessor size (Some cl); context := context n;
         outputs := outputs n |}
  | _ => n
  end.

(** [node.connect(dest)] and [node.disconnect()] *)
Definition connect (node : nat) (dest : Destination) (st : State) : State :=
  set_nodes
    (alter (fun n => with_outputs (outputs n ++ [dest]) n) node
       (nodes (browser st))) st.

Definition disconnect (node : nat) (st : State) : State :=
  set_nodes (alter (with_outputs []) node (nodes (browser st))) st.

Definition with_state (s : ContextState) (c : AudioContext) : AudioContext :=
  {| sampleRate := sampleRate c; state := s |}.

Definition context_state (ctx : nat) (st : State) : option ContextState :=
  state <$> contexts (browser st) !! ctx.

(** [ctx.resume()] and [ctx.close()] *)
Definition resume (ctx : nat) (st : State) : State :=
  set_contexts (alter (with_state running) ctx (contexts (browser st))) st.

Definition close (ctx : nat) (st : State) : State :=
  set_contexts (alter (with_state closed) ctx (contexts (browser st))) st.

(** [stream.getTracks().forEach(track => track.stop())] *)
Definition stop_tracks (stream : nat) (st : State) : State :=
  set_streams
    (alter (fun _ => {| tracksLive := false |}) stream
       (streams (browser st))) st.

Definition mark_stopped (s : BufferSource) : BufferSource :=
  {| buffer := buffer s; connectedTo := connectedTo s;
     startedAt := startedAt s; stopped := true |}.

(** [source.stop()]: an [InvalidStateError] ([None]) when the source was
    never started. *)
Definition stop_source (source : nat) (srcs : list BufferSource)
  : option (list BufferSource) :=
  match srcs !! source with
  | Some s =>
      match startedAt s with
      | Some _ => Some (<[source := mark_stopped s]> srcs)
      | None => None
      end
  | None => None
  end.

(** [sources.forEach(source => { try { source.stop(); } catch (e) {} })] *)
Fixpoint stop_each_try (ids : list nat) (srcs : list BufferSource)
  : list BufferSource :=
  match ids with
  | [] => srcs
  | id :: rest => stop_each_try rest (default srcs (stop_source id srcs))
  end.

(** [sources.forEach(s => s.stop())]: the first exception ends the loop
    and leaves the handler ([inr], with the stores as they are then). *)
Fixpoint stop_each (ids : list nat) (srcs : list BufferSource)
  : list BufferSource + list BufferSource :=
  match ids with
  | [] => inl srcs
  | id :: rest =>
      match stop_source id srcs with
      | Some srcs' => stop_each rest srcs'
      | None => inr srcs
      end
  end.

(** [requestAnimationFrame(update)]: handles are positive and fresh. *)
Definition requestAnimationFrame (st : State) : nat * State :=
  let handle := S (rafCounter (browser st)) in
  (handle,
   set_rafCounter handle
     (set_rafPending ({[ handle ]} ∪ rafPending (browser st)) st)).

Definition cancelAnimationFrame (handle : nat) (st : State) : State :=
  set_rafPending (rafPending (browser st) ∖ {[ handle ]}) st.

(** *** [cleanupAudio] *)

(** The six numbered parts of the function, in its order. *)

(* 1. Stop Animation Loop; a handle is truthy when it is not 0 *)
Definition stop_animation_loop (st : State) : State :=
  match animationFrameRef (refs st) with
  | Some (S h) => set_animationFrameRef None (cancelAnimationFrame (S h) st)
  | _ => st
  end.

(* 2. Stop all playing sources *)
Definition stop_all_sources (st : State) : State :=
  let st :=
    set_bufferSources
      (stop_each_try (elements (sourcesRef (refs st)))
         (bufferSources (browser st))) st in
  set_sourcesRef ∅ st.

(* 3. Stop Input Stream (Mic) *)
Definition stop_input_stream (st : State) : State :=
  match streamRef (refs st) with
  | Some stream => set_streamRef None (stop_tracks stream st)
  | None => st
  end.

(* 4. Disconnect Nodes *)
Definition disconnect_nodes (st : State) : State :=
  let st :=
    match inputSourceRef (refs st) with
    | Some n => disconnect n st
    | None => st
    end in
  match processorRef (refs st) with
  | Some n => disconnect n st
  | None => st
  end.

(** [if (ref.current?.state !== 'closed') ref.current?.close()] *)
Definition close_unless_closed (ref : option nat) (st : State) : State :=
  match ref with
  | Some ctx =>
      match context_state ctx st with
      | Some closed => st
      | _ => close ctx st
      end
  | None => st
  end.

(* 5. Close Contexts, and the four assignments below them *)
Definition close_contexts (st : State) : State :=
  let st := close_unless_closed (inputAudioContextRef (refs st)) st in
  let st := close_unless_closed (outputAudioContextRef (refs st)) st in
  let st := set_inputAudioContextRef None st in
  let st := set_outputAudioContextRef None st in
  let st := set_nextStartTimeRef 0%R st in
  set_sessionPromiseRef None st.

(* 6. Reset State *)
Definition reset_state (st : State) : State :=
  let st := setIsAiSpeaking false st in
  let st := setVisualVolume 0%R st in
  let st := set_currentVolumeRef 0%R st in
  setIsConnecting false st.

Definition cleanupAudio (st : State) : State :=
  let st := stop_animation_loop st in
  let st := stop_all_sources st in
  let st := stop_input_stream st in
  let st := disconnect_nodes st in
  let st := close_contexts st in
  reset_state st.

(** *** The session promise *)

Definition with_promise (p : PromiseState) (q : list Reaction) (s : Session)
  : Session :=
  {| config := config s; callbacks_isMicOn := callbacks_isMicOn s;
     promise := p; reactions := q; sent := sent s;
     sessionClosed := sessionClosed s |}.

Definition with_sent (b : list Blob) (s : Session) : Session :=
  {| config := config s; callbacks_isMicOn := callbacks_isMicOn s;
     promise := promise s; reactions := reactions s; sent := b;
     sessionClosed := sessionClosed s |}.

Definition with_closed (s : Session) : Session :=
  {| config := config s; callbacks_isMicOn := callbacks_isMicOn s;
     promise := promise s; reactions := reactions s; sent := sent s;
     sessionClosed := true |}.

(** [session.sendRealtimeInput({ media })] *)
Definition sendRealtimeInput (sid : nat) (media : Blob) (st : State)
  : State :=
  set_sessions
    (alter (fun s => with_sent (sent s ++ [media]) s) sid
       (sessions (browser st))) st.

(** [session.close()] *)
Definition close_session (sid : nat) (st : State) : State :=
  set_sessions (alter with_closed sid (sessions (browser st))) st.

(** The rest of [disconnectSession] after its [try] block. *)
Definition finish_disconnect (st : State) : State :=
  setIsActive false (cleanupAudio st).

(** A reaction runs when the promise of session [sid] is settled:
    - [then(session => session.sendRealtimeInput(...))] sends on
      fulfilment and is skipped on rejection;
    - the [await] of [disconnectSession] closes the session on fulfilment,
      logs the error on rejection, and goes on to the cleanup in both
      cases. *)
Definition run_reaction (sid : nat) (outcome : PromiseState) (r : Reaction)
    (st : State) : State :=
  match r, outcome with
  | SendRealtimeInput media, fulfilled => sendRealtimeInput sid media st
  | SendRealtimeInput _, _ => st
  | ResumeDisconnect, fulfilled => finish_disconnect (close_session sid st)
  | ResumeDisconnect, _ => finish_disconnect st
  end.

(** [promise.then(r)] or [await promise]: queued while the promise is
    pending, run at once when it is settled. *)
Definition promise_then (sid : nat) (r : Reaction) (st : State) : State :=
  match sessions (browser st) !! sid with
  | Some s =>
      match promise s with
      | pending =>
          set_sessions
            (<[sid := with_promise pending (reactions s ++ [r]) s]>
               (sessions (browser st))) st
      | outcome => run_reaction sid outcome r st
      end
  | None => st
  end.

(** The SDK settles the promise of session [sid]: the queued reactions
    run in the order they were registered. *)
Definition settle (sid : nat) (outcome : PromiseState) (st : State)
  : State :=
  match sessions (browser st) !! sid with
  | Some s =>
      match promise s with
      | pending =>
          fold_left (fun st r => run_reaction sid outcome r st)
            (reactions s)
            (set_sessions
               (<[sid := with_promise outcome [] s]>
                  (sessions (browser st))) st)
      | _ => st
      end
  | None => st
  end.

(** *** [disconnectSession] *)

Definition disconnectSession (st : State) : State :=
  match sessionPromiseRef (refs st) with
  | Some sid => promise_then sid ResumeDisconnect st
  | None => finish_disconnect st
  end.

(** *** The visual loop *)

(** [update], the body of one animation frame. *)
Definition update (st : State) : State :=
  let st :=
    setVisualVolume
      (Volume.smooth (visualVolume (ui st)) (currentVolumeRef (refs st)))
      st in
  let '(handle, st) := requestAnimationFrame st in
  set_animationFrameRef (Some handle) st.

Definition startVisualLoop (st : State) : State := update st.

(** *** The callbacks passed to [connect] *)

Definition createMediaStreamSource (ctx stream : nat) (st : State)
  : nat * State :=
  let '(id, store) :=
    alloc {| kind := MediaStreamSource stream; context := ctx;
             outputs := [] |} (nodes (browser st)) in
  (id, set_nodes store st).

Definition createScriptProcessor (ctx size : nat) (st : State)
  : nat * State :=
  let '(id, store) :=
    alloc {| kind := ScriptProcessor size None; context := ctx;
             outputs := [] |} (nodes (browser st)) in
  (id, set_nodes store st).

Definition createGain (ctx : nat) (st : State) : nat * State :=
  let '(id, store) :=
    alloc {| kind := Gain; context := ctx; outputs := [] |}
      (nodes (browser st)) in
  (id, set_nodes store st).

Definition createBufferSource (st : State) : nat * State :=
  let '(id, store) :=
    alloc {| buffer := None; connectedTo := []; startedAt := None;
             stopped := false |} (bufferSources (browser st)) in
  (id, set_bufferSources store st).

Definition set_onaudioprocess (node : nat) (cl : AudioProcessClosure)
    (st : State) : State :=
  set_nodes (alter (with_handler cl) node (nodes (browser st))) st.

(** [onopen], with the two values its closure holds. *)
Definition onopen (cl : AudioProcessClosure) (st : State) : State :=
  let st := setIsConnecting false st in
  let st := setIsActive true st in
  let st := startVisualLoop st in
  match inputAudioContextRef (refs st), streamRef (refs st) with
  | Some ctx, Some stream =>
      let '(source, st) := createMediaStreamSource ctx stream st in
      let st := set_inputSourceRef (Some source) st in
      let '(scriptProcessor, st) := createScriptProcessor ctx 4096 st in
      let st := set_processorRef (Some scriptProcessor) st in
      let st := set_onaudioprocess scriptProcessor cl st in
      let st := connect source (ToNode scriptProcessor) st in
      connect scriptProcessor (ToContextDestination ctx) st
  | _, _ => st
  end.

Definition onclose (st : State) : State :=
  let st := setIsActive false st in
  let st := setIsAiSpeaking false st in
  setIsConnecting false st.

Definition onerror (st : State) : State :=
  let st := setError (Some "Connection failed. Please try again."%string) st in
  disconnectSession st.

(** The listener of the [ended] event of a source. *)
Definition onended (source : nat) (st : State) : State :=
  let st := set_sourcesRef (sourcesRef (refs st) ∖ {[ source ]}) st in
  if decide (size (sourcesRef (refs st)) = 0)
  then setIsAiSpeaking false st
  else st.

Definition toggleMic (st : State) : State :=
  setIsMicOn (negb (isMicOn (ui st))) st.

Section WithAudioUtils.

Context `{AudioUtils}.

(** [onaudioprocess], with the closure it was installed with. *)
Definition onaudioprocess (cl : AudioProcessClosure)
    (inputData : list R) (st : State) : State :=
  if negb (captured_isMicOn cl)
  then set_currentVolumeRef 0%R st
  else
    let st := set_currentVolumeRef (Volume.level inputData) st in
    let pcmBlob := createBlob inputData in
    promise_then (captured_sessionPromise cl)
      (SendRealtimeInput pcmBlob) st.

Definition with_buffer (b : AudioBuffer) (s : BufferSource)
  : BufferSource :=
  {| buffer := Some b; connectedTo := connectedTo s;
     startedAt := startedAt s; stopped := stopped s |}.

Definition with_connection (d : Destination) (s : BufferSource)
  : BufferSource :=
  {| buffer := buffer s; connectedTo := connectedTo s ++ [d];
     startedAt := startedAt s; stopped := stopped s |}.

Definition with_start (when : R) (s : BufferSource) : BufferSource :=
  {| buffer := buffer s; connectedTo := connectedTo s;
     startedAt := Some when; stopped := stopped s |}.

Definition alter_source (f : BufferSource -> BufferSource) (source : nat)
    (st : State) : State :=
  set_bufferSources (alter f source (bufferSources (browser st))) st.

(** [message.serverContent?.modelTurn?.parts?.[0]?.inlineData?.data] *)
Definition audio_of (message : LiveServerMessage) : option string :=
  content ← serverContent message;
  turn ← modelTurn content;
  ps ← parts turn;
  part ← head ps;
  inline ← inlineData part;
  data inline.

(** First half of [onmessage] ("Audio Output"); [currentTime] is what
    [ctx.currentTime] reads. *)
Definition onmessage_audio (currentTime : R)
    (message : LiveServerMessage) (st : State) : State :=
  match audio_of message,
        outputAudioContextRef (refs st), outputNodeRef (refs st) with
  | Some base64Audio, Some ctx, Some outputNode =>
      if JS.truthy base64Audio then
        let st :=
          match context_state ctx st with
          | Some suspended => resume ctx st
          | _ => st
          end in
        let st :=
          set_nextStartTimeRef
            (Rmax (nextStartTimeRef (refs st)) currentTime) st in
        let audioBuffer :=
          decodeAudioData (decode base64Audio) ctx 24000%Z 1%Z in
        let '(source, st) := createBufferSource st in
        let st := alter_source (with_buffer audioBuffer) source st in
        let st :=
          alter_source (with_connection (ToNode outputNode)) source st in
        let st := setIsAiSpeaking true st in
        let st :=
          alter_source (with_start (nextStartTimeRef (refs st))) source
            st in
        let st :=
          set_sourcesRef ({[ source ]} ∪ sourcesRef (refs st)) st in
        set_nextStartTimeRef
          (nextStartTimeRef (refs st) + duration audioBuffer)%R st
      else st
  | _, _, _ => st
  end.

(** Second half of [onmessage] ("Interruption handling"). *)
Definition onmessage_interruption (message : LiveServerMessage)
    (st : State) : State :=
  match content ← serverContent message; interrupted content with
  | Some true =>
      match stop_each (elements (sourcesRef (refs st)))
              (bufferSources (browser st)) with
      | inl srcs =>
          let st := set_bufferSources srcs st in
          let st := set_sourcesRef ∅ st in
          let st := set_nextStartTimeRef 0%R st in
          setIsAiSpeaking false st
      | inr srcs => set_bufferSources srcs st
      end
  | _ => st
  end.

Definition onmessage (currentTime : R) (message : LiveServerMessage)
    (st : State) : State :=
  onmessage_interruption message
    (onmessage_audio currentTime message st).


(** *** [connectSession] *)

(** What the platform answers during the set-up: each of the three
    calls that can fail either throws or succeeds. *)
Inductive Attempt (A : Type) :=
| Succeeds (a : A)
| Throws (e : JS.Error).
Global Arguments Succeeds {A} a.
Global Arguments Throws {A} e.

Record SetupEnv := {
  (** [new AudioContextClass({ sampleRate: 16000 })] and its state *)
  new_input_context : Attempt ContextState;
  (** [new AudioContextClass({ sampleRate: 24000 })] *)
  new_output_context : Attempt ContextState;
  (** [await navigator.mediaDevices.getUserMedia(...)] *)
  getUserMedia : Attempt unit
}.

Inductive Completion :=
| Returned (st : State)
| Thrown (e : JS.Error) (st : State).

(** The constant [API_KEY] of the module. *)
Variable API_KEY : string.

Definition new_AudioContext (rate : Z) (s : ContextState) (st : State)
  : nat * State :=
  let '(id, store) :=
    alloc {| sampleRate := rate; state := s |} (contexts (browser st)) in
  (id, set_contexts store st).

Definition new_MediaStream (st : State) : nat * State :=
  let '(id, store) :=
    alloc {| tracksLive := true |} (streams (browser st)) in
  (id, set_streams store st).

(** [ai.live.connect({ model, config, callbacks })]: a new session
    whose promise is pending. *)
Definition live_connect (cfg : LiveConnectConfig) (mic : bool)
    (st : State) : nat * State :=
  let '(id, store) :=
    alloc {| config := cfg; callbacks_isMicOn := mic; promise := pending;
             reactions := []; sent := []; sessionClosed := false |}
      (sessions (browser st)) in
  (id, set_sessions store st).

(** The [try] block. *)
Definition connect_try (r : Render) (env : SetupEnv) (st : State)
  : Completion :=
  if negb (JS.truthy API_KEY) then
    Thrown
      {| JS.message :=
           Some "API Key is missing. Please check the code in LiveVoice.tsx to set your API_KEY."%string |}
      st
  else
    let st := set_aiRef (Some {| apiKey := API_KEY |}) st in
    match new_input_context env with
    | Throws e => Thrown e st
    | Succeeds s_in =>
        let '(ctx_in, st) := new_AudioContext 16000 s_in st in
        let st := set_inputAudioContextRef (Some ctx_in) st in
        match new_output_context env with
        | Throws e => Thrown e st
        | Succeeds s_out =>
            let '(ctx_out, st) := new_AudioContext 24000 s_out st in
            let st := set_outputAudioContextRef (Some ctx_out) st in
            let '(outputNode, st) := createGain ctx_out st in
            let st :=
              connect outputNode (ToContextDestination ctx_out) st in
            let st := set_outputNodeRef (Some outputNode) st in
            match getUserMedia env with
            | Throws e => Thrown e st
            | Succeeds _ =>
                let '(stream, st) := new_MediaStream st in
                let st := set_streamRef (Some stream) st in
                let '(sessionPromise, st) :=
                  live_connect
                    {| cfg_model :=
                         "gemini-2.5-flash-native-audio-preview-09-2025";
                       cfg_responseModalities := [AUDIO];
                       cfg_voiceName := "Zephyr";
                       cfg_systemInstruction := r_systemInstruction r |}
                    (r_isMicOn r) st in
                Returned (set_sessionPromiseRef (Some sessionPromise) st)
            end
        end
    end.

(** [connectSession], as created by the render [r]. *)
Definition connectSession (r : Render) (env : SetupEnv) (st : State)
  : State :=
  if r_isConnecting r then st
  else
    let st := setIsConnecting true st in
    let st := setError None st in
    match connect_try r env st with
    | Returned st => st
    | Thrown e st =>
        let st :=
          setError
            (Some (JS.or_else (JS.message e)
                     "Failed to start audio session.")) st in
        let st := cleanupAudio st in
        setIsConnecting false st
    end.

(** *** The component as a transition system *)

Definition initial : State :=
  {| ui :=
       {| isActive := false; isConnecting := false;
          isAiSpeaking := false; isMicOn := true;
          systemInstruction :=
            "You are a helpful, witty, and concise AI assistant. Respond naturally and conversationally. IMPORTANT: As soon as the session starts, you MUST say 'Hello there! We can start.'";
          error := None; visualVolume := 0%R |};
     refs :=
       {| inputAudioContextRef := None; outputAudioContextRef := None;
          inputSourceRef := None; processorRef := None;
          outputNodeRef := None; streamRef := None;
          currentVolumeRef := 0%R; animationFrameRef := None;
          nextStartTimeRef := 0%R; sourcesRef := ∅; aiRef := None;
          sessionPromiseRef := None |};
     browser :=
       {| contexts := []; streams := []; nodes := [];
          bufferSources := []; sessions := []; rafPending := ∅;
          rafCounter := 0 |} |}.

Inductive Event :=
(* the user, on the set-up screen *)
| ChangeInstruction (value : string)
| ClickStart (env : SetupEnv)
(* the user, on the active screen *)
| ClickMic
| ClickEnd
(* React unmounts the component *)
| Unmount
(* the SDK, for the session [sid] *)
| SessionOpen (sid : nat)
| SessionMessage (sid : nat) (currentTime : R) (m : LiveServerMessage)
| SessionClose (sid : nat)
| SessionError (sid : nat)
| PromiseSettled (sid : nat) (ok : bool)
(* the browser *)
| AudioProcess (node : nat) (inputData : list R)
| AnimationFrame (handle : nat)
| SourceEnded (source : nat).

(** The handler each event reaches.  A control that the current screen
    does not show, or shows disabled, receives no click; a callback of
    an object that does not exist is never invoked; a script processor
    delivers blocks of its buffer size. *)
Definition step (ev : Event) (st : State) : State :=
  match ev with
  | ChangeInstruction value =>
      if isActive (ui st) then st else setSystemInstruction value st
  | ClickStart env =>
      if isActive (ui st) || isConnecting (ui st) then st
      else connectSession (render st) env st
  | ClickMic => if isActive (ui st) then toggleMic st else st
  | ClickEnd => if isActive (ui st) then disconnectSession st else st
  | Unmount => disconnectSession st
  | SessionOpen sid =>
      match sessions (browser st) !! sid with
      | Some s =>
          onopen {| captured_isMicOn := callbacks_isMicOn s;
                    captured_sessionPromise := sid |} st
      | None => st
      end
  | SessionMessage sid currentTime m =>
      match sessions (browser st) !! sid with
      | Some _ => onmessage currentTime m st
      | None => st
      end
  | SessionClose sid =>
      match sessions (browser st) !! sid with
      | Some _ => onclose st
      | None => st
      end
  | SessionError sid =>
      match sessions (browser st) !! sid with
      | Some _ => onerror st
      | None => st
      end
  | PromiseSettled sid ok =>
      settle sid (if ok then fulfilled else rejected) st
  | AudioProcess node inputData =>
      match nodes (browser st) !! node with
      | Some {| kind := ScriptProcessor size (Some cl) |} =>
          if decide (length inputData = size)
          then onaudioprocess cl inputData st
          else st
      | _ => st
      end
  | AnimationFrame handle =>
      if decide (handle ∈ rafPending (browser st))
      then update (cancelAnimationFrame handle st)
      else st
  | SourceEnded source =>
      match bufferSources (browser st) !! source with
      | Some {| startedAt := Some _ |} => onended source st
      | _ => st
      end
  end.

Definition run (evs : list Event) (st : State) : State :=
  fold_left (fun st ev => step ev st) evs st.

Inductive reachable : State -> Prop :=
| reachable_initial : reachable initial
| reachable_step ev st : reachable st -> reachable (step ev st).

End WithAudioUtils.

End LiveVoice.


(** ** [ChatInterface] *)

Module ChatInterface.

Inductive Role := user | model.

(** [ChatMessage] of the types module; [timestamp] in milliseconds. *)
Record ChatMessage := {
  id : string;
  role : Role;
  text : string;
  timestamp : Z;
  isStreaming : option bool
}.

Inductive Color := blue | purple | amber | green.

Record ModelConfig := {
  modelName : string;
  displayName : string;
  description : string;
  color : Color
}.

(** The SDK's [Chat]: its model and the messages passed to
    [sendMessageStream] so far, oldest first. *)
Record Chat := { chat_model : string; requests : list string }.

(** One element of the response stream; [chunk_text] is its [text]. *)
Record GenerateContentResponse := { chunk_text : option string }.

(** What [sendMessageStream] and the iteration over its result deliver:
    chunks in arrival order, then the end of the stream or an exception
    (with no chunk at all when the call itself is rejected). *)
Record Stream := {
  chunks : list GenerateContentResponse;
  failure : option JS.Error
}.

(** The four clock reads of one submission, in evaluation order. *)
Record Clock := {
  now_user : Z;        (* Date.now() of userMessage.id *)
  date_user : Z;       (* new Date() of userMessage.timestamp *)
  now_bot : Z;         (* Date.now() of tempBotMessageId *)
  date_bot : Z         (* new Date() of tempBotMessage.timestamp *)
}.

Record GoogleGenAI := { apiKey : string }.

Record State := {
  messages : list ChatMessage;
  input : string;
  isLoading : bool;
  aiRef : option GoogleGenAI;
  chatRef : option Chat
}.

(** What the render hands to [handleSubmit]. *)
Record Render := { r_input : string; r_isLoading : bool }.

Definition render (st : State) : Render :=
  {| r_input := input st; r_isLoading := isLoading st |}.

Definition setMessages (v : list ChatMessage) (st : State) : State :=
  {| messages := v; input := input st; isLoading := isLoading st;
     aiRef := aiRef st; chatRef := chatRef st |}.

Definition setInput (v : string) (st : State) : State :=
  {| messages := messages st; input := v; isLoading := isLoading st;
     aiRef := aiRef st; chatRef := chatRef st |}.

Definition setIsLoading (v : bool) (st : State) : State :=
  {| messages := messages st; input := input st; isLoading := v;
     aiRef := aiRef st; chatRef := chatRef st |}.

Definition set_aiRef (v : option GoogleGenAI) (st : State) : State :=
  {| messages := messages st; input := input st; isLoading := isLoading st;
     aiRef := v; chatRef := chatRef st |}.

Definition set_chatRef (v : option Chat) (st : State) : State :=
  {| messages := messages st; input := input st; isLoading := isLoading st;
     aiRef := aiRef st; chatRef := v |}.

Definition initial : State :=
  {| messages := []; input := EmptyString; isLoading := false;
     aiRef := None; chatRef := None |}.

(** The effect of [useEffect]: a chat exists only when
    [process.env.API_KEY] is set. *)
Definition initialize (env_API_KEY : option string) (config : ModelConfig)
    (st : State) : State :=
  match env_API_KEY with
  | Some key =>
      if JS.truthy key then
        let st := set_aiRef (Some {| apiKey := key |}) st in
        set_chatRef
          (Some {| chat_model := modelName config; requests := [] |}) st
      else st
  | None => st
  end.

Definition with_text (t : string) (m : ChatMessage) : ChatMessage :=
  {| id := id m; role := role m; text := t; timestamp := timestamp m;
     isStreaming := isStreaming m |}.

Definition with_isStreaming (b : bool) (m : ChatMessage) : ChatMessage :=
  {| id := id m; role := role m; text := text m; timestamp := timestamp m;
     isStreaming := Some b |}.

(** [prev.map(msg => msg.id === key ? f(msg) : msg)] *)
Definition map_id (key : string) (f : ChatMessage -> ChatMessage)
    (prev : list ChatMessage) : list ChatMessage :=
  map (fun msg => if String.eqb (id msg) key then f msg else msg) prev.

Definition userMessage (r : Render) (clock : Clock) : ChatMessage :=
  {| id := pretty (now_user clock); role := user; text := r_input r;
     timestamp := date_user clock; isStreaming := None |}.

Definition tempBotMessageId (clock : Clock) : string :=
  pretty (now_bot clock + 1)%Z.

Definition tempBotMessage (clock : Clock) : ChatMessage :=
  {| id := tempBotMessageId clock; role := model; text := EmptyString;
     timestamp := date_bot clock; isStreaming := Some true |}.

(** [chatRef.current.sendMessageStream({ message })] *)
Definition sendMessageStream (message : string) (st : State) : State :=
  match chatRef st with
  | Some c =>
      set_chatRef
        (Some {| chat_model := chat_model c;
                 requests := requests c ++ [message] |}) st
  | None => st
  end.

(** The body of [for await (const chunk of resultStream)]. *)
Definition on_chunk (key : string) (c : GenerateContentResponse)
    (acc : string * State) : string * State :=
  let '(fullText, st) := acc in
  match chunk_text c with
  | Some t =>
      if JS.truthy t then
        let fullText := (fullText ++ t)%string in
        (fullText,
         setMessages (map_id key (with_text fullText) (messages st)) st)
      else acc
  | None => acc
  end.

Definition consume (key : string) (cs : list GenerateContentResponse)
    (acc : string * State) : string * State :=
  fold_left (fun acc c => on_chunk key c acc) cs acc.

(** The guard of [handleSubmit]. *)
Definition rejected (r : Render) (st : State) : bool :=
  negb (JS.truthy (JS.trim (r_input r)))
  || negb (bool_decide (is_Some (chatRef st)))
  || r_isLoading r.

(** [handleSubmit] up to the [try]. *)
Definition submit (r : Render) (clock : Clock) (st : State) : State :=
  let st :=
    setMessages (messages st ++ [userMessage r clock; tempBotMessage clock])
      st in
  let st := setInput EmptyString st in
  setIsLoading true st.

(** The state while the first [n] chunks have arrived. *)
Definition streaming (r : Render) (clock : Clock) (s : Stream) (n : nat)
    (st : State) : State :=
  let st := submit r clock st in
  let st := sendMessageStream (text (userMessage r clock)) st in
  snd (consume (tempBotMessageId clock) (take n (chunks s))
         (EmptyString, st)).

(** [handleSubmit], as created by the render [r]. *)
Definition handleSubmit (r : Render) (clock : Clock) (s : Stream)
    (st : State) : State :=
  if rejected r st then st
  else
    let st := submit r clock st in
    (* try *)
    let st := sendMessageStream (text (userMessage r clock)) st in
    let '(fullText, st) :=
      consume (tempBotMessageId clock) (chunks s) (EmptyString, st) in
    let st :=
      match failure s with
      | None =>
          setMessages
            (map_id (tempBotMessageId clock) (with_isStreaming false)
               (messages st)) st
      | Some e =>
          (* catch *)
          setMessages
            (map_id (tempBotMessageId clock)
               (fun msg =>
                  with_isStreaming false
                    (with_text
                       ("Error: " ++
                        JS.or_else (JS.message e) "Something went wrong.")
                       msg))
               (messages st)) st
      end in
    (* finally *)
    setIsLoading false st.

(** The texts of the chunks, joined in arrival order (a chunk without
    text adds nothing). *)
Definition joined (cs : list GenerateContentResponse) : string :=
  fold_right
    (fun c rest => (default EmptyString (chunk_text c) ++ rest)%string)
    EmptyString cs.

(** The placeholder is the last message of the list. *)
Definition placeholder (st : State) : option ChatMessage :=
  last (messages st).

(** The text shown for a failed request. *)
Definition failure_text (e : JS.Error) : string :=
  ("Error: " ++ JS.or_else (JS.message e) "Something went wrong.")%string.

End ChatInterface.

(** ** [App]: which components the page mounts *)

Module App.

(** The components this repository defines. *)
Inductive Component := CApp | CLiveVoice | CChatInterface.

(** The repository's components among the elements each one returns:
    [App] returns a [div] around [<LiveVoice />]; [LiveVoice] and
    [ChatInterface] return host elements and library components only. *)
Definition renders (c : Component) : list Component :=
  match c with
  | CApp => [CLiveVoice]
  | CLiveVoice => []
  | CChatInterface => []
  end.

Fixpoint mounted_from (depth : nat) (c : Component) : list Component :=
  match depth with
  | O => [c]
  | S d => c :: flat_map (mounted_from d) (renders c)
  end.

(** Everything on the page: the default export [App] and what it
    renders, to the depth of the three components there are. *)
Definition mounted : list Component := mounted_from 3 CApp.

End App.


(** ** Vocabulary of the statements about [LiveVoice] *)

Module LiveVoiceSpec.

Import LiveVoice.

(** *** Playback order, as the specification words it *)

(** Each buffer starts at the later of the end of the one before it and
    the clock at its arrival; the end is the start plus the duration.
    An arrival is the clock and the duration; a slot is the start and the
    duration. *)
Fixpoint schedule (next : R) (arrivals : list (R * R)) : list (R * R) :=
  match arrivals with
  | [] => []
  | (now, d) :: rest =>
      (Rmax next now, d) :: schedule (Rmax next now + d)%R rest
  end.

(** The end of the last slot, or [next] when nothing was scheduled. *)
Definition schedule_end (next : R) (arrivals : list (R * R)) : R :=
  fold_left (fun next a => (Rmax next (fst a) + snd a)%R) arrivals next.

(** A source as [onmessage] leaves it: loaded, connected to the output
    node, started at [start] and not stopped. *)
Definition playing (outputNode : nat) (b : AudioBuffer) (start : R)
  : BufferSource :=
  {| buffer := Some b; connectedTo := [ToNode outputNode];
     startedAt := Some start; stopped := false |}.

Definition flagged_interrupted (m : LiveServerMessage) : bool :=
  match content ← serverContent m; interrupted content with
  | Some true => true
  | _ => false
  end.

(** An audio message: [base64Audio] is there and is not empty.  The
    message may carry the interruption flag as well. *)
Definition is_audio (m : LiveServerMessage) : bool :=
  match audio_of m with
  | Some base64Audio => JS.truthy base64Audio
  | None => false
  end.

Definition decoded `{AudioUtils} (ctx : nat) (m : LiveServerMessage)
  : AudioBuffer :=
  decodeAudioData (decode (default EmptyString (audio_of m))) ctx 24000%Z 1%Z.

(** The messages of a session, each with the clock at its arrival,
    handled one after the other. *)
Definition receive `{AudioUtils} (arrivals : list (R * LiveServerMessage))
    (st : State) : State :=
  fold_left (fun st a => onmessage (fst a) (snd a) st) arrivals st.

(** The clock and the decoded duration of each message. *)
Definition timing `{AudioUtils} (ctx : nat)
    (arrivals : list (R * LiveServerMessage)) : list (R * R) :=
  map (fun a => (fst a, duration (decoded ctx (snd a)))) arrivals.

(** *** Microphone frames *)

(** Blocks captured one after the other by the same callback. *)
Definition capture `{AudioUtils} (cl : AudioProcessClosure)
    (blocks : list (list R)) (st : State) : State :=
  fold_left (fun st inputData => onaudioprocess cl inputData st) blocks st.

(** The frames among the reactions waiting on a promise, in order. *)
Definition sends_of (q : list Reaction) : list Blob :=
  flat_map (fun r => match r with
                     | SendRealtimeInput media => [media]
                     | ResumeDisconnect => []
                     end) q.

(** The frames sent to session [sid] so far, oldest first. *)
Definition sent_to (sid : nat) (st : State) : option (list Blob) :=
  sent <$> sessions (browser st) !! sid.

(** The state of the promise of session [sid]. *)
Definition promise_of (sid : nat) (st : State) : option PromiseState :=
  promise <$> sessions (browser st) !! sid.

(** *** Resources *)

Definition is_stopped (source : nat) (st : State) : Prop :=
  exists s, bufferSources (browser st) !! source = Some s /\ stopped s = true.

Definition is_closed (ctx : nat) (st : State) : Prop :=
  exists c, contexts (browser st) !! ctx = Some c /\ state c = closed.

Definition is_muted (stream : nat) (st : State) : Prop :=
  exists s, streams (browser st) !! stream = Some s /\ tracksLive s = false.

Definition is_disconnected (node : nat) (st : State) : Prop :=
  exists n, nodes (browser st) !! node = Some n /\ outputs n = [].

(** A store is [advanced] to another when the same sources are there, each
    with the buffer, connections and start it had, and stopped if it was. *)
Definition advanced (srcs srcs' : list BufferSource) : Prop :=
  length srcs' = length srcs
  /\ forall id s, srcs !! id = Some s ->
       exists s', srcs' !! id = Some s'
                  /\ buffer s' = buffer s
                  /\ connectedTo s' = connectedTo s
                  /\ startedAt s' = startedAt s
                  /\ (stopped s = true -> stopped s' = true).

(** Every tracked source exists and has been started. *)
Definition tracked_started (st : State) : Prop :=
  forall id, id ∈ sourcesRef (refs st) ->
    exists s, bufferSources (browser st) !! id = Some s
              /\ is_Some (startedAt s).

(** The invariant of the component: refs point at objects that exist,
    tracked sources have been started, and both levels are in [0, 1]. *)
Record well_formed (st : State) : Prop := {
  wf_sources : tracked_started st;
  wf_stream : forall s, streamRef (refs st) = Some s ->
    s < length (streams (browser st));
  wf_inputSource : forall n, inputSourceRef (refs st) = Some n ->
    n < length (nodes (browser st));
  wf_processor : forall n, processorRef (refs st) = Some n ->
    n < length (nodes (browser st));
  wf_input : forall c, inputAudioContextRef (refs st) = Some c ->
    c < length (contexts (browser st));
  wf_output : forall c, outputAudioContextRef (refs st) = Some c ->
    c < length (contexts (browser st));
  wf_session : forall sid, sessionPromiseRef (refs st) = Some sid ->
    sid < length (sessions (browser st));
  wf_current : (0 <= currentVolumeRef (refs st) <= 1)%R;
  wf_visual : (0 <= visualVolume (ui st) <= 1)%R
}.

(** Everything [before] holds through its refs has been let go of in
    [after]. *)
Record released (before after : State) : Prop := {
  rel_sources : forall id, id ∈ sourcesRef (refs before) ->
    is_stopped id after;
  rel_stream : forall s, streamRef (refs before) = Some s ->
    is_muted s after;
  rel_inputSource : forall n, inputSourceRef (refs before) = Some n ->
    is_disconnected n after;
  rel_processor : forall n, processorRef (refs before) = Some n ->
    is_disconnected n after;
  rel_input : forall c, inputAudioContextRef (refs before) = Some c ->
    is_closed c after;
  rel_output : forall c, outputAudioContextRef (refs before) = Some c ->
    is_closed c after
}.

(** The component holds no session and shows the set-up screen. *)
Record idle (st : State) : Prop := {
  idle_sources : sourcesRef (refs st) = ∅;
  idle_stream : streamRef (refs st) = None;
  idle_input : inputAudioContextRef (refs st) = None;
  idle_output : outputAudioContextRef (refs st) = None;
  idle_session : sessionPromiseRef (refs st) = None;
  idle_next : nextStartTimeRef (refs st) = 0%R;
  idle_frame : forall h, animationFrameRef (refs st) = Some h -> h = 0;
  idle_speaking : isAiSpeaking (ui st) = false;
  idle_connecting : isConnecting (ui st) = false;
  idle_active : isActive (ui st) = false
}.

(** The state of the promise [sessionPromiseRef] holds, if any. *)
Definition awaited_promise (st : State) : option PromiseState :=
  sid ← sessionPromiseRef (refs st);
  s ← sessions (browser st) !! sid;
  Some (promise s).

(** A [disconnectSession] is waiting for the promise of session [sid]. *)
Definition awaiting_disconnect (sid : nat) (st : State) : Prop :=
  exists s, sessions (browser st) !! sid = Some s
            /\ promise s = pending
            /\ ResumeDisconnect ∈ reactions s.

(** Two states that differ in the sessions and their promises only. *)
Definition same_but_sessions (a b : State) : Prop :=
  ui b = ui a /\ refs b = refs a
  /\ contexts (browser b) = contexts (browser a)
  /\ streams (browser b) = streams (browser a)
  /\ nodes (browser b) = nodes (browser a)
  /\ bufferSources (browser b) = bufferSources (browser a)
  /\ rafPending (browser b) = rafPending (browser a)
  /\ rafCounter (browser b) = rafCounter (browser a).

(** The component is idle and has let go of what [before] held. *)
Definition torn_down (before st : State) : Prop :=
  idle st /\ released before st.

(** *** [cleanupAudio] in closed form *)

Definition cleanup_ui (u : Ui) : Ui :=
  {| isActive := isActive u; isConnecting := false; isAiSpeaking := false;
     isMicOn := isMicOn u; systemInstruction := systemInstruction u;
     error := error u; visualVolume := 0%R |}.

Definition cleanup_refs (r : Refs) : Refs :=
  {| inputAudioContextRef := None; outputAudioContextRef := None;
     inputSourceRef := inputSourceRef r; processorRef := processorRef r;
     outputNodeRef := outputNodeRef r; streamRef := None;
     currentVolumeRef := 0%R;
     animationFrameRef :=
       match animationFrameRef r with
       | Some (S _) => None
       | other => other
       end;
     nextStartTimeRef := 0%R; sourcesRef := ∅; aiRef := aiRef r;
     sessionPromiseRef := None |}.

(** [f] at the object a ref holds, nothing for an empty ref. *)
Definition at_ref {A} (f : A -> A) (ref : option nat) (store : list A)
  : list A :=
  match ref with
  | Some i => alter f i store
  | None => store
  end.

Definition cleanup_browser (r : Refs) (b : Browser) : Browser :=
  {| contexts :=
       at_ref (with_state closed) (outputAudioContextRef r)
         (at_ref (with_state closed) (inputAudioContextRef r) (contexts b));
     streams :=
       at_ref (fun _ => {| tracksLive := false |}) (streamRef r) (streams b);
     nodes :=
       at_ref (with_outputs []) (processorRef r)
         (at_ref (with_outputs []) (inputSourceRef r) (nodes b));
     bufferSources :=
       stop_each_try (elements (sourcesRef r)) (bufferSources b);
     sessions := sessions b;
     rafPending :=
       match animationFrameRef r with
       | Some (S h) => rafPending b ∖ {[ S h ]}
       | _ => rafPending b
       end;
     rafCounter := rafCounter b |}.

End LiveVoiceSpec.

(** ** Concrete values for the examples *)

Module Samples.

Import LiveVoice LiveVoiceSpec.

(** Helpers that keep what the proofs can observe: the frame records the
    size of its block, a buffer lasts as many seconds as its payload has
    characters. *)
Definition utils : AudioUtils :=
  {| createBlob := fun inputData =>
       {| blob_data := pretty (length inputData);
          blob_mimeType := "audio/pcm;rate=16000" |};
     decode := fun base64 => repeat Byte.x00 (String.length base64);
     decodeAudioData := fun bytes _ _ _ =>
       {| duration := INR (length bytes) |} |}.

Definition key : string := "key".

(** The platform grants everything; contexts start running. *)
Definition granted : SetupEnv :=
  {| new_input_context := Succeeds running;
     new_output_context := Succeeds running;
     getUserMedia := Succeeds tt |}.

(** The user refuses the microphone. *)
Definition denied : SetupEnv :=
  {| new_input_context := Succeeds running;
     new_output_context := Succeeds running;
     getUserMedia :=
       Throws {| JS.message := Some "Permission denied"%string |} |}.

Definition audio (base64 : string) : LiveServerMessage :=
  {| serverContent :=
       Some {| modelTurn :=
                 Some {| parts :=
                           Some [ {| inlineData :=
                                       Some {| data := Some base64 |} |} ] |};
               interrupted := None |} |}.

Definition interruption : LiveServerMessage :=
  {| serverContent := Some {| modelTurn := None; interrupted := Some true |} |}.

(** Audio and the interruption flag in one message. *)
Definition interrupted_audio (base64 : string) : LiveServerMessage :=
  {| serverContent :=
       Some {| modelTurn :=
                 Some {| parts :=
                           Some [ {| inlineData :=
                                       Some {| data := Some base64 |} |} ] |};
               interrupted := Some true |} |}.

(** A block of 4096 samples at full scale. *)
Definition loud : list R := repeat 1%R 4096.

(** A conversation is started and the session is open. *)
Definition talking : State :=
  run (H := utils) key
    [ClickStart granted; SessionOpen 0; PromiseSettled 0 true] initial.

(** The user mutes, ends the conversation and starts another one. *)
Definition muted_restart : State :=
  run (H := utils) key
    [ClickMic; ClickEnd; ClickStart granted; SessionOpen 1;
     PromiseSettled 1 true] talking.

End Samples.

(** ** What [LiveVoice] renders *)

Module LiveVoiceView.

Import LiveVoice.

Inductive Screen := SetupScreen | ActiveScreen.

(** [{!isActive && (...)}] and [{isActive && (...)}] *)
Definition screen (st : State) : Screen :=
  if isActive (ui st) then ActiveScreen else SetupScreen.

(** [{error && (...)}], inside the set-up screen. *)
Definition errorBanner (st : State) : option string :=
  if isActive (ui st) then None
  else
    match error (ui st) with
    | Some e => if JS.truthy e then Some e else None
    | None => None
    end.

(** [disabled={isConnecting}] of the start button. *)
Definition startDisabled (st : State) : bool := isConnecting (ui st).

(** The text of the status pill. *)
Definition statusLabel (st : State) : string :=
  if isAiSpeaking (ui st) then "GEMINI SPEAKING"
  else if isMicOn (ui st) then "LISTENING" else "MUTED".

(** The factor of [transform: scale(...)] of the core blob. *)
Definition blobScale (st : State) : R :=
  if negb (isAiSpeaking (ui st)) && isMicOn (ui st)
  then (1 + visualVolume (ui st) * 1.5)%R
  else if isAiSpeaking (ui st)
       then (1 + visualVolume (ui st) * 0.2)%R
       else 1%R.

(** The blur radius of [boxShadow], in pixels. *)
Definition glowRadius (st : State) : R :=
  if isAiSpeaking (ui st)
  then (40 + visualVolume (ui st) * 50)%R
  else (20 + visualVolume (ui st) * 50)%R.

End LiveVoiceView.

(** ** Further vocabulary *)

Module Behaviour.

Import LiveVoice LiveVoiceSpec.

(** The speaking indicator is on only while a source is tracked. *)
Definition speaking_tracked (st : State) : Prop :=
  isAiSpeaking (ui st) = true -> sourcesRef (refs st) <> ∅.

(** Every tracked source has been started and has not been stopped. *)
Definition tracked_playing (st : State) : Prop :=
  forall id, id ∈ sourcesRef (refs st) ->
    exists s, bufferSources (browser st) !! id = Some s
              /\ is_Some (startedAt s) /\ stopped s = false.

(** Animation-frame handles in use are positive and were handed out. *)
Definition handles_issued (st : State) : Prop :=
  (forall h, h ∈ rafPending (browser st) ->
     0 < h <= rafCounter (browser st))
  /\ (forall h, animationFrameRef (refs st) = Some h ->
        0 < h <= rafCounter (browser st)).

(** The tracks of [stream] are live. *)
Definition is_live (stream : nat) (st : State) : Prop :=
  streams (browser st) !! stream = Some {| tracksLive := true |}.

(** The tracks of [stream] are live and no ref holds the stream. *)
Definition orphaned (stream : nat) (st : State) : Prop :=
  is_live stream st /\ streamRef (refs st) <> Some stream.

(** A session later on: its configuration and the microphone flag its
    callbacks hold are what they were, frames have only been added at the
    end, a closed session stays closed and a settled promise keeps its
    outcome. *)
Definition session_grown (s s' : Session) : Prop :=
  config s' = config s
  /\ callbacks_isMicOn s' = callbacks_isMicOn s
  /\ (exists more, sent s' = sent s ++ more)
  /\ (sessionClosed s = true -> sessionClosed s' = true)
  /\ (promise s <> pending -> promise s' = promise s).

Definition sessions_grown (before after : list Session) : Prop :=
  forall sid s, before !! sid = Some s ->
    exists s', after !! sid = Some s' /\ session_grown s s'.

(** The clicks on the start button among the events. *)
Definition is_start (ev : Event) : bool :=
  match ev with
  | ClickStart _ => true
  | _ => false
  end.

Definition starts (evs : list Event) : nat :=
  length (filter (fun ev => is_start ev = true) evs).

(** [n] animation frames in a row. *)
Definition frames (n : nat) (st : State) : State := Nat.iter n update st.

(** The [ended] events of the sources [ids], one after the other. *)
Definition all_ended (ids : list nat) (st : State) : State :=
  fold_left (fun st id => onended id st) ids st.

End Behaviour.

(** ** Several turns of a chat *)

Module Conversation.

Import ChatInterface.

(** One turn: what the user typed, the clock reads of the submission and
    what the stream delivered. *)
Record Turn := {
  typed : string;
  clock : Clock;
  stream : Stream
}.

(** The user types (the [onChange] of the input) and submits the form. *)
Definition turn (t : Turn) (st : State) : State :=
  let st := setInput (typed t) st in
  handleSubmit (render st) (clock t) (stream t) st.

Definition converse (ts : list Turn) (st : State) : State :=
  fold_left (fun st t => turn t st) ts st.

(** The reply shown for a turn when its stream has ended. *)
Definition reply_text (t : Turn) : string :=
  match failure (stream t) with
  | None => joined (chunks (stream t))
  | Some e => failure_text e
  end.

(** The two messages a finished turn leaves in the list. *)
Definition exchange (t : Turn) : list ChatMessage :=
  [ {| id := pretty (now_user (clock t)); role := user; text := typed t;
       timestamp := date_user (clock t); isStreaming := None |};
    {| id := pretty (now_bot (clock t) + 1)%Z; role := model;
       text := reply_text t; timestamp := date_bot (clock t);
       isStreaming := Some false |} ].

(** Every id in the list is the decimal form of an integer below [bound]. *)
Definition ids_below (bound : Z) (msgs : list ChatMessage) : Prop :=
  Forall (fun m => exists z, id m = pretty z /\ (z < bound)%Z) msgs.

(** The clock does not run backwards during a turn, and each turn is
    submitted at a later millisecond than the one before it ([last] is
    the last clock read so far). *)
Fixpoint clocks_advance (last : Z) (ts : list Turn) : Prop :=
  match ts with
  | [] => True
  | t :: rest =>
      (last < now_user (clock t))%Z
      /\ (now_user (clock t) <= now_bot (clock t))%Z
      /\ clocks_advance (now_bot (clock t)) rest
  end.

End Conversation.

(** * Properties *)

(** ** The level meter *)

Section VolumeFacts.

Import Volume.
Local Open Scope R_scope.

Lemma every_fourth_cons (x : R) (t : list R) :
  every_fourth (x :: t) = x :: every_fourth (drop 3 t).
Proof.
  destruct t as [|a [|b [|c t]]]; reflexivity.
Qed.

Lemma nth_drop_head (data : list R) (i : nat) :
  (i < length data)%nat ->
  drop i data = nth i data 0 :: drop (S i) data.
Proof.
  revert i. induction data as [|x data IH]; intros i Hi; simpl in Hi.
  - lia.
  - destruct i as [|i]; simpl.
    + by rewrite drop_0.
    + apply IH. lia.
Qed.

(** The loop adds the squares of the samples at [i], [i + 4], ... as soon
    as its fuel covers what is left of the block. *)
Lemma sum_loop_every_fourth (fuel : nat) (data : list R) (i : nat) (sum : R) :
  (length data - i <= fuel)%nat ->
  sum_loop fuel data i sum
  = sum + sum_of_squares (every_fourth (drop i data)).
Proof.
  revert i sum. induction fuel as [|fuel IH]; intros i sum Hfuel.
  - rewrite drop_ge by lia. simpl. lra.
  - simpl. destruct (Nat.ltb_spec i (length data)) as [Hi|Hi].
    + rewrite IH by lia.
      rewrite (nth_drop_head data i Hi), every_fourth_cons.
      rewrite drop_drop. replace (S i + 3)%nat with (i + 4)%nat by lia.
      simpl. lra.
    + rewrite drop_ge by lia. simpl. lra.
Qed.

Lemma stride_sum_every_fourth (data : list R) :
  stride_sum data = sum_of_squares (every_fourth data).
Proof.
  unfold stride_sum. rewrite sum_loop_every_fourth by lia.
  rewrite drop_0. lra.
Qed.

Lemma length_every_fourth (n : nat) (data : list R) :
  length data = (4 * n)%nat -> length (every_fourth data) = n.
Proof.
  revert data. induction n as [|n IH]; intros data Hlen.
  - destruct data; [reflexivity | simpl in Hlen; lia].
  - destruct data as [|a [|b [|c [|d data]]]]; simpl in Hlen; try lia.
    simpl. f_equal. apply IH. lia.
Qed.

Lemma sum_of_squares_nonneg (l : list R) : 0 <= sum_of_squares l.
Proof.
  induction l as [|x l IH]; simpl; [lra | nra].
Qed.

Lemma level_range (data : list R) : 0 <= level data <= 1.
Proof.
  unfold level, rms. split.
  - apply Rmin_glb; [|lra].
    pose proof (sqrt_pos (stride_sum data / (INR (length data) / 4))). lra.
  - apply Rmin_r.
Qed.

Lemma smooth_range (prev current : R) :
  0 <= prev <= 1 -> 0 <= current <= 1 -> 0 <= smooth prev current <= 1.
Proof.
  unfold smooth. intros Hp Hc. lra.
Qed.

(** A block of a multiple of four samples: the level is the root mean
    square of every fourth sample, times 5, capped at 1. *)
Lemma level_is_scaled_rms (n : nat) (data : list R) :
  length data = (4 * n)%nat ->
  level data = Rmin (root_mean_square (every_fourth data) * 5) 1.
Proof.
  intros Hlen. unfold level, rms, root_mean_square.
  rewrite stride_sum_every_fourth, (length_every_fourth n data Hlen), Hlen.
  rewrite mult_INR.
  replace (INR 4 * INR n / 4) with (INR n) by (simpl (INR 4); lra).
  reflexivity.
Qed.

End VolumeFacts.

(** ** [LiveVoice]: stopping sources *)

Section StopFacts.

Import LiveVoice LiveVoiceSpec.

Lemma advanced_refl (srcs : list BufferSource) : advanced srcs srcs.
Proof. split; [reflexivity|]. intros id s Hs. exists s. auto. Qed.

Lemma advanced_trans (a b c : list BufferSource) :
  advanced a b -> advanced b c -> advanced a c.
Proof.
  intros [Hlen1 H1] [Hlen2 H2]. split; [congruence|].
  intros id s Hs.
  destruct (H1 id s Hs) as (s1 & Hs1 & Hb1 & Hc1 & Ha1 & Hp1).
  destruct (H2 id s1 Hs1) as (s2 & Hs2 & Hb2 & Hc2 & Ha2 & Hp2).
  exists s2. repeat split; try congruence. auto.
Qed.

Lemma stop_source_advanced (id : nat) (srcs srcs' : list BufferSource) :
  stop_source id srcs = Some srcs' -> advanced srcs srcs'.
Proof.
  unfold stop_source. intros Hstop.
  destruct (srcs !! id) as [s|] eqn:Hs; [|discriminate].
  destruct (startedAt s) eqn:Hstart; [|discriminate].
  injection Hstop as <-. split; [apply length_insert|].
  intros j t Ht. destruct (decide (j = id)) as [->|Hne].
  - exists (mark_stopped s). rewrite list_lookup_insert_eq
      by (eapply lookup_lt_Some; eauto).
    assert (t = s) as -> by congruence. auto.
  - exists t. rewrite list_lookup_insert_ne by auto. auto.
Qed.

Lemma stop_source_stops (id : nat) (srcs : list BufferSource)
    (s : BufferSource) :
  srcs !! id = Some s -> is_Some (startedAt s) ->
  exists srcs' s', stop_source id srcs = Some srcs'
                   /\ srcs' !! id = Some s' /\ stopped s' = true.
Proof.
  intros Hs [when Hstart]. unfold stop_source. rewrite Hs, Hstart.
  exists (<[id := mark_stopped s]> srcs), (mark_stopped s).
  split; [reflexivity|]. split; [|reflexivity].
  apply list_lookup_insert_eq. eapply lookup_lt_Some; eauto.
Qed.

Lemma stop_each_try_advanced (ids : list nat) (srcs : list BufferSource) :
  advanced srcs (stop_each_try ids srcs).
Proof.
  revert srcs. induction ids as [|id ids IH]; intros srcs; simpl.
  - apply advanced_refl.
  - eapply advanced_trans; [|apply IH].
    destruct (stop_source id srcs) as [srcs'|] eqn:Hstop; simpl.
    + eapply stop_source_advanced; eauto.
    + apply advanced_refl.
Qed.

(** With the exceptions caught, every started source of the list ends up
    stopped. *)
Lemma stop_each_try_stops (ids : list nat) (srcs : list BufferSource)
    (id : nat) (s : BufferSource) :
  id ∈ ids -> srcs !! id = Some s -> is_Some (startedAt s) ->
  exists s', stop_each_try ids srcs !! id = Some s' /\ stopped s' = true.
Proof.
  revert srcs s. induction ids as [|j ids IH]; intros srcs s Hin Hs Hstart.
  - by apply elem_of_nil in Hin.
  - simpl. apply elem_of_cons in Hin as [->|Hin].
    + destruct (stop_source_stops j srcs s Hs Hstart)
        as (srcs' & s' & -> & Hs' & Hstopped). simpl.
      destruct (stop_each_try_advanced ids srcs') as [_ Hadv].
      destruct (Hadv j s' Hs') as (s2 & Hs2 & _ & _ & _ & Hkeep).
      exists s2. auto.
    + destruct (stop_source j srcs) as [srcs'|] eqn:Hstop; simpl.
      * destruct (stop_source_advanced j srcs srcs' Hstop) as [_ Hadv].
        destruct (Hadv id s Hs) as (s1 & Hs1 & _ & _ & Hstart1 & _).
        eapply IH; eauto. by rewrite Hstart1.
      * eauto.
Qed.

(** Without a [try], the loop runs to its end when every source of the
    list has been started, and then agrees with the guarded loop. *)
Lemma stop_each_started (ids : list nat) (srcs : list BufferSource) :
  (forall id, id ∈ ids ->
     exists s, srcs !! id = Some s /\ is_Some (startedAt s)) ->
  stop_each ids srcs = inl (stop_each_try ids srcs).
Proof.
  revert srcs. induction ids as [|j ids IH]; intros srcs Hall; simpl.
  - reflexivity.
  - destruct (Hall j) as (s & Hs & Hstart); [by left|].
    destruct (stop_source_stops j srcs s Hs Hstart)
      as (srcs' & s' & Hstop & _ & _).
    rewrite Hstop. simpl. apply IH. intros id Hid.
    destruct (Hall id) as (t & Ht & Hst); [by right|].
    destruct (stop_source_advanced j srcs srcs' Hstop) as [_ Hadv].
    destruct (Hadv id t Ht) as (t' & Ht' & _ & _ & Hstart' & _).
    exists t'. split; [done|]. by rewrite Hstart'.
Qed.

Lemma stop_each_advanced (ids : list nat) (srcs : list BufferSource) :
  advanced srcs
    (match stop_each ids srcs with inl r => r | inr r => r end).
Proof.
  revert srcs. induction ids as [|id ids IH]; intros srcs; simpl.
  - apply advanced_refl.
  - destruct (stop_source id srcs) as [srcs'|] eqn:Hstop.
    + eapply advanced_trans; [|apply IH].
      eapply stop_source_advanced; eauto.
    + apply advanced_refl.
Qed.

End StopFacts.

(** ** [LiveVoice]: [cleanupAudio] *)

Section CleanupFacts.

Import LiveVoice LiveVoiceSpec.

Lemma alter_closed_id (ctxs : list AudioContext) (c : nat)
    (x : AudioContext) :
  ctxs !! c = Some x -> state x = closed ->
  alter (with_state closed) c ctxs = ctxs.
Proof.
  intros Hx Hc. apply list_eq. intros i.
  destruct (decide (i = c)) as [->|Hne].
  - rewrite list_lookup_alter_eq, Hx. simpl. f_equal.
    destruct x as [rate s]. simpl in Hc. subst s. reflexivity.
  - by rewrite list_lookup_alter_ne.
Qed.

Lemma close_unless_closed_eq (ref : option nat) (st : State) :
  close_unless_closed ref st
  = set_contexts (at_ref (with_state closed) ref (contexts (browser st))) st.
Proof.
  destruct st as [u r [cs ss ns bs se rp rc]].
  unfold close_unless_closed, at_ref, context_state, close. simpl.
  destruct ref as [c|]; [|reflexivity].
  destruct (cs !! c) as [x|] eqn:Hx; simpl.
  - destruct (state x) eqn:Hs; try reflexivity.
    unfold set_contexts; simpl. by rewrite (alter_closed_id cs c x).
  - reflexivity.
Qed.

(** What [cleanupAudio] computes, field by field. *)
Lemma cleanupAudio_closed_form (st : State) :
  cleanupAudio st
  = {| ui := cleanup_ui (ui st); refs := cleanup_refs (refs st);
       browser := cleanup_browser (refs st) (browser st) |}.
Proof.
  unfold cleanupAudio, reset_state, close_contexts.
  rewrite !close_unless_closed_eq.
  destruct st as [u r b]. destruct r, b.
  unfold disconnect_nodes, stop_input_stream, stop_all_sources,
    stop_animation_loop.
  simpl.
  destruct animationFrameRef0 as [[|h]|], streamRef0, inputSourceRef0,
    processorRef0; reflexivity.
Qed.

Lemma length_at_ref {A} (f : A -> A) (ref : option nat) (store : list A) :
  length (at_ref f ref store) = length store.
Proof. destruct ref; simpl; [apply length_alter | reflexivity]. Qed.

Lemma lookup_at_ref {A} (f : A -> A) (i : nat) (store : list A) :
  at_ref f (Some i) store !! i = f <$> store !! i.
Proof. simpl. apply list_lookup_alter_eq. Qed.

Lemma lookup_at_ref_fmap {A} (f : A -> A) (ref : option nat) (i : nat)
    (store : list A) (x : A) :
  store !! i = Some x ->
  at_ref f ref store !! i = Some x \/ at_ref f ref store !! i = Some (f x).
Proof.
  intros Hx. destruct ref as [j|]; simpl; [|by left].
  destruct (decide (i = j)) as [->|Hne].
  - right. by rewrite list_lookup_alter_eq, Hx.
  - left. by rewrite list_lookup_alter_ne.
Qed.

Lemma cleanupAudio_well_formed (st : State) :
  well_formed st -> well_formed (cleanupAudio st).
Proof.
  intros Hwf. rewrite cleanupAudio_closed_form.
  constructor; simpl; try lra; try (intros ? ?; discriminate).
  - intros n Hn. rewrite !length_at_ref. by apply (wf_inputSource st Hwf).
  - intros n Hn. rewrite !length_at_ref. by apply (wf_processor st Hwf).
Qed.

(** After [cleanupAudio] the component holds nothing. *)
Lemma cleanupAudio_idle (st : State) :
  isActive (ui st) = false -> idle (cleanupAudio st).
Proof.
  intros Hact. rewrite cleanupAudio_closed_form.
  constructor; simpl; try reflexivity; try assumption.
  intros h. destruct (animationFrameRef (refs st)) as [[|h']|];
    intros Hh; congruence.
Qed.

(** [cleanupAudio] lets go of everything the refs of a well-formed state
    hold. *)
Lemma cleanupAudio_released (st : State) :
  well_formed st -> released st (cleanupAudio st).
Proof.
  intros Hwf. rewrite cleanupAudio_closed_form.
  constructor; unfold is_stopped, is_muted, is_disconnected, is_closed;
    simpl.
  - intros id Hid.
    destruct (wf_sources st Hwf id Hid) as (s & Hs & Hstart).
    apply (stop_each_try_stops _ _ id s); auto.
    by apply elem_of_elements.
  - intros s Hs. rewrite Hs, lookup_at_ref.
    destruct (lookup_lt_is_Some_2 (streams (browser st)) s
                (wf_stream st Hwf s Hs)) as [x Hx].
    rewrite Hx. simpl. eauto.
  - intros n Hn. rewrite Hn.
    destruct (lookup_lt_is_Some_2 (nodes (browser st)) n
                (wf_inputSource st Hwf n Hn)) as [x Hx].
    assert (at_ref (with_outputs []) (Some n) (nodes (browser st)) !! n
            = Some (with_outputs [] x)) as Hx'
      by (by rewrite lookup_at_ref, Hx).
    destruct (lookup_at_ref_fmap (with_outputs []) (processorRef (refs st))
                n _ _ Hx') as [H|H]; rewrite H; eauto.
  - intros n Hn. rewrite Hn, lookup_at_ref.
    assert (n < length (at_ref (with_outputs []) (inputSourceRef (refs st))
                          (nodes (browser st)))) as Hlt
      by (rewrite length_at_ref; by apply (wf_processor st Hwf)).
    destruct (lookup_lt_is_Some_2 _ _ Hlt) as [x Hx].
    rewrite Hx. simpl. eauto.
  - intros c Hc. rewrite Hc.
    destruct (lookup_lt_is_Some_2 (contexts (browser st)) c
                (wf_input st Hwf c Hc)) as [x Hx].
    assert (at_ref (with_state closed) (Some c) (contexts (browser st)) !! c
            = Some (with_state closed x)) as Hx'
      by (by rewrite lookup_at_ref, Hx).
    destruct (lookup_at_ref_fmap (with_state closed)
                (outputAudioContextRef (refs st)) c _ _ Hx') as [H|H];
      rewrite H; eauto.
  - intros c Hc. rewrite Hc, lookup_at_ref.
    assert (c < length (at_ref (with_state closed)
                          (inputAudioContextRef (refs st))
                          (contexts (browser st)))) as Hlt
      by (rewrite length_at_ref; by apply (wf_output st Hwf)).
    destruct (lookup_lt_is_Some_2 _ _ Hlt) as [x Hx].
    rewrite Hx. simpl. eauto.
Qed.

End CleanupFacts.

(** ** [LiveVoice]: the invariant *)

Section InvariantFacts.

Import LiveVoice LiveVoiceSpec.

Context (API_KEY : string) `{U : AudioUtils}.

(** Handlers that leave the refs, the levels and the size of the stores
    alone, and at most stop sources. *)
Lemma well_formed_frame (st st' : State) :
  refs st' = refs st ->
  visualVolume (ui st') = visualVolume (ui st) ->
  advanced (bufferSources (browser st)) (bufferSources (browser st')) ->
  length (streams (browser st')) = length (streams (browser st)) ->
  length (nodes (browser st')) = length (nodes (browser st)) ->
  length (contexts (browser st')) = length (contexts (browser st)) ->
  length (sessions (browser st')) = length (sessions (browser st)) ->
  well_formed st -> well_formed st'.
Proof.
  intros Hrefs Hvis [_ Hadv] Hs Hn Hc Hse Hwf.
  destruct Hwf as [Hsrc Hstr Hin Hproc Hic Hoc Hses Hcur Hv].
  constructor; unfold tracked_started in *;
    rewrite ?Hrefs, ?Hvis, ?Hs, ?Hn, ?Hc, ?Hse; auto.
  intros id Hid. destruct (Hsrc id Hid) as (s & Hlook & Hstart).
  destruct (Hadv id s Hlook) as (s' & Hlook' & _ & _ & Hstart' & _).
  exists s'. split; [done|]. by rewrite Hstart'.
Qed.

Ltac frame :=
  intros Hwf; eapply well_formed_frame; [..|exact Hwf]; simpl;
  rewrite ?length_alter, ?length_insert;
  try reflexivity; try apply advanced_refl.

Lemma setIsActive_well_formed b st :
  well_formed st -> well_formed (setIsActive b st).
Proof. frame. Qed.

Lemma setIsConnecting_well_formed b st :
  well_formed st -> well_formed (setIsConnecting b st).
Proof. frame. Qed.

Lemma setIsAiSpeaking_well_formed b st :
  well_formed st -> well_formed (setIsAiSpeaking b st).
Proof. frame. Qed.

Lemma setIsMicOn_well_formed b st :
  well_formed st -> well_formed (setIsMicOn b st).
Proof. frame. Qed.

Lemma setError_well_formed e st :
  well_formed st -> well_formed (setError e st).
Proof. frame. Qed.

Lemma setSystemInstruction_well_formed v st :
  well_formed st -> well_formed (setSystemInstruction v st).
Proof. frame. Qed.

Lemma sendRealtimeInput_well_formed sid media st :
  well_formed st -> well_formed (sendRealtimeInput sid media st).
Proof. frame. Qed.

Lemma close_session_well_formed sid st :
  well_formed st -> well_formed (close_session sid st).
Proof. frame. Qed.

Lemma finish_disconnect_well_formed st :
  well_formed st -> well_formed (finish_disconnect st).
Proof.
  intros Hwf. apply setIsActive_well_formed, cleanupAudio_well_formed, Hwf.
Qed.

Lemma run_reaction_well_formed sid outcome r st :
  well_formed st -> well_formed (run_reaction sid outcome r st).
Proof.
  intros Hwf. destruct r, outcome; simpl;
    auto using sendRealtimeInput_well_formed, finish_disconnect_well_formed,
      close_session_well_formed.
Qed.

Lemma promise_then_well_formed sid r st :
  well_formed st -> well_formed (promise_then sid r st).
Proof.
  intros Hwf. unfold promise_then.
  destruct (sessions (browser st) !! sid) as [s|]; [|done].
  destruct (promise s); try by apply run_reaction_well_formed.
  revert Hwf. frame.
Qed.

Lemma fold_reactions_well_formed sid outcome q st :
  well_formed st ->
  well_formed (fold_left (fun st r => run_reaction sid outcome r st) q st).
Proof.
  revert st. induction q as [|r q IH]; intros st Hwf; simpl; [done|].
  apply IH, run_reaction_well_formed, Hwf.
Qed.

Lemma settle_well_formed sid outcome st :
  well_formed st -> well_formed (settle sid outcome st).
Proof.
  intros Hwf. unfold settle.
  destruct (sessions (browser st) !! sid) as [s|]; [|done].
  destruct (promise s); try done.
  apply fold_reactions_well_formed. revert Hwf. frame.
Qed.

Lemma disconnectSession_well_formed st :
  well_formed st -> well_formed (disconnectSession st).
Proof.
  intros Hwf. unfold disconnectSession.
  destruct (sessionPromiseRef (refs st));
    auto using promise_then_well_formed, finish_disconnect_well_formed.
Qed.

Lemma onclose_well_formed st : well_formed st -> well_formed (onclose st).
Proof. frame. Qed.

Lemma onerror_well_formed st : well_formed st -> well_formed (onerror st).
Proof.
  intros Hwf. apply disconnectSession_well_formed, setError_well_formed, Hwf.
Qed.

Lemma toggleMic_well_formed st : well_formed st -> well_formed (toggleMic st).
Proof. frame. Qed.

Lemma update_well_formed st : well_formed st -> well_formed (update st).
Proof.
  intros Hwf. destruct Hwf as [Hsrc Hstr Hin Hproc Hic Hoc Hses Hcur Hv].
  constructor; simpl; auto.
  by apply smooth_range.
Qed.

Lemma onended_well_formed source st :
  well_formed st -> well_formed (onended source st).
Proof.
  intros Hwf. unfold onended. simpl.
  assert (well_formed
            (set_sourcesRef (sourcesRef (refs st) ∖ {[source]}) st)) as Hwf'.
  { destruct Hwf as [Hsrc Hstr Hin Hproc Hic Hoc Hses Hcur Hv].
    constructor; simpl; auto.
    intros id Hid. apply Hsrc. simpl in Hid.
    by apply elem_of_difference in Hid as [Hid _]. }
  case_decide; [by apply setIsAiSpeaking_well_formed | done].
Qed.

Lemma onaudioprocess_well_formed cl inputData st :
  well_formed st -> well_formed (onaudioprocess cl inputData st).
Proof.
  intros Hwf. unfold onaudioprocess.
  destruct (negb (captured_isMicOn cl)).
  - destruct Hwf as [Hsrc Hstr Hin Hproc Hic Hoc Hses Hcur Hv].
    constructor; simpl; auto. lra.
  - apply promise_then_well_formed.
    destruct Hwf as [Hsrc Hstr Hin Hproc Hic Hoc Hses Hcur Hv].
    constructor; simpl; auto. apply level_range.
Qed.

(** A ref to a fresh object, or an old ref into a store that grew. *)
Ltac grow :=
  let n := fresh "n" in
  let Hn := fresh "Hn" in
  intros n Hn;
  first [ injection Hn as Hn; subst n
        | match goal with H : forall _, _ = Some _ -> _ |- _ =>
            apply H in Hn
          end ];
  rewrite ?length_alter, ?length_app; simpl; lia.

Lemma onopen_well_formed cl st : well_formed st -> well_formed (onopen cl st).
Proof.
  intros Hwf. unfold onopen.
  assert (well_formed
            (startVisualLoop (setIsActive true (setIsConnecting false st))))
    as Hwf'.
  { apply update_well_formed, setIsActive_well_formed,
      setIsConnecting_well_formed, Hwf. }
  revert Hwf'.
  generalize (startVisualLoop (setIsActive true (setIsConnecting false st))).
  clear Hwf st. intros st Hwf.
  destruct (inputAudioContextRef (refs st)) as [ctx|]; [|done].
  destruct (streamRef (refs st)) as [stream|]; [|done].
  destruct Hwf as [Hsrc Hstr Hin Hproc Hic Hoc Hses Hcur Hv].
  constructor; simpl; auto; grow.
Qed.

(** The audio half of [onmessage] appends one source, starts it and tracks
    it. *)
Lemma onmessage_audio_well_formed now m st :
  well_formed st -> well_formed (onmessage_audio now m st).
Proof.
  intros Hwf. unfold onmessage_audio.
  destruct (audio_of m) as [base64Audio|]; [|done].
  destruct (outputAudioContextRef (refs st)) as [ctx|] eqn:Hctx; [|done].
  destruct (outputNodeRef (refs st)) as [outputNode|]; [|done].
  destruct (JS.truthy base64Audio); [|done].
  assert (well_formed
            (match context_state ctx st with
             | Some suspended => resume ctx st
             | _ => st
             end)) as Hwf'.
  { destruct (context_state ctx st) as [[| |]|]; try done.
    revert Hwf. unfold resume.
    intros Hwf; eapply well_formed_frame; [..|exact Hwf]; simpl;
      rewrite ?length_alter; try reflexivity; apply advanced_refl. }
  revert Hwf'.
  generalize (match context_state ctx st with
              | Some suspended => resume ctx st
              | _ => st
              end).
  clear Hwf Hctx st. intros st Hwf.
  destruct Hwf as [Hsrc Hstr Hin Hproc Hic Hoc Hses Hcur Hv].
  constructor; simpl; auto.
  unfold tracked_started. simpl. intros id Hid.
  rewrite !alter_app_r_alt by (rewrite ?length_alter, ?length_app; lia).
  rewrite Nat.sub_diag. simpl.
  apply elem_of_union in Hid as [Hid|Hid].
  - apply elem_of_singleton in Hid as ->.
    rewrite lookup_app_r by lia. rewrite Nat.sub_diag. simpl. eauto.
  - destruct (Hsrc id Hid) as (s & Hs & Hstart).
    exists s. split; [|done]. by apply lookup_app_l_Some.
Qed.

Lemma onmessage_interruption_well_formed m st :
  well_formed st -> well_formed (onmessage_interruption m st).
Proof.
  intros Hwf. unfold onmessage_interruption.
  destruct (content ← serverContent m; interrupted content) as [[|]|];
    try done.
  pose proof (stop_each_advanced (elements (sourcesRef (refs st)))
                (bufferSources (browser st))) as Hadv.
  destruct (stop_each _ _) as [srcs|srcs].
  - destruct Hwf as [Hsrc Hstr Hin Hproc Hic Hoc Hses Hcur Hv].
    constructor; simpl; auto.
    intros id Hid. by apply elem_of_empty in Hid.
  - revert Hwf. intros Hwf; eapply well_formed_frame; [..|exact Hwf]; simpl;
      try reflexivity. exact Hadv.
Qed.

Lemma onmessage_well_formed now m st :
  well_formed st -> well_formed (onmessage now m st).
Proof.
  intros Hwf.
  apply onmessage_interruption_well_formed, onmessage_audio_well_formed, Hwf.
Qed.

(** However the [try] block of [connectSession] ends, it ends in a
    well-formed state. *)
Lemma connect_try_well_formed r env st :
  well_formed st ->
  match connect_try API_KEY r env st with
  | Returned st' => well_formed st'
  | Thrown _ st' => well_formed st'
  end.
Proof.
  intros Hwf. unfold connect_try.
  destruct Hwf as [Hsrc Hstr Hin Hproc Hic Hoc Hses Hcur Hv].
  destruct (negb (JS.truthy API_KEY)).
  { constructor; auto. }
  destruct (new_input_context env) as [s_in|e].
  2: { constructor; simpl; auto. }
  destruct (new_output_context env) as [s_out|e].
  2: { constructor; simpl; auto;
       grow. }
  destruct (getUserMedia env) as [[]|e].
  - constructor; simpl; auto;
      grow.
  - constructor; simpl; auto;
      grow.
Qed.

Lemma connectSession_well_formed r env st :
  well_formed st -> well_formed (connectSession API_KEY r env st).
Proof.
  intros Hwf. unfold connectSession.
  destruct (r_isConnecting r); [done|].
  pose proof (connect_try_well_formed r env
                (setError None (setIsConnecting true st))
                (setError_well_formed _ _
                   (setIsConnecting_well_formed _ _ Hwf))) as Htry.
  destruct (connect_try _ _ _ _) as [st'|e st']; [done|].
  apply setIsConnecting_well_formed, cleanupAudio_well_formed,
    setError_well_formed, Htry.
Qed.

Lemma initial_well_formed : well_formed initial.
Proof.
  constructor; simpl; try lra; try (intros ? ?; discriminate).
Qed.

Lemma step_well_formed ev st :
  well_formed st -> well_formed (step API_KEY ev st).
Proof.
  intros Hwf. destruct ev; simpl.
  - destruct (isActive (ui st));
      auto using setSystemInstruction_well_formed.
  - destruct (isActive (ui st) || isConnecting (ui st));
      auto using connectSession_well_formed.
  - destruct (isActive (ui st)); auto using toggleMic_well_formed.
  - destruct (isActive (ui st)); auto using disconnectSession_well_formed.
  - by apply disconnectSession_well_formed.
  - destruct (sessions (browser st) !! sid); auto using onopen_well_formed.
  - destruct (sessions (browser st) !! sid);
      auto using onmessage_well_formed.
  - destruct (sessions (browser st) !! sid); auto using onclose_well_formed.
  - destruct (sessions (browser st) !! sid); auto using onerror_well_formed.
  - by apply settle_well_formed.
  - destruct (nodes (browser st) !! node) as [[[| size [cl|] |] ctx outs]|];
      try done.
    case_decide; auto using onaudioprocess_well_formed.
  - case_decide; [|done]. apply update_well_formed.
    revert Hwf. unfold cancelAnimationFrame.
    intros Hwf; eapply well_formed_frame; [..|exact Hwf]; simpl;
      try reflexivity. apply advanced_refl.
  - destruct (bufferSources (browser st) !! source) as [[b c [w|] s]|];
      auto using onended_well_formed.
Qed.

(** Every state the component can be in is well formed. *)
Lemma reachable_well_formed st : reachable API_KEY st -> well_formed st.
Proof.
  induction 1 as [|ev st _ IH].
  - apply initial_well_formed.
  - by apply step_well_formed.
Qed.

Lemma reachable_run evs st :
  reachable API_KEY st -> reachable API_KEY (run API_KEY evs st).
Proof.
  revert st. induction evs as [|ev evs IH]; intros st Hst; simpl; [done|].
  apply IH. by constructor.
Qed.

End InvariantFacts.

(** ** [LiveVoice]: playback order *)

Section PlaybackFacts.

Import LiveVoice LiveVoiceSpec.

Context `{U : AudioUtils}.

Lemma alter_fresh {A} (f : A -> A) (l : list A) (x : A) :
  alter f (length l) (l ++ [x]) = l ++ [f x].
Proof.
  rewrite alter_app_r_alt by lia. by rewrite Nat.sub_diag.
Qed.

Lemma is_audio_inv (m : LiveServerMessage) :
  is_audio m = true ->
  exists base64Audio,
    audio_of m = Some base64Audio /\ JS.truthy base64Audio = true.
Proof.
  unfold is_audio. destruct (audio_of m) as [b|]; [|discriminate].
  intros Ht. by exists b.
Qed.

Lemma onmessage_interruption_unflagged (m : LiveServerMessage) (st : State) :
  flagged_interrupted m = false -> onmessage_interruption m st = st.
Proof.
  unfold flagged_interrupted, onmessage_interruption.
  destruct (content ← serverContent m; interrupted content) as [[|]|];
    [discriminate|done|done].
Qed.

(** Without an output context or an output node, nothing is decoded and
    nothing is scheduled. *)
Lemma onmessage_audio_without_output (now : R) (m : LiveServerMessage)
    (st : State) :
  outputAudioContextRef (refs st) = None \/ outputNodeRef (refs st) = None ->
  onmessage_audio now m st = st.
Proof.
  intros Hnone. unfold onmessage_audio.
  destruct (audio_of m); [|done].
  destruct (outputAudioContextRef (refs st)); [|done].
  destruct (outputNodeRef (refs st)); [|done].
  by destruct Hnone.
Qed.

(** The audio half on a message that carries audio, with or without
    the interruption flag: one more source, started at the later of the
    next start time and the clock; the next start time is that start plus
    the duration of the buffer. *)
Lemma onmessage_audio_schedules (now : R) (m : LiveServerMessage)
    (st : State) (ctx outputNode : nat) :
  outputAudioContextRef (refs st) = Some ctx ->
  outputNodeRef (refs st) = Some outputNode ->
  is_audio m = true ->
  let start := Rmax (nextStartTimeRef (refs st)) now in
  let st' := onmessage_audio now m st in
  bufferSources (browser st')
  = bufferSources (browser st) ++ [playing outputNode (decoded ctx m) start]
  /\ nextStartTimeRef (refs st') = (start + duration (decoded ctx m))%R
  /\ sourcesRef (refs st')
     = {[ length (bufferSources (browser st)) ]} ∪ sourcesRef (refs st)
  /\ outputAudioContextRef (refs st') = Some ctx
  /\ outputNodeRef (refs st') = Some outputNode
  /\ isAiSpeaking (ui st') = true.
Proof.
  intros Hctx Hnode Haudio.
  destruct (is_audio_inv m Haudio) as (b64 & Hb64 & Htruthy).
  unfold onmessage_audio, decoded. rewrite Hb64, Hctx, Hnode, Htruthy.
  simpl.
  destruct (context_state ctx st) as [[| |]|]; simpl;
    rewrite !alter_fresh; simpl; by rewrite ?Hctx, ?Hnode.
Qed.

(** The whole handler on an audio message without the flag. *)
Lemma onmessage_audio_message (now : R) (m : LiveServerMessage)
    (st : State) (ctx outputNode : nat) :
  outputAudioContextRef (refs st) = Some ctx ->
  outputNodeRef (refs st) = Some outputNode ->
  is_audio m = true ->
  flagged_interrupted m = false ->
  let start := Rmax (nextStartTimeRef (refs st)) now in
  let st' := onmessage now m st in
  bufferSources (browser st')
  = bufferSources (browser st) ++ [playing outputNode (decoded ctx m) start]
  /\ nextStartTimeRef (refs st') = (start + duration (decoded ctx m))%R
  /\ sourcesRef (refs st')
     = {[ length (bufferSources (browser st)) ]} ∪ sourcesRef (refs st)
  /\ outputAudioContextRef (refs st') = Some ctx
  /\ outputNodeRef (refs st') = Some outputNode
  /\ isAiSpeaking (ui st') = true.
Proof.
  intros Hctx Hnode Haudio Hflag.
  unfold onmessage. rewrite onmessage_interruption_unflagged by done.
  by apply onmessage_audio_schedules.
Qed.

Lemma schedule_end_app (next : R) (a b : list (R * R)) :
  schedule_end next (a ++ b) = schedule_end (schedule_end next a) b.
Proof. unfold schedule_end. apply fold_left_app. Qed.

Lemma length_schedule (next : R) (arrivals : list (R * R)) :
  length (schedule next arrivals) = length arrivals.
Proof.
  revert next. induction arrivals as [|[now d] rest IH]; intros next; simpl.
  - reflexivity.
  - by rewrite IH.
Qed.

Lemma schedule_no_overlap (next : R) (arrivals : list (R * R)) (i : nat)
    (s d s' d' : R) :
  schedule next arrivals !! i = Some (s, d) ->
  schedule next arrivals !! S i = Some (s', d') ->
  (s + d <= s')%R.
Proof.
  revert next i. induction arrivals as [|[now dur] rest IH]; intros next i.
  - discriminate.
  - destruct i as [|i]; simpl.
    + intros [= <- <-]. destruct rest as [|[now' dur'] rest]; simpl.
      * discriminate.
      * intros [= <- <-]. apply Rmax_l.
    + apply IH.
Qed.

Lemma schedule_start_after_clock (next : R) (arrivals : list (R * R))
    (i : nat) (s d now dur : R) :
  schedule next arrivals !! i = Some (s, d) ->
  arrivals !! i = Some (now, dur) ->
  (now <= s)%R /\ d = dur.
Proof.
  revert next i. induction arrivals as [|[now0 dur0] rest IH]; intros next i.
  - discriminate.
  - destruct i as [|i]; simpl.
    + intros [= <- <-] [= <- <-]. split; [apply Rmax_r | done].
    + apply IH.
Qed.

Lemma schedule_monotone (next : R) (arrivals : list (R * R)) (i j : nat)
    (s d s' d' : R) :
  Forall (fun a => (0 <= snd a)%R) arrivals ->
  i < j ->
  schedule next arrivals !! i = Some (s, d) ->
  schedule next arrivals !! j = Some (s', d') ->
  (s + d <= s')%R.
Proof.
  intros Hdur Hij. revert s d s' d'.
  induction Hij as [|j Hij IH]; intros s d s' d' Hi Hj.
  - eapply schedule_no_overlap; eauto.
  - assert (is_Some (schedule next arrivals !! j)) as [[s1 d1] Hj1].
    { apply lookup_lt_is_Some. apply lookup_lt_Some in Hj. lia. }
    pose proof (IH s d s1 d1 Hi Hj1) as Hle.
    pose proof (schedule_no_overlap next arrivals j s1 d1 s' d' Hj1 Hj).
    assert (0 <= d1)%R; [|lra].
    assert (is_Some (arrivals !! j)) as [[now dur] Ha].
    { apply lookup_lt_is_Some. apply lookup_lt_Some in Hj1.
      by rewrite length_schedule in Hj1. }
    destruct (schedule_start_after_clock next arrivals j s1 d1 now dur
                Hj1 Ha) as [_ ->].
    exact (Forall_lookup_1 _ _ _ _ Hdur Ha).
Qed.

Lemma schedule_back_to_back (next : R) (arrivals : list (R * R)) (i : nat)
    (s d now' d' : R) :
  schedule next arrivals !! i = Some (s, d) ->
  arrivals !! S i = Some (now', d') ->
  schedule next arrivals !! S i = Some (Rmax (s + d) now', d').
Proof.
  revert next i. induction arrivals as [|[now dur] rest IH]; intros next i.
  - discriminate.
  - destruct i as [|i]; simpl.
    + intros [= <- <-]. destruct rest as [|[now1 dur1] rest]; simpl.
      * discriminate.
      * by intros [= <- <-].
    + apply IH.
Qed.

(** C1, as the code has it. While the output context and the output node
    are in place.
    For every message that carries audio, with or without the interruption
    flag, the audio half of the handler creates one source with the
    decoded buffer, starts it at the later of the next start time and the
    clock, and sets the next start time to that start plus the duration of
    the buffer.
    Audio messages that do not carry the interruption flag, handled one
    after the other by the whole handler: the sources created are, in
    arrival order, the decoded buffers, each started at the later of the
    end of the one before and the clock at its arrival; the next start
    time ends up at the end of the last one; each buffer starts at the end
    of the one before it when the clock has not passed that end, and never
    before it; and, durations being non-negative, no buffer starts before
    the end of any earlier one. *)
Theorem audio_played_in_arrival_order (st : State) (ctx outputNode : nat)
    (arrivals : list (R * LiveServerMessage)) :
  outputAudioContextRef (refs st) = Some ctx ->
  outputNodeRef (refs st) = Some outputNode ->
  Forall (fun a => is_audio (snd a) = true) arrivals ->
  Forall (fun a => flagged_interrupted (snd a) = false) arrivals ->
  let next := nextStartTimeRef (refs st) in
  let plan := schedule next (timing ctx arrivals) in
  let st' := receive arrivals st in
  (forall now m,
     is_audio m = true ->
     let st1 := onmessage_audio now m st in
     bufferSources (browser st1)
     = bufferSources (browser st)
       ++ [playing outputNode (decoded ctx m) (Rmax next now)]
     /\ nextStartTimeRef (refs st1)
        = (Rmax next now + duration (decoded ctx m))%R)
  /\ bufferSources (browser st')
     = bufferSources (browser st)
       ++ zip_with (fun a slot => playing outputNode (decoded ctx (snd a))
                                    (fst slot)) arrivals plan
  /\ nextStartTimeRef (refs st') = schedule_end next (timing ctx arrivals)
  /\ (forall i s d now' d',
        plan !! i = Some (s, d) ->
        timing ctx arrivals !! S i = Some (now', d') ->
        plan !! S i = Some (Rmax (s + d) now', d') /\ (s + d <= Rmax (s + d) now')%R)
  /\ (Forall (fun a => (0 <= snd a)%R) (timing ctx arrivals) ->
      forall i j s d s' d', i < j ->
        plan !! i = Some (s, d) -> plan !! j = Some (s', d') ->
        (s + d <= s')%R).
Proof.
  intros Hctx Hnode Haudio Hplain next plan st'.
  assert (Forall (fun a => is_audio (snd a) = true
                           /\ flagged_interrupted (snd a) = false) arrivals)
    as Hboth by (by apply Forall_and).
  clear Haudio Hplain.
  split; [|split; [|split; [|split]]].
  - intros now m Hm st1.
    destruct (onmessage_audio_schedules now m st ctx outputNode Hctx Hnode
                Hm) as (Hsrcs & Hnext & _).
    by split.
  - subst next plan st'. revert st Hctx Hnode.
    induction Hboth as [|[now m] rest [Hm Hf] _ IH]; intros st Hctx Hnode.
    + simpl. by rewrite app_nil_r.
    + simpl in Hm, Hf. simpl.
      destruct (onmessage_audio_message now m st ctx outputNode Hctx Hnode
                  Hm Hf)
        as (Hsrcs & Hnext & _ & Hctx' & Hnode' & _).
      rewrite (IH _ Hctx' Hnode'), Hsrcs, Hnext.
      by rewrite <- app_assoc.
  - subst next plan st'. revert st Hctx Hnode.
    induction Hboth as [|[now m] rest [Hm Hf] _ IH]; intros st Hctx Hnode.
    + reflexivity.
    + simpl in Hm, Hf. simpl.
      destruct (onmessage_audio_message now m st ctx outputNode Hctx Hnode
                  Hm Hf)
        as (_ & Hnext & _ & Hctx' & Hnode' & _).
      rewrite (IH _ Hctx' Hnode'), Hnext. reflexivity.
  - intros i s d now' d' Hi Hnext. split; [|apply Rmax_l].
    eapply schedule_back_to_back; eauto.
  - intros Hdur i j s d s' d' Hij Hi Hj.
    eapply (schedule_monotone next (timing ctx arrivals) i j); eauto.
Qed.

End PlaybackFacts.

(** ** [LiveVoice]: interruption *)

Section InterruptionFacts.

Import LiveVoice LiveVoiceSpec.

Context (API_KEY : string) `{U : AudioUtils}.

Lemma onmessage_audio_keeps_tracking (now : R) (m : LiveServerMessage)
    (st : State) (id : nat) :
  id ∈ sourcesRef (refs st) ->
  id ∈ sourcesRef (refs (onmessage_audio now m st)).
Proof.
  intros Hid. unfold onmessage_audio.
  destruct (audio_of m) as [b64|]; [|done].
  destruct (outputAudioContextRef (refs st)) as [ctx|]; [|done].
  destruct (outputNodeRef (refs st)) as [outputNode|]; [|done].
  destruct (JS.truthy b64); [|done].
  destruct (context_state ctx st) as [[| |]|]; simpl;
    apply elem_of_union; by right.
Qed.

(** The interruption half on a well-formed state: nothing throws, every
    tracked source is stopped and the playback state is reset. *)
Lemma onmessage_interruption_flagged (m : LiveServerMessage) (st : State) :
  well_formed st -> flagged_interrupted m = true ->
  let st' := onmessage_interruption m st in
  (forall id, id ∈ sourcesRef (refs st) -> is_stopped id st')
  /\ sourcesRef (refs st') = ∅
  /\ nextStartTimeRef (refs st') = 0%R
  /\ isAiSpeaking (ui st') = false.
Proof.
  intros Hwf Hflag. unfold onmessage_interruption.
  unfold flagged_interrupted in Hflag.
  destruct (content ← serverContent m; interrupted content) as [[|]|];
    try discriminate.
  rewrite stop_each_started.
  2: { intros id Hid. apply (wf_sources st Hwf). by apply elem_of_elements. }
  simpl. repeat split.
  intros id Hid. destruct (wf_sources st Hwf id Hid) as (s & Hs & Hstart).
  unfold is_stopped. simpl.
  eapply stop_each_try_stops; eauto. by apply elem_of_elements.
Qed.

(** C2. A message flagged as interrupted, in any state the component can
    reach: every source tracked when the message arrives, and the one the
    same message may have scheduled, is stopped; the set of tracked
    sources is empty, the next start time is 0 and the AI-speaking flag is
    cleared. *)
Theorem interruption_stops_playback (st : State) (now : R)
    (m : LiveServerMessage) :
  reachable API_KEY st ->
  flagged_interrupted m = true ->
  let scheduled := onmessage_audio now m st in
  let st' := onmessage now m st in
  (forall id, id ∈ sourcesRef (refs st) \/ id ∈ sourcesRef (refs scheduled) ->
     is_stopped id st')
  /\ sourcesRef (refs st') = ∅
  /\ nextStartTimeRef (refs st') = 0%R
  /\ isAiSpeaking (ui st') = false.
Proof.
  intros Hreach Hflag scheduled st'.
  assert (well_formed scheduled) as Hwf
    by apply onmessage_audio_well_formed, (reachable_well_formed API_KEY),
         Hreach.
  destruct (onmessage_interruption_flagged m scheduled Hwf Hflag)
    as (Hstop & Hset & Hnext & Hspeak).
  split; [|done].
  intros id [Hid|Hid]; apply Hstop; [|done].
  by apply onmessage_audio_keeps_tracking.
Qed.

End InterruptionFacts.

(** ** [LiveVoice]: teardown *)

Section TeardownFacts.

Import LiveVoice LiveVoiceSpec.

Context (API_KEY : string) `{U : AudioUtils}.

Lemma released_same_refs (a b after : State) :
  refs b = refs a -> released a after -> released b after.
Proof.
  intros Hrefs [H1 H2 H3 H4 H5 H6].
  constructor; rewrite Hrefs; assumption.
Qed.

Lemma released_same_browser (before x y : State) :
  browser y = browser x -> released before x -> released before y.
Proof.
  intros Hb [H1 H2 H3 H4 H5 H6].
  constructor; unfold is_stopped, is_muted, is_disconnected, is_closed in *;
    rewrite Hb; assumption.
Qed.

Lemma finish_disconnect_idle (st : State) : idle (finish_disconnect st).
Proof.
  unfold finish_disconnect. rewrite cleanupAudio_closed_form.
  constructor; simpl; try reflexivity.
  intros h. destruct (animationFrameRef (refs st)) as [[|h']|];
    intros Hh; congruence.
Qed.

(** The end of [disconnectSession] on a well-formed state. *)
Lemma finish_disconnect_released (st : State) :
  well_formed st -> released st (finish_disconnect st).
Proof.
  intros Hwf. unfold finish_disconnect.
  apply (released_same_browser st (cleanupAudio st)).
  - rewrite cleanupAudio_closed_form. reflexivity.
  - by apply cleanupAudio_released.
Qed.

(** What was let go of stays so through another [cleanupAudio]. *)
Lemma cleanupAudio_keeps_released (before st : State) :
  released before st -> released before (cleanupAudio st).
Proof.
  intros [H1 H2 H3 H4 H5 H6]. rewrite cleanupAudio_closed_form.
  constructor; unfold is_stopped, is_muted, is_disconnected, is_closed in *;
    simpl.
  - intros id Hid. destruct (H1 id Hid) as (s & Hs & Hstopped).
    destruct (stop_each_try_advanced (elements (sourcesRef (refs st)))
                (bufferSources (browser st))) as [_ Hadv].
    destruct (Hadv id s Hs) as (s' & Hs' & _ & _ & _ & Hkeep). eauto.
  - intros s Hs. destruct (H2 s Hs) as (x & Hx & Hlive).
    destruct (lookup_at_ref_fmap (fun _ => {| tracksLive := false |})
                (streamRef (refs st)) s _ x Hx) as [H|H]; rewrite H; eauto.
  - intros n Hn. destruct (H3 n Hn) as (x & Hx & Hout).
    destruct (lookup_at_ref_fmap (with_outputs [])
                (inputSourceRef (refs st)) n _ x Hx) as [H|H];
      destruct (lookup_at_ref_fmap (with_outputs [])
                  (processorRef (refs st)) n _ _ H) as [H'|H'];
      rewrite H'; eauto.
  - intros n Hn. destruct (H4 n Hn) as (x & Hx & Hout).
    destruct (lookup_at_ref_fmap (with_outputs [])
                (inputSourceRef (refs st)) n _ x Hx) as [H|H];
      destruct (lookup_at_ref_fmap (with_outputs [])
                  (processorRef (refs st)) n _ _ H) as [H'|H'];
      rewrite H'; eauto.
  - intros c Hc. destruct (H5 c Hc) as (x & Hx & Hclosed).
    destruct (lookup_at_ref_fmap (with_state closed)
                (inputAudioContextRef (refs st)) c _ x Hx) as [H|H];
      destruct (lookup_at_ref_fmap (with_state closed)
                  (outputAudioContextRef (refs st)) c _ _ H) as [H'|H'];
      rewrite H'; eauto.
  - intros c Hc. destruct (H6 c Hc) as (x & Hx & Hclosed).
    destruct (lookup_at_ref_fmap (with_state closed)
                (inputAudioContextRef (refs st)) c _ x Hx) as [H|H];
      destruct (lookup_at_ref_fmap (with_state closed)
                  (outputAudioContextRef (refs st)) c _ _ H) as [H'|H'];
      rewrite H'; eauto.
Qed.

Lemma finish_disconnect_keeps_released (before st : State) :
  released before st -> released before (finish_disconnect st).
Proof.
  intros Hrel. unfold finish_disconnect.
  apply (released_same_browser before (cleanupAudio st)).
  - rewrite cleanupAudio_closed_form. reflexivity.
  - by apply cleanupAudio_keeps_released.
Qed.

Lemma released_same_but_sessions (before x y : State) :
  same_but_sessions x y -> released before x -> released before y.
Proof.
  intros (_ & _ & Hc & Hs & Hn & Hb & _) [H1 H2 H3 H4 H5 H6].
  constructor; unfold is_stopped, is_muted, is_disconnected, is_closed in *;
    rewrite ?Hc, ?Hs, ?Hn, ?Hb; assumption.
Qed.

Lemma idle_same_but_sessions (x y : State) :
  same_but_sessions x y -> idle x -> idle y.
Proof.
  intros (Hui & Hrefs & _) Hidle. destruct Hidle.
  constructor; rewrite ?Hui, ?Hrefs; assumption.
Qed.

Lemma same_but_sessions_trans (a b c : State) :
  same_but_sessions a b -> same_but_sessions b c -> same_but_sessions a c.
Proof.
  intros (H1 & H2 & H3 & H4 & H5 & H6 & H7 & H8)
         (G1 & G2 & G3 & G4 & G5 & G6 & G7 & G8).
  repeat split; congruence.
Qed.

Lemma same_but_sessions_set (st : State) (v : list Session) :
  same_but_sessions st (set_sessions v st).
Proof. repeat split. Qed.

Lemma torn_down_same_but_sessions (before x y : State) :
  same_but_sessions x y -> torn_down before x -> torn_down before y.
Proof.
  intros Hsame [Hidle Hrel]. split.
  - eapply idle_same_but_sessions; eauto.
  - eapply released_same_but_sessions; eauto.
Qed.

(** The awaited part of [disconnectSession], run in a state that differs
    from [before] in the sessions only. *)
Lemma resume_disconnect_tears_down (before st : State) (sid : nat)
    (outcome : PromiseState) :
  same_but_sessions before st -> well_formed st ->
  torn_down before (run_reaction sid outcome ResumeDisconnect st).
Proof.
  intros Hsame Hwf.
  assert (forall s, same_but_sessions before s -> well_formed s ->
                    torn_down before (finish_disconnect s)) as Hfin.
  { intros s (_ & Hrefs & _) Hs. split; [apply finish_disconnect_idle|].
    apply (released_same_refs s); [done|].
    by apply finish_disconnect_released. }
  destruct outcome; simpl; try by apply Hfin.
  apply Hfin.
  - eapply same_but_sessions_trans; [exact Hsame|].
    apply same_but_sessions_set.
  - by apply close_session_well_formed.
Qed.

Lemma run_reaction_keeps_torn_down (before st : State) (sid : nat)
    (outcome : PromiseState) (r : Reaction) :
  torn_down before st -> torn_down before (run_reaction sid outcome r st).
Proof.
  intros Htorn.
  assert (forall s, torn_down before s ->
                    torn_down before (finish_disconnect s)) as Hfin.
  { intros s [_ Hrel]. split; [apply finish_disconnect_idle|].
    by apply finish_disconnect_keeps_released. }
  destruct r, outcome; simpl; try done; try by apply Hfin.
  - eapply torn_down_same_but_sessions; [|exact Htorn].
    apply same_but_sessions_set.
  - apply Hfin. eapply torn_down_same_but_sessions; [|exact Htorn].
    apply same_but_sessions_set.
Qed.

Lemma fold_reactions_keep_torn_down (before : State) (sid : nat)
    (outcome : PromiseState) (q : list Reaction) (st : State) :
  torn_down before st ->
  torn_down before
    (fold_left (fun st r => run_reaction sid outcome r st) q st).
Proof.
  revert st. induction q as [|r q IH]; intros st Htorn; simpl; [done|].
  by apply IH, run_reaction_keeps_torn_down.
Qed.

(** Reactions run on a state that differs from [before] in the sessions
    only: once a waiting [disconnectSession] is among them, the result is
    torn down. *)
Lemma fold_reactions_tear_down (before : State) (sid : nat)
    (outcome : PromiseState) (q : list Reaction) (st : State) :
  same_but_sessions before st -> well_formed st ->
  ResumeDisconnect ∈ q ->
  torn_down before
    (fold_left (fun st r => run_reaction sid outcome r st) q st).
Proof.
  revert st. induction q as [|r q IH]; intros st Hsame Hwf Hin; simpl.
  - by apply elem_of_nil in Hin.
  - destruct r as [media|].
    + apply IH.
      * destruct outcome; simpl; try done.
      * by apply run_reaction_well_formed.
      * apply elem_of_cons in Hin as [Hin|Hin]; [discriminate|done].
    + apply fold_reactions_keep_torn_down.
      by apply resume_disconnect_tears_down.
Qed.

Lemma run_reaction_keeps (sid : nat) (outcome : PromiseState) (r : Reaction)
    (st : State) :
  length (sessions (browser (run_reaction sid outcome r st)))
  = length (sessions (browser st))
  /\ error (ui (run_reaction sid outcome r st)) = error (ui st).
Proof.
  unfold run_reaction, finish_disconnect.
  destruct r, outcome; rewrite ?cleanupAudio_closed_form;
    unfold sendRealtimeInput, close_session; simpl;
    rewrite ?length_alter; split; reflexivity.
Qed.

Lemma fold_reactions_keep (sid : nat) (outcome : PromiseState)
    (q : list Reaction) (st : State) :
  let st' := fold_left (fun st r => run_reaction sid outcome r st) q st in
  length (sessions (browser st')) = length (sessions (browser st))
  /\ error (ui st') = error (ui st).
Proof.
  revert st. induction q as [|r q IH]; intros st; [done|].
  cbn [fold_left]. destruct (IH (run_reaction sid outcome r st)) as [-> ->].
  apply run_reaction_keeps.
Qed.

Lemma torn_down_same_refs (a b st : State) :
  refs b = refs a -> torn_down a st -> torn_down b st.
Proof.
  intros Hrefs [Hidle Hrel]. split; [done|].
  by apply (released_same_refs a).
Qed.

(** A [try] block that throws has touched neither the state variables nor
    the sessions. *)
Lemma connect_try_thrown (r : Render) (env : SetupEnv) (st stt : State)
    (e : JS.Error) :
  connect_try API_KEY r env st = Thrown e stt ->
  ui stt = ui st /\ sessions (browser stt) = sessions (browser st).
Proof.
  unfold connect_try.
  destruct (negb (JS.truthy API_KEY)); [by intros [= <- <-]|].
  destruct (new_input_context env) as [s_in|e1]; [|by intros [= <- <-]].
  destruct (new_output_context env) as [s_out|e2]; [|by intros [= <- <-]].
  destruct (getUserMedia env) as [[]|e3]; [discriminate|by intros [= <- <-]].
Qed.

(** The error callback, step by step. *)
Lemma onerror_cases (st : State) :
  well_formed st ->
  let st0 :=
    setError (Some "Connection failed. Please try again."%string) st in
  match sessionPromiseRef (refs st) with
  | None => onerror st = finish_disconnect st0
  | Some sid =>
      exists s, sessions (browser st) !! sid = Some s
        /\ match promise s with
           | pending =>
               onerror st
               = set_sessions
                   (<[sid := with_promise pending
                               (reactions s ++ [ResumeDisconnect]) s]>
                      (sessions (browser st))) st0
           | fulfilled =>
               onerror st = finish_disconnect (close_session sid st0)
           | rejected => onerror st = finish_disconnect st0
           end
  end.
Proof.
  intros Hwf st0. unfold onerror, disconnectSession. fold st0.
  change (refs st0) with (refs st).
  destruct (sessionPromiseRef (refs st)) as [sid|] eqn:Href; [|done].
  destruct (lookup_lt_is_Some_2 (sessions (browser st)) sid
              (wf_session st Hwf sid Href)) as [s Hs].
  exists s. split; [done|].
  unfold promise_then. change (sessions (browser st0))
    with (sessions (browser st)).
  rewrite Hs. destruct (promise s); reflexivity.
Qed.

End TeardownFacts.

Section ErrorFacts.

Import LiveVoice LiveVoiceSpec.

Context (API_KEY : string) `{U : AudioUtils}.

(** The error callback when the session promise is absent or settled. *)
Lemma onerror_settled (st : State) :
  well_formed st ->
  awaited_promise st <> Some pending ->
  torn_down st (onerror st).
Proof.
  intros Hwf Hnot.
  set (st0 := setError (Some "Connection failed. Please try again."%string)
                st).
  assert (well_formed st0) as Hwf0 by (by apply setError_well_formed).
  assert (forall s, same_but_sessions st0 s -> well_formed s ->
                    torn_down st (finish_disconnect s)) as Hfin.
  { intros s Hsame Hs. apply (torn_down_same_refs st0); [done|].
    apply (resume_disconnect_tears_down st0 s 0 rejected Hsame Hs). }
  pose proof (onerror_cases st Hwf) as Hcases. simpl in Hcases. fold st0 in Hcases.
  unfold awaited_promise in Hnot.
  destruct (sessionPromiseRef (refs st)) as [sid|].
  - destruct Hcases as (s & Hs & Hcase). simpl in Hnot. rewrite Hs in Hnot.
    simpl in Hnot. destruct (promise s); [done| |]; rewrite Hcase.
    + apply Hfin; [apply same_but_sessions_set|].
      by apply close_session_well_formed.
    + apply Hfin; [repeat split | done].
  - rewrite Hcases. apply Hfin; [repeat split | done].
Qed.

(** The error callback when the session promise is pending: the rest of
    [disconnectSession] waits for it, and runs when it is settled. *)
Lemma onerror_pending (st : State) (sid : nat) (ok : bool) :
  well_formed st ->
  sessionPromiseRef (refs st) = Some sid ->
  awaited_promise st = Some pending ->
  let st1 := onerror st in
  let st2 := settle sid (if ok then fulfilled else rejected) st1 in
  awaiting_disconnect sid st1
  /\ torn_down st st2
  /\ length (sessions (browser st2)) = length (sessions (browser st))
  /\ error (ui st2) = Some "Connection failed. Please try again."%string.
Proof.
  intros Hwf Href Hpending st1 st2.
  set (st0 := setError (Some "Connection failed. Please try again."%string)
                st) in *.
  assert (well_formed st0) as Hwf0 by (by apply setError_well_formed).
  pose proof (onerror_cases st Hwf) as Hcases. simpl in Hcases.
  fold st0 in Hcases. rewrite Href in Hcases.
  destruct Hcases as (s & Hs & Hcase).
  unfold awaited_promise in Hpending. rewrite Href in Hpending.
  simpl in Hpending. rewrite Hs in Hpending. simpl in Hpending.
  injection Hpending as Hp. rewrite Hp in Hcase.
  assert (sid < length (sessions (browser st))) as Hlt
    by (eapply lookup_lt_Some; eauto).
  set (s1 := with_promise pending (reactions s ++ [ResumeDisconnect]) s)
    in *.
  assert (sessions (browser st1) !! sid = Some s1) as Hs1.
  { subst st1. rewrite Hcase. simpl. by apply list_lookup_insert_eq. }
  split.
  { exists s1. split; [done|]. split; [done|].
    simpl. apply elem_of_app. right. by left. }
  subst st2. unfold settle. rewrite Hs1. simpl.
  set (o := if ok then fulfilled else rejected).
  set (start := set_sessions _ st1).
  assert (same_but_sessions st0 start) as Hsame.
  { subst start st1. rewrite Hcase. repeat split. }
  assert (well_formed start) as Hstart.
  { subst start st1. rewrite Hcase.
    eapply well_formed_frame; [..|exact Hwf0]; simpl;
      rewrite ?length_insert; try reflexivity. apply advanced_refl. }
  split; [|split].
  - apply (torn_down_same_refs st0); [done|].
    apply fold_reactions_tear_down; try done.
    apply elem_of_app. right. by left.
  - destruct (fold_reactions_keep sid o (reactions s ++ [ResumeDisconnect])
                start) as [-> _].
    subst start st1. rewrite Hcase. simpl. by rewrite !length_insert.
  - destruct (fold_reactions_keep sid o (reactions s ++ [ResumeDisconnect])
                start) as [_ ->].
    subst start st1. rewrite Hcase. reflexivity.
Qed.





(** A set-up that throws, started from the set-up screen. *)
Lemma setup_failure (st stt : State) (env : SetupEnv) (e : JS.Error) :
  well_formed st ->
  isActive (ui st) = false ->
  isConnecting (ui st) = false ->
  connect_try API_KEY (render st) env
    (setError None (setIsConnecting true st)) = Thrown e stt ->
  let st1 := step API_KEY (ClickStart env) st in
  error (ui st1)
  = Some (JS.or_else (JS.message e) "Failed to start audio session.")
  /\ torn_down stt st1
  /\ length (sessions (browser st1)) = length (sessions (browser st)).
Proof.
  intros Hwf Hact Hcon Htry st1.
  assert (well_formed stt) as Hwft.
  { pose proof (connect_try_well_formed API_KEY (render st) env
                  (setError None (setIsConnecting true st))
                  (setError_well_formed _ _
                     (setIsConnecting_well_formed _ _ Hwf))) as H.
    by rewrite Htry in H. }
  destruct (connect_try_thrown API_KEY _ _ _ _ _ Htry) as [Hui Hses].
  subst st1. simpl. rewrite Hact, Hcon. simpl.
  unfold connectSession. simpl. rewrite Hcon, Htry.
  set (msg := JS.or_else (JS.message e) "Failed to start audio session.").
  rewrite cleanupAudio_closed_form.
  split; [reflexivity|]. split; [|simpl; by rewrite Hses].
  split.
  - constructor; simpl; try reflexivity.
    + intros h. destruct (animationFrameRef (refs stt)) as [[|h']|];
        intros Hh; congruence.
    + by rewrite Hui.
  - apply (released_same_browser stt (cleanupAudio (setError (Some msg) stt))).
    + rewrite cleanupAudio_closed_form. reflexivity.
    + apply (released_same_refs (setError (Some msg) stt)); [done|].
      by apply cleanupAudio_released, setError_well_formed.
Qed.


End ErrorFacts.

(** ** [LiveVoice]: starting a conversation *)

Section ConnectFacts.

Import LiveVoice LiveVoiceSpec.

Context (API_KEY : string) `{U : AudioUtils}.

(** C10. [connectSession] created by a render that saw the connecting flag
    set returns the state it was given: no session, no audio context, no
    state variable and no ref is touched. *)
Theorem connectSession_while_connecting (r : Render) (env : SetupEnv)
    (st : State) :
  r_isConnecting r = true ->
  connectSession API_KEY r env st = st.
Proof.
  intros Hconnecting. unfold connectSession. by rewrite Hconnecting.
Qed.

(** A set-up in which nothing throws. *)
Lemma connectSession_succeeds (r : Render) (st : State)
    (s_in s_out : ContextState) :
  JS.truthy API_KEY = true ->
  r_isConnecting r = false ->
  let env := {| new_input_context := Succeeds s_in;
                new_output_context := Succeeds s_out;
                getUserMedia := Succeeds tt |} in
  let st' := connectSession API_KEY r env st in
  sessions (browser st')
  = sessions (browser st)
    ++ [ {| config :=
              {| cfg_model :=
                   "gemini-2.5-flash-native-audio-preview-09-2025";
                 cfg_responseModalities := [AUDIO];
                 cfg_voiceName := "Zephyr";
                 cfg_systemInstruction := r_systemInstruction r |};
            callbacks_isMicOn := r_isMicOn r;
            promise := pending; reactions := []; sent := [];
            sessionClosed := false |} ]
  /\ sessionPromiseRef (refs st') = Some (length (sessions (browser st))).
Proof.
  intros Hkey Hcon env st'. subst st' env.
  unfold connectSession, connect_try. rewrite Hcon, Hkey. simpl.
  split; reflexivity.
Qed.

(** C8. On the set-up screen, with no connection under way: the text
    typed in the text area, followed by a click on the start button with a
    platform that grants everything, creates exactly one session, whose
    [systemInstruction] is that text, character for character. *)
Theorem systemInstruction_reaches_session (st : State) (value : string)
    (s_in s_out : ContextState) :
  JS.truthy API_KEY = true ->
  isActive (ui st) = false ->
  isConnecting (ui st) = false ->
  let env := {| new_input_context := Succeeds s_in;
                new_output_context := Succeeds s_out;
                getUserMedia := Succeeds tt |} in
  let st' := run API_KEY [ChangeInstruction value; ClickStart env] st in
  exists s,
    sessions (browser st') = sessions (browser st) ++ [s]
    /\ cfg_systemInstruction (config s) = value
    /\ sessionPromiseRef (refs st') = Some (length (sessions (browser st))).
Proof.
  intros Hkey Hact Hcon env st'. subst st'.
  unfold run. simpl. rewrite Hact. simpl. rewrite Hact, Hcon. simpl.
  destruct (connectSession_succeeds
              (render (setSystemInstruction value st))
              (setSystemInstruction value st) s_in s_out Hkey Hcon)
    as [Hses Href].
  eexists. split; [exact Hses|]. split; [reflexivity|exact Href].
Qed.

End ConnectFacts.

(** ** [LiveVoice]: the microphone *)

Section MicrophoneFacts.

Import LiveVoice LiveVoiceSpec.

Context (API_KEY : string) `{U : AudioUtils}.

Lemma promise_then_refs_ui (sid : nat) (media : Blob) (st : State) :
  refs (promise_then sid (SendRealtimeInput media) st) = refs st
  /\ ui (promise_then sid (SendRealtimeInput media) st) = ui st.
Proof.
  unfold promise_then.
  destruct (sessions (browser st) !! sid) as [s|]; [|done].
  by destruct (promise s).
Qed.

Lemma onaudioprocess_level (cl : AudioProcessClosure) (inputData : list R)
    (st : State) :
  captured_isMicOn cl = true ->
  currentVolumeRef (refs (onaudioprocess cl inputData st))
  = Volume.level inputData.
Proof.
  intros Hmic. unfold onaudioprocess. rewrite Hmic. simpl.
  by destruct (promise_then_refs_ui (captured_sessionPromise cl)
                 (createBlob inputData)
                 (set_currentVolumeRef (Volume.level inputData) st))
    as [-> _].
Qed.

(** C7, as the code has it. The microphone flag being on when the
    conversation was started and still on, and the block having [4 n]
    samples, [n > 0]: the level stored is the root mean square of every
    fourth sample, times 5, capped at 1.  One animation frame moves the
    displayed level by two tenths of its distance to the stored level.
    In every state the component can reach, both levels are in [0, 1]. *)
Theorem volume_meter (cl : AudioProcessClosure) (inputData : list R)
    (n : nat) (st : State) :
  reachable API_KEY st ->
  captured_isMicOn cl = true ->
  isMicOn (ui st) = true ->
  length inputData = 4 * n -> 0 < n ->
  (currentVolumeRef (refs (onaudioprocess cl inputData st))
   = Rmin (Volume.root_mean_square (Volume.every_fourth inputData) * 5) 1
   /\ currentVolumeRef (refs (onaudioprocess cl inputData st)) <= 1)%R
  /\ (visualVolume (ui (update st))
      = visualVolume (ui st)
        + 0.2 * (currentVolumeRef (refs st) - visualVolume (ui st)))%R
  /\ (0 <= visualVolume (ui st) <= 1)%R
  /\ (0 <= currentVolumeRef (refs st) <= 1)%R
  /\ (0 <= visualVolume (ui (update st)) <= 1)%R.
Proof.
  intros Hreach Hmic _ Hlen Hn.
  pose proof (reachable_well_formed API_KEY st Hreach) as Hwf.
  pose proof (onaudioprocess_level cl inputData st Hmic) as Hlevel.
  split; [|split; [|split; [|split]]].
  - rewrite Hlevel. split.
    + by apply (level_is_scaled_rms n).
    + apply level_range.
  - simpl. unfold Volume.smooth. lra.
  - apply (wf_visual st Hwf).
  - apply (wf_current st Hwf).
  - apply (wf_visual _ (update_well_formed st Hwf)).
Qed.

(** How the frames sent to a session grow with one reaction. *)
Lemma run_reaction_sent (sid : nat) (r : Reaction) (st : State) :
  sent_to sid (run_reaction sid fulfilled r st)
  = (fun frames => frames ++ sends_of [r]) <$> sent_to sid st.
Proof.
  unfold sent_to, run_reaction, finish_disconnect.
  destruct r as [media|]; rewrite ?cleanupAudio_closed_form;
    unfold sendRealtimeInput, close_session; simpl;
    rewrite list_lookup_alter_eq;
    destruct (sessions (browser st) !! sid) as [s|]; simpl;
    by rewrite ?app_nil_r.
Qed.

Lemma fold_reactions_sent (sid : nat) (q : list Reaction) (st : State) :
  sent_to sid (fold_left (fun st r => run_reaction sid fulfilled r st) q st)
  = (fun frames => frames ++ sends_of q) <$> sent_to sid st.
Proof.
  revert st. induction q as [|r q IH]; intros st.
  - simpl. destruct (sent_to sid st); simpl; by rewrite ?app_nil_r.
  - cbn [fold_left]. rewrite IH, run_reaction_sent.
    destruct (sent_to sid st) as [frames|]; simpl; [|done].
    unfold sends_of. simpl. by rewrite !app_nil_r, <- !app_assoc.
Qed.

Lemma run_reaction_promise (sid : nat) (outcome : PromiseState)
    (r : Reaction) (st : State) :
  promise_of sid (run_reaction sid outcome r st) = promise_of sid st.
Proof.
  unfold promise_of, run_reaction, finish_disconnect.
  destruct r as [media|], outcome; rewrite ?cleanupAudio_closed_form;
    unfold sendRealtimeInput, close_session; simpl;
    rewrite ?list_lookup_alter_eq;
    by destruct (sessions (browser st) !! sid) as [s|].
Qed.

Lemma fold_reactions_promise (sid : nat) (outcome : PromiseState)
    (q : list Reaction) (st : State) :
  promise_of sid
    (fold_left (fun st r => run_reaction sid outcome r st) q st)
  = promise_of sid st.
Proof.
  revert st. induction q as [|r q IH]; intros st; [done|].
  cbn [fold_left]. by rewrite IH, run_reaction_promise.
Qed.

(** One block while the promise is fulfilled: its frame is sent at once. *)
Lemma onaudioprocess_fulfilled (cl : AudioProcessClosure)
    (inputData : list R) (st : State) :
  captured_isMicOn cl = true ->
  promise_of (captured_sessionPromise cl) st = Some fulfilled ->
  let st' := onaudioprocess cl inputData st in
  sent_to (captured_sessionPromise cl) st'
  = (fun frames => frames ++ [createBlob inputData])
      <$> sent_to (captured_sessionPromise cl) st
  /\ promise_of (captured_sessionPromise cl) st' = Some fulfilled.
Proof.
  intros Hmic Hp st'. subst st'. unfold onaudioprocess. rewrite Hmic.
  simpl. unfold promise_then, promise_of, sent_to in *. simpl.
  destruct (sessions (browser st) !! captured_sessionPromise cl)
    as [s|] eqn:Hs; [|discriminate].
  injection Hp as Hp. rewrite Hp. simpl.
  rewrite list_lookup_alter_eq, Hs. simpl. by rewrite Hp.
Qed.

Lemma capture_cons (cl : AudioProcessClosure) (b : list R)
    (blocks : list (list R)) (st : State) :
  capture cl (b :: blocks) st = capture cl blocks (onaudioprocess cl b st).
Proof. reflexivity. Qed.

Lemma capture_fulfilled (cl : AudioProcessClosure) (blocks : list (list R))
    (st : State) :
  captured_isMicOn cl = true ->
  promise_of (captured_sessionPromise cl) st = Some fulfilled ->
  sent_to (captured_sessionPromise cl) (capture cl blocks st)
  = (fun frames => frames ++ map createBlob blocks)
      <$> sent_to (captured_sessionPromise cl) st.
Proof.
  intros Hmic. revert st.
  induction blocks as [|b blocks IH]; intros st Hp.
  - simpl. destruct (sent_to _ st); simpl; by rewrite ?app_nil_r.
  - rewrite capture_cons.
    destruct (onaudioprocess_fulfilled cl b st Hmic Hp) as [Hsent Hp'].
    rewrite (IH _ Hp'), Hsent.
    destruct (sent_to _ st); simpl; [|done]. by rewrite <- app_assoc.
Qed.

(** Blocks while the promise is pending: their frames queue up behind
    what was waiting already, and nothing is sent. *)
Lemma capture_pending (cl : AudioProcessClosure) (blocks : list (list R))
    (st : State) (s : Session) :
  captured_isMicOn cl = true ->
  sessions (browser st) !! captured_sessionPromise cl = Some s ->
  promise s = pending ->
  sessions (browser (capture cl blocks st)) !! captured_sessionPromise cl
  = Some (with_promise pending
            (reactions s
             ++ map (fun b => SendRealtimeInput (createBlob b)) blocks) s).
Proof.
  intros Hmic. revert st s.
  induction blocks as [|b blocks IH]; intros st s Hs Hp.
  - simpl. rewrite app_nil_r, Hs. f_equal.
    destruct s; simpl in *; by subst.
  - rewrite capture_cons.
    rewrite (IH _ (with_promise pending
                     (reactions s ++ [SendRealtimeInput (createBlob b)]) s)).
    + f_equal. simpl. by rewrite <- app_assoc.
    + unfold onaudioprocess. rewrite Hmic. simpl.
      unfold promise_then. simpl. rewrite Hs, Hp. simpl.
      apply list_lookup_insert_eq. eapply lookup_lt_Some; eauto.
    + reflexivity.
Qed.

(** C6, as the code has it. The microphone flag being on when the
    conversation was started and still on, blocks [before] captured while
    the session promise is pending and blocks [after] captured once it is
    fulfilled: nothing is sent while the promise is pending, and in the end
    the session has received, after what it had, the frames that were
    waiting and then one frame per block, [createBlob] of its samples, in
    the order the blocks were captured.  With the promise fulfilled from
    the start, each block is sent as it is captured, in that order. *)
Theorem frames_forwarded_in_order (cl : AudioProcessClosure)
    (before after : list (list R)) (st : State) (s : Session) :
  captured_isMicOn cl = true ->
  isMicOn (ui st) = true ->
  sessions (browser st) !! captured_sessionPromise cl = Some s ->
  let sid := captured_sessionPromise cl in
  match promise s with
  | pending =>
      let st1 := capture cl before st in
      let st2 := settle sid fulfilled st1 in
      let st3 := capture cl after st2 in
      sent_to sid st1 = Some (sent s)
      /\ sent_to sid st3
         = Some (sent s ++ sends_of (reactions s)
                 ++ map createBlob (before ++ after))
  | fulfilled =>
      sent_to sid (capture cl (before ++ after) st)
      = Some (sent s ++ map createBlob (before ++ after))
  | rejected => True
  end.
Proof.
  intros Hmic _ Hs sid. subst sid. destruct (promise s) eqn:Hp; [| |done].
  - pose proof (capture_pending cl before st s Hmic Hs Hp) as Hs1.
    split.
    { unfold sent_to. by rewrite Hs1. }
    set (st1 := capture cl before st) in *.
    unfold settle. rewrite Hs1. simpl.
    set (start := set_sessions _ st1).
    assert (sent_to (captured_sessionPromise cl) start = Some (sent s)) as Hstart.
    { subst start. unfold sent_to. simpl.
      rewrite list_lookup_insert_eq by (eapply lookup_lt_Some; eauto).
      reflexivity. }
    assert (promise_of (captured_sessionPromise cl) start = Some fulfilled) as Hpstart.
    { subst start. unfold promise_of. simpl.
      rewrite list_lookup_insert_eq by (eapply lookup_lt_Some; eauto).
      reflexivity. }
    rewrite capture_fulfilled; [|done|by rewrite fold_reactions_promise].
    rewrite fold_reactions_sent, Hstart. simpl. f_equal.
    rewrite map_app, <- !app_assoc. f_equal.
    unfold sends_of. rewrite flat_map_app, <- app_assoc. do 2 f_equal.
    clear. induction before as [|b before IH]; simpl; [done|].
    by rewrite IH.
  - rewrite capture_fulfilled;
      [|done|unfold promise_of; rewrite Hs; simpl; by rewrite Hp].
    unfold sent_to. by rewrite Hs.
Qed.

End MicrophoneFacts.

(** ** [LiveVoice]: the examples *)

Section Examples.

Import LiveVoice LiveVoiceSpec.

Lemma every_fourth_repeat (x : R) (n : nat) :
  Volume.every_fourth (repeat x (4 * n)) = repeat x n.
Proof.
  induction n as [|n IH]; [reflexivity|].
  replace (4 * S n) with (S (S (S (S (4 * n))))) by lia.
  simpl. f_equal. exact IH.
Qed.

Lemma sum_of_squares_ones (n : nat) :
  Volume.sum_of_squares (repeat 1%R n) = INR n.
Proof.
  induction n as [|n IH]; [reflexivity|].
  rewrite S_INR. simpl. rewrite IH. lra.
Qed.

(** A non-empty block at full scale saturates the meter. *)
Lemma level_full_scale (n : nat) :
  0 < n -> Volume.level (repeat 1%R (4 * n)) = 1%R.
Proof.
  intros Hn. rewrite (level_is_scaled_rms n) by apply repeat_length.
  unfold Volume.root_mean_square.
  rewrite every_fourth_repeat, sum_of_squares_ones, repeat_length.
  replace (INR n / INR n)%R with 1%R.
  - rewrite sqrt_1. apply Rmin_right. lra.
  - field. apply not_0_INR. lia.
Qed.

Lemma loud_level : Volume.level Samples.loud = 1%R.
Proof. apply (level_full_scale 1024). lia. Qed.

Lemma talking_reachable :
  reachable (H := Samples.utils) Samples.key Samples.talking.
Proof. apply reachable_run. constructor. Qed.

Lemma muted_restart_reachable :
  reachable (H := Samples.utils) Samples.key Samples.muted_restart.
Proof. apply reachable_run, talking_reachable. Qed.

(** C4, on the code. A conversation is started with the microphone on and
    the session opens; the user mutes; the next block of the script
    processor is still turned into a frame and sent, and the level is that
    of the block, not zero: the callback tests the [isMicOn] of the render
    in which the conversation was started. *)
Theorem muted_microphone_still_forwards :
  let muted := step (H := Samples.utils) Samples.key ClickMic Samples.talking in
  let st' :=
    step (H := Samples.utils) Samples.key (AudioProcess 2 Samples.loud)
      muted in
  isMicOn (ui muted) = false
  /\ sent_to 0 muted = Some []
  /\ sent_to 0 st' = Some [createBlob (AudioUtils := Samples.utils) Samples.loud]
  /\ currentVolumeRef (refs st') = 1%R.
Proof.
  intros muted st'.
  assert (st' = onaudioprocess (H := Samples.utils)
                  {| captured_isMicOn := true; captured_sessionPromise := 0 |}
                  Samples.loud muted) as Hst'.
  { reflexivity. }
  split; [reflexivity|]. split; [reflexivity|]. split.
  - rewrite Hst'.
    destruct (onaudioprocess_fulfilled (U := Samples.utils)
                {| captured_isMicOn := true; captured_sessionPromise := 0 |}
                Samples.loud muted eq_refl eq_refl) as [Hsent _].
    cbn [captured_sessionPromise] in Hsent. rewrite Hsent.
    reflexivity.
  - rewrite Hst', onaudioprocess_level by reflexivity. apply loud_level.
Qed.

(** C6, as stated, fails. The user mutes, ends the conversation and
    starts another one: the new session is open and a block is captured,
    and no frame is forwarded. *)
Lemma muted_start_forwards_nothing :
  let st := Samples.muted_restart in
  let st' :=
    step (H := Samples.utils) Samples.key (AudioProcess 5 Samples.loud) st in
  isActive (ui st) = true
  /\ promise_of 1 st = Some fulfilled
  /\ sessionClosed <$> sessions (browser st) !! 1 = Some false
  /\ sent_to 1 st' = Some []
  /\ sent_to 1 st'
     <> Some [createBlob (AudioUtils := Samples.utils) Samples.loud].
Proof.
  intros st st'.
  assert (st' = set_currentVolumeRef 0%R st) as -> by reflexivity.
  repeat split; try reflexivity. discriminate.
Qed.

(** C7, as stated, fails. In the same conversation, started muted, the
    block at full scale leaves the stored level at 0, while the root mean
    square of its every fourth sample, times 5 and capped, is 1. *)
Lemma muted_start_meter_reads_zero :
  let st' :=
    step (H := Samples.utils) Samples.key (AudioProcess 5 Samples.loud)
      Samples.muted_restart in
  currentVolumeRef (refs st') = 0%R
  /\ Rmin (Volume.root_mean_square (Volume.every_fourth Samples.loud) * 5) 1
     = 1%R
  /\ currentVolumeRef (refs st')
     <> Rmin (Volume.root_mean_square (Volume.every_fourth Samples.loud) * 5)
          1.
Proof.
  intros st'.
  assert (st' = set_currentVolumeRef 0%R Samples.muted_restart) as ->
    by reflexivity.
  assert (Rmin (Volume.root_mean_square
                  (Volume.every_fourth Samples.loud) * 5) 1 = 1%R) as Hrms.
  { rewrite <- (level_is_scaled_rms 1024) by reflexivity.
    apply loud_level. }
  split; [reflexivity|]. split; [exact Hrms|].
  rewrite Hrms. simpl. lra.
Qed.

(** An instance: a started conversation and two audio messages. *)
Lemma audio_played_in_arrival_order_witness :
  let st :=
    run (H := Samples.utils) Samples.key [ClickStart Samples.granted]
      initial in
  let arrivals :=
    [(0%R, Samples.audio "AAAA"); (1%R, Samples.audio "BB")] in
  outputAudioContextRef (refs st) = Some 1
  /\ outputNodeRef (refs st) = Some 0
  /\ Forall (fun a => is_audio (snd a) = true) arrivals
  /\ Forall (fun a => flagged_interrupted (snd a) = false) arrivals
  /\ nextStartTimeRef (refs (receive (H := Samples.utils) arrivals st))
     = schedule_end (nextStartTimeRef (refs st))
         (timing (H := Samples.utils) 1 arrivals).
Proof.
  intros st arrivals.
  assert (outputAudioContextRef (refs st) = Some 1) as H1 by reflexivity.
  assert (outputNodeRef (refs st) = Some 0) as H2 by reflexivity.
  assert (Forall (fun a => is_audio (snd a) = true) arrivals) as H3
    by (repeat constructor).
  assert (Forall (fun a => flagged_interrupted (snd a) = false) arrivals)
    as H4 by (repeat constructor).
  split; [exact H1|]. split; [exact H2|]. split; [exact H3|].
  split; [exact H4|].
  exact (proj1 (proj2 (proj2
    (audio_played_in_arrival_order (U := Samples.utils) st 1 0 arrivals
       H1 H2 H3 H4)))).
Defined.

(** C1, as stated, fails. A first audio message that also carries the
    interruption flag, then a second audio message one second later: the
    first buffer, of 4 s, is stopped as soon as it is started and the next
    start time is reset to 0, so the second buffer starts at 1 s, not at
    the end of the first one (4 s), and the next start time ends at 3 s,
    not at 6 s. *)
Lemma interrupted_audio_resets_schedule :
  let st :=
    run (H := Samples.utils) Samples.key [ClickStart Samples.granted]
      initial in
  let arrivals :=
    [(0%R, Samples.interrupted_audio "AAAA"); (1%R, Samples.audio "BB")] in
  let st' := receive (H := Samples.utils) arrivals st in
  outputAudioContextRef (refs st) = Some 1
  /\ outputNodeRef (refs st) = Some 0
  /\ Forall (fun a => is_audio (snd a) = true) arrivals
  /\ fst <$> schedule (nextStartTimeRef (refs st))
               (timing (H := Samples.utils) 1 arrivals)
     = [0%R; 4%R]
  /\ startedAt <$> bufferSources (browser st') = [Some 0%R; Some 1%R]
  /\ stopped <$> bufferSources (browser st') = [true; false]
  /\ schedule_end (nextStartTimeRef (refs st))
       (timing (H := Samples.utils) 1 arrivals) = 6%R
  /\ nextStartTimeRef (refs st') = 3%R
  /\ nextStartTimeRef (refs st')
     <> schedule_end (nextStartTimeRef (refs st))
          (timing (H := Samples.utils) 1 arrivals).
Proof.
  intros st arrivals st'.
  assert (Rmax 0 0 = 0%R) as H00 by (apply Rmax_left; lra).
  assert (Rmax 0 1 = 1%R) as H01 by (apply Rmax_right; lra).
  assert (INR 4 = 4%R) as H4 by (simpl; lra).
  assert (INR 2 = 2%R) as H2 by (simpl; lra).
  assert (Rmax (0 + 4) 1 = 4%R) as H41 by (rewrite Rmax_left; lra).
  assert (fst <$> schedule (nextStartTimeRef (refs st))
                    (timing (H := Samples.utils) 1 arrivals)
          = [Rmax 0 0; Rmax (Rmax 0 0 + INR 4) 1]) as Hplan by reflexivity.
  assert (startedAt <$> bufferSources (browser st')
          = [Some (Rmax 0 0); Some (Rmax 0 1)]) as Hstarts by reflexivity.
  assert (schedule_end (nextStartTimeRef (refs st))
            (timing (H := Samples.utils) 1 arrivals)
          = (Rmax (Rmax 0 0 + INR 4) 1 + INR 2)%R) as Hend by reflexivity.
  assert (nextStartTimeRef (refs st') = (Rmax 0 1 + INR 2)%R) as Hnext
    by reflexivity.
  rewrite Hplan, Hstarts, Hend, Hnext, H00, H4, H2, H41, H01.
  split; [reflexivity|]. split; [reflexivity|].
  split; [repeat constructor|]. split; [reflexivity|].
  split; [reflexivity|]. split; [reflexivity|].
  split; [lra|]. split; [lra|]. lra.
Qed.

(** Two buffers of 4 s and 2 s arriving at 0 s and 1 s: the second one
    starts when the first one ends. *)
Example two_buffers_back_to_back :
  let st :=
    run (H := Samples.utils) Samples.key [ClickStart Samples.granted]
      initial in
  let st' :=
    receive (H := Samples.utils)
      [(0%R, Samples.audio "AAAA"); (1%R, Samples.audio "BB")] st in
  startedAt <$> bufferSources (browser st') = [Some 0%R; Some 4%R]
  /\ nextStartTimeRef (refs st') = 6%R
  /\ sourcesRef (refs st') = {[ 0; 1 ]}.
Proof.
  intros st st'.
  assert (startedAt <$> bufferSources (browser st')
          = [Some (Rmax 0 0); Some (Rmax (Rmax 0 0 + INR 4) 1)]) as ->
    by reflexivity.
  assert (nextStartTimeRef (refs st')
          = (Rmax (Rmax 0 0 + INR 4) 1 + INR 2)%R) as -> by reflexivity.
  assert (Rmax 0 0 = 0%R) as -> by (apply Rmax_left; lra).
  assert (INR 4 = 4%R) as -> by (simpl; lra).
  assert (INR 2 = 2%R) as -> by (simpl; lra).
  assert (Rmax (0 + 4) 1 = 4%R) as -> by (rewrite Rmax_left; lra).
  split; [reflexivity|]. split; [lra|].
  apply set_eq. intros x. vm_compute. tauto.
Qed.

(** An instance: a buffer is playing when the interruption arrives. *)
Lemma interruption_stops_playback_witness :
  let st :=
    step (H := Samples.utils) Samples.key
      (SessionMessage 0 0%R (Samples.audio "AAAA")) Samples.talking in
  reachable (H := Samples.utils) Samples.key st
  /\ flagged_interrupted Samples.interruption = true
  /\ 0 ∈ sourcesRef (refs st)
  /\ is_stopped 0
       (onmessage (H := Samples.utils) 2%R Samples.interruption st).
Proof.
  intros st.
  assert (reachable (H := Samples.utils) Samples.key st) as H1
    by (constructor; apply talking_reachable).
  assert (flagged_interrupted Samples.interruption = true) as H2
    by reflexivity.
  assert (0 ∈ sourcesRef (refs st)) as H3 by (vm_compute; reflexivity).
  split; [exact H1|]. split; [exact H2|]. split; [exact H3|].
  exact (proj1
    (interruption_stops_playback Samples.key (U := Samples.utils) st 2%R
       Samples.interruption H1 H2) 0 (or_introl H3)).
Defined.


(** The three cases of C3 occur: a session that is open, one whose
    promise is still pending, and a set-up the user refuses. *)
Example error_while_open :
  torn_down Samples.talking (onerror Samples.talking).
Proof.
  apply onerror_settled.
  - apply (reachable_well_formed Samples.key (U := Samples.utils)),
      talking_reachable.
  - discriminate.
Qed.

Example error_while_pending :
  let st :=
    run (H := Samples.utils) Samples.key [ClickStart Samples.granted]
      initial in
  awaited_promise st = Some pending
  /\ isConnecting (ui (onerror st)) = true
  /\ torn_down st (settle 0 rejected (onerror st)).
Proof.
  intros st. split; [reflexivity|]. split; [reflexivity|].
  apply (onerror_pending st 0 false); try reflexivity.
  apply (reachable_well_formed Samples.key (U := Samples.utils)).
  apply reachable_run. constructor.
Qed.


Example setup_denied :
  let st1 :=
    step (H := Samples.utils) Samples.key (ClickStart Samples.denied)
      initial in
  error (ui st1) = Some "Permission denied"%string
  /\ idle st1
  /\ is_closed 0 st1 /\ is_closed 1 st1
  /\ sessions (browser st1) = [].
Proof.
  intros st1.
  destruct (setup_failure Samples.key (U := Samples.utils) initial
              (set_outputNodeRef (Some 0)
                 (connect 0 (ToContextDestination 1)
                    (snd (createGain 1
                       (set_outputAudioContextRef (Some 1)
                          (snd (new_AudioContext 24000 running
                             (set_inputAudioContextRef (Some 0)
                                (snd (new_AudioContext 16000 running
                                   (set_aiRef (Some {| apiKey := Samples.key |})
                                      (setError None
                                         (setIsConnecting true
                                            initial)))))))))))))
              Samples.denied
              {| JS.message := Some "Permission denied"%string |}
              initial_well_formed eq_refl eq_refl eq_refl)
    as (Herr & [Hidle Hrel] & Hlen).
  split; [exact Herr|]. split; [exact Hidle|].
  split; [apply (rel_input _ _ Hrel); reflexivity|].
  split; [apply (rel_output _ _ Hrel); reflexivity|].
  fold st1 in Hlen. destruct (sessions (browser st1)); [done|discriminate].
Qed.

(** An instance: one block before the promise is fulfilled, one after. *)
Lemma frames_forwarded_in_order_witness :
  let st :=
    run (H := Samples.utils) Samples.key
      [ClickStart Samples.granted; SessionOpen 0] initial in
  let cl := {| captured_isMicOn := true; captured_sessionPromise := 0 |} in
  isMicOn (ui st) = true
  /\ promise_of 0 st = Some pending
  /\ sent_to 0
       (capture (H := Samples.utils) cl [Samples.loud]
          (settle 0 fulfilled
             (capture (H := Samples.utils) cl [Samples.loud] st)))
     = Some [createBlob (AudioUtils := Samples.utils) Samples.loud;
             createBlob (AudioUtils := Samples.utils) Samples.loud].
Proof.
  intros st cl.
  split; [reflexivity|]. split; [reflexivity|].
  exact (proj2
    (frames_forwarded_in_order (U := Samples.utils) cl [Samples.loud]
       [Samples.loud] st
       {| config :=
            {| cfg_model := "gemini-2.5-flash-native-audio-preview-09-2025";
               cfg_responseModalities := [AUDIO];
               cfg_voiceName := "Zephyr";
               cfg_systemInstruction := systemInstruction (ui initial) |};
          callbacks_isMicOn := true; promise := pending; reactions := [];
          sent := []; sessionClosed := false |}
       eq_refl eq_refl eq_refl)).
Defined.

(** An instance: a block at full scale in an open conversation. *)
Lemma volume_meter_witness :
  reachable (H := Samples.utils) Samples.key Samples.talking
  /\ isMicOn (ui Samples.talking) = true
  /\ length Samples.loud = 4 * 1024
  /\ (currentVolumeRef
        (refs (onaudioprocess (H := Samples.utils)
                 {| captured_isMicOn := true; captured_sessionPromise := 0 |}
                 Samples.loud Samples.talking)) <= 1)%R.
Proof.
  assert (length Samples.loud = 4 * 1024) as Hlen by reflexivity.
  split; [exact talking_reachable|]. split; [reflexivity|].
  split; [exact Hlen|].
  exact (proj2 (proj1
    (volume_meter Samples.key (U := Samples.utils)
       {| captured_isMicOn := true; captured_sessionPromise := 0 |}
       Samples.loud 1024 Samples.talking talking_reachable eq_refl eq_refl
       Hlen (Nat.lt_0_succ 1023)))).
Defined.

(** An instance: a prompt typed on the first screen. *)
Lemma systemInstruction_reaches_session_witness :
  exists s,
    sessions (browser
      (run (H := Samples.utils) Samples.key
         [ChangeInstruction "You are a pirate.";
          ClickStart Samples.granted] initial)) = [s]
    /\ cfg_systemInstruction (config s) = "You are a pirate."%string.
Proof.
  destruct (systemInstruction_reaches_session Samples.key
              (U := Samples.utils) initial "You are a pirate."
              running running eq_refl eq_refl eq_refl) as (s & Hs & Hv & _).
  exists s. split; [exact Hs | exact Hv].
Defined.

(** An instance: a second call from a render that is connecting. *)
Lemma connectSession_while_connecting_witness :
  let r := {| r_isConnecting := true; r_isMicOn := true;
              r_systemInstruction := "x" |} in
  r_isConnecting r = true
  /\ connectSession Samples.key r Samples.granted initial = initial.
Proof.
  intros r. split; [reflexivity|].
  exact (connectSession_while_connecting Samples.key r Samples.granted
           initial eq_refl).
Defined.

End Examples.

(** ** [ChatInterface] *)

Section ChatFacts.

Import ChatInterface.

Lemma append_cons (c : ascii) (a b : string) :
  (String c a ++ b)%string = String c (a ++ b)%string.
Proof. reflexivity. Qed.

Lemma append_empty_r (a : string) : (a ++ EmptyString)%string = a.
Proof.
  induction a as [|c a IH]; [reflexivity|]. by rewrite append_cons, IH.
Qed.

Lemma append_assoc (a b c : string) :
  ((a ++ b) ++ c)%string = (a ++ (b ++ c))%string.
Proof.
  induction a as [|x a IH]; [reflexivity|].
  by rewrite !append_cons, IH.
Qed.

Lemma with_text_with_text (t t' : string) (m : ChatMessage) :
  with_text t (with_text t' m) = with_text t m.
Proof. reflexivity. Qed.

(** [map_id] on a list whose last message has the key. *)
Lemma last_map_id (key : string) (f : ChatMessage -> ChatMessage)
    (l : list ChatMessage) (b : ChatMessage) :
  last l = Some b -> id b = key ->
  last (map_id key f l) = Some (f b).
Proof.
  intros Hlast Hid. unfold map_id.
  change (map ?g l) with (g <$> l). rewrite fmap_last, Hlast. simpl.
  by rewrite Hid, String.eqb_refl.
Qed.

Lemma length_map_id (key : string) (f : ChatMessage -> ChatMessage)
    (l : list ChatMessage) :
  length (map_id key f l) = length l.
Proof. apply length_map. Qed.

Lemma consume_cons (key : string) (c : GenerateContentResponse)
    (cs : list GenerateContentResponse) (acc : string * State) :
  consume key (c :: cs) acc = consume key cs (on_chunk key c acc).
Proof. reflexivity. Qed.

(** The loop over the stream: the accumulated text grows by the texts of
    the chunks in arrival order, and the placeholder shows it. *)
Lemma consume_placeholder (key : string) (cs : list GenerateContentResponse)
    (fullText : string) (st : State) (b : ChatMessage) :
  id b = key ->
  placeholder st = Some (with_text fullText b) ->
  let result := consume key cs (fullText, st) in
  fst result = (fullText ++ joined cs)%string
  /\ placeholder (snd result) = Some (with_text (fst result) b)
  /\ length (messages (snd result)) = length (messages st)
  /\ isLoading (snd result) = isLoading st
  /\ chatRef (snd result) = chatRef st
  /\ input (snd result) = input st.
Proof.
  intros Hid. revert fullText st.
  induction cs as [|c cs IH]; intros fullText st Hlast.
  - simpl. rewrite append_empty_r. by rewrite Hlast.
  - rewrite consume_cons. unfold on_chunk. cbn [joined fold_right].
    destruct (chunk_text c) as [t|]; cbn [default].
    + destruct (JS.truthy t) eqn:Htruthy.
      * specialize (IH (fullText ++ t)%string
                      (setMessages
                         (map_id key (with_text (fullText ++ t)%string)
                            (messages st)) st)).
        destruct IH as (H1 & H2 & H3 & H4 & H5 & H6).
        { unfold placeholder in *. simpl.
          by rewrite (last_map_id key _ _ _ Hlast Hid). }
        rewrite H1, H3, H4, H5, H6, <- append_assoc. repeat split; try done.
        -- rewrite H2. by rewrite H1.
        -- simpl. apply length_map_id.
      * destruct t; [|discriminate].
        specialize (IH fullText st Hlast). exact IH.
    + specialize (IH fullText st Hlast). exact IH.
Qed.

Lemma rejected_false (r : Render) (st : State) :
  rejected r st = false ->
  JS.truthy (JS.trim (r_input r)) = true
  /\ (exists c, chatRef st = Some c)
  /\ r_isLoading r = false.
Proof.
  unfold rejected. intros H.
  apply orb_false_elim in H as [H Hloading].
  apply orb_false_elim in H as [Hinput Hchat].
  apply negb_false_iff in Hinput. apply negb_false_iff in Hchat.
  apply bool_decide_eq_true in Hchat as [c Hc]. eauto.
Qed.

(** The state when the request has been made and no chunk has arrived. *)
Lemma requested (r : Render) (clock : Clock) (st : State) (c : Chat) :
  chatRef st = Some c ->
  let st0 :=
    sendMessageStream (text (userMessage r clock)) (submit r clock st) in
  messages st0 = messages st ++ [userMessage r clock; tempBotMessage clock]
  /\ placeholder st0 = Some (with_text EmptyString (tempBotMessage clock))
  /\ isLoading st0 = true
  /\ chatRef st0
     = Some {| chat_model := chat_model c;
               requests := requests c ++ [r_input r] |}.
Proof.
  intros Hc st0. subst st0. unfold sendMessageStream, submit. simpl.
  rewrite Hc. simpl. unfold placeholder. simpl.
  repeat split. by rewrite last_app_cons.
Qed.

(** C9, as the code has it. A submission that passes the guard of
    [handleSubmit] (the input is not blank, the chat exists, no request is
    loading): a user message with the input and a streaming placeholder of
    the model are appended; while the chunks arrive, the placeholder, last
    in the list, shows the texts of the chunks so far joined in arrival
    order, and the loading flag is set; at the end the list is two
    messages longer than before, the loading flag is cleared, the
    placeholder has stopped streaming and shows the whole text, or the
    error text if the stream failed; and the chat has received exactly one
    request, with the input. *)
Theorem accepted_submission (r : Render) (clock : Clock) (s : Stream)
    (st : State) :
  rejected r st = false ->
  (messages (submit r clock st)
   = messages st ++ [userMessage r clock; tempBotMessage clock]
   /\ role (userMessage r clock) = user
   /\ text (userMessage r clock) = r_input r
   /\ role (tempBotMessage clock) = model
   /\ isStreaming (tempBotMessage clock) = Some true)
  /\ (forall n,
        let mid := streaming r clock s n st in
        placeholder mid
        = Some (with_text (joined (take n (chunks s)))
                  (tempBotMessage clock))
        /\ length (messages mid) = length (messages st) + 2
        /\ isLoading mid = true)
  /\ (let final := handleSubmit r clock s st in
      length (messages final) = length (messages st) + 2
      /\ isLoading final = false
      /\ placeholder final
         = Some (with_isStreaming false
                   (with_text
                      match failure s with
                      | None => joined (chunks s)
                      | Some e => failure_text e
                      end (tempBotMessage clock)))
      /\ exists c,
           chatRef st = Some c
           /\ chatRef final
              = Some {| chat_model := chat_model c;
                        requests := requests c ++ [r_input r] |}).
Proof.
  intros Hguard.
  destruct (rejected_false r st Hguard) as (_ & [c Hc] & _).
  destruct (requested r clock st c Hc) as (Hmsgs & Hlast & Hload & Hchat).
  set (st0 := sendMessageStream (text (userMessage r clock))
                (submit r clock st)) in *.
  split; [by repeat split|]. split.
  - intros n mid. subst mid. unfold streaming. fold st0.
    destruct (consume_placeholder (tempBotMessageId clock)
                (take n (chunks s)) EmptyString st0 (tempBotMessage clock)
                eq_refl Hlast) as (H1 & H2 & H3 & H4 & _).
    rewrite H2, H1, H3, H4, Hmsgs, Hload, length_app. simpl.
    repeat split.
  - intros final. subst final. unfold handleSubmit. rewrite Hguard.
    fold st0.
    destruct (consume_placeholder (tempBotMessageId clock) (chunks s)
                EmptyString st0 (tempBotMessage clock) eq_refl Hlast)
      as (H1 & H2 & H3 & H4 & H5 & _).
    destruct (consume (tempBotMessageId clock) (chunks s)
                (EmptyString, st0)) as [fullText st1].
    simpl in H1, H2, H3, H4, H5. subst fullText.
    destruct (failure s) as [e|]; simpl;
      rewrite length_map_id, H3, Hmsgs, length_app; simpl;
      (split; [lia|]); (split; [done|]);
      (split; [|exists c; split; [done|by rewrite H5]]);
      unfold placeholder in *; simpl;
      by rewrite (last_map_id _ _ _ _ H2 eq_refl).
Qed.

(** C9, as stated, fails. No API key in the environment, so no chat: the
    user types a message and submits it, and no message is appended. *)
Lemma submission_without_chat_is_dropped :
  let config := {| modelName := "gemini"; displayName := "Gemini";
                   description := "chat"; color := blue |} in
  let st := setInput "hi" (initialize None config initial) in
  let clock := {| now_user := 1000; date_user := 1000; now_bot := 1000;
                  date_bot := 1000 |} in
  let s := {| chunks := [ {| chunk_text := Some "hello"%string |} ];
              failure := None |} in
  JS.truthy (JS.trim (input st)) = true
  /\ isLoading st = false
  /\ handleSubmit (render st) clock s st = st
  /\ messages (handleSubmit (render st) clock s st) = []
  /\ length (messages (handleSubmit (render st) clock s st))
     <> length (messages st) + 2.
Proof. repeat split. discriminate. Qed.

(** An instance: a reply streamed in three chunks. *)
Lemma accepted_submission_witness :
  let config := {| modelName := "gemini"; displayName := "Gemini";
                   description := "chat"; color := blue |} in
  let st := setInput "hi" (initialize (Some "key"%string) config initial) in
  let clock := {| now_user := 1000; date_user := 1000; now_bot := 1000;
                  date_bot := 1000 |} in
  let s := {| chunks := [ {| chunk_text := Some "hel"%string |};
                          {| chunk_text := None |};
                          {| chunk_text := Some "lo"%string |} ];
              failure := None |} in
  rejected (render st) st = false
  /\ length (messages (handleSubmit (render st) clock s st)) = 2
  /\ isLoading (handleSubmit (render st) clock s st) = false.
Proof.
  intros config st clock s.
  assert (rejected (render st) st = false) as Hguard by reflexivity.
  split; [exact Hguard|].
  destruct (accepted_submission (render st) clock s st Hguard)
    as (_ & _ & Hlen & Hload & _).
  split; [exact Hlen | exact Hload].
Defined.

Example streamed_reply :
  let config := {| modelName := "gemini"; displayName := "Gemini";
                   description := "chat"; color := blue |} in
  let st := setInput "hi" (initialize (Some "key"%string) config initial) in
  let clock := {| now_user := 1000; date_user := 1000; now_bot := 1000;
                  date_bot := 1000 |} in
  let s := {| chunks := [ {| chunk_text := Some "hel"%string |};
                          {| chunk_text := None |};
                          {| chunk_text := Some "lo"%string |} ];
              failure := None |} in
  text <$> messages (handleSubmit (render st) clock s st)
  = ["hi"; "hello"]%string
  /\ id <$> messages (handleSubmit (render st) clock s st)
     = ["1000"; "1001"]%string.
Proof. split; reflexivity. Qed.

Example failed_reply :
  let config := {| modelName := "gemini"; displayName := "Gemini";
                   description := "chat"; color := blue |} in
  let st := setInput "hi" (initialize (Some "key"%string) config initial) in
  let clock := {| now_user := 1000; date_user := 1000; now_bot := 1000;
                  date_bot := 1000 |} in
  let s := {| chunks := [ {| chunk_text := Some "hel"%string |} ];
              failure := Some {| JS.message := Some "quota"%string |} |} in
  text <$> messages (handleSubmit (render st) clock s st)
  = ["hi"; "Error: quota"]%string
  /\ isStreaming <$> messages (handleSubmit (render st) clock s st)
     = [None; Some false]
  /\ (requests <$> chatRef (handleSubmit (render st) clock s st))
     = Some ["hi"%string].
Proof. repeat split. Qed.

End ChatFacts.

(** ** [App] *)

Section AppFacts.

Import App.

(** C5, as stated, fails: the chat panel is not on the page. *)
Lemma chat_panel_not_mounted : CChatInterface ∉ mounted.
Proof.
  unfold mounted. simpl. intros Hin.
  repeat (apply elem_of_cons in Hin as [Hin|Hin]; [discriminate|]).
  by apply elem_of_nil in Hin.
Qed.

(** C5, as the code has it. The page is [App] and the voice interface it
    renders, and nothing else: a component of the repository is on the
    page exactly when it is one of these two. *)
Theorem page_is_voice_interface (c : Component) :
  mounted = [CApp; CLiveVoice]
  /\ (c ∈ mounted <-> c = CApp \/ c = CLiveVoice)
  /\ renders CChatInterface = [].
Proof.
  split; [reflexivity|]. split; [|reflexivity].
  unfold mounted. simpl. rewrite !elem_of_cons, elem_of_nil. tauto.
Qed.

End AppFacts.


(** ** [LiveVoice]: more about teardown *)

Section TeardownMore.

Import LiveVoice LiveVoiceSpec.

Context (API_KEY : string) `{U : AudioUtils}.

Lemma at_ref_idempotent {A} (f : A -> A) (ref : option nat)
    (store : list A) :
  (forall x, f (f x) = f x) ->
  at_ref f ref (at_ref f ref store) = at_ref f ref store.
Proof.
  intros Hf. destruct ref as [i|]; simpl; [|done].
  rewrite list_alter_alter_eq. apply list_alter_ext; [|done].
  intros x _. apply Hf.
Qed.

Lemma at_ref_comm {A} (f : A -> A) (r1 r2 : option nat) (store : list A) :
  at_ref f r1 (at_ref f r2 store) = at_ref f r2 (at_ref f r1 store).
Proof.
  destruct r1 as [i|], r2 as [j|]; simpl; try done.
  destruct (decide (i = j)) as [->|Hne]; [done|].
  by apply list_alter_alter_ne.
Qed.

(** X1. [cleanupAudio] twice is [cleanupAudio] once: the second call
    finds nothing left to stop, close or reset. *)
Theorem cleanupAudio_idempotent (st : State) :
  cleanupAudio (cleanupAudio st) = cleanupAudio st.
Proof.
  rewrite !cleanupAudio_closed_form. simpl.
  f_equal.
  - unfold cleanup_refs. simpl. f_equal.
    by destruct (animationFrameRef (refs st)) as [[|h]|].
  - unfold cleanup_browser. simpl. f_equal.
    + rewrite (at_ref_comm _ (processorRef (refs st))
                 (inputSourceRef (refs st))
                 (at_ref _ (processorRef (refs st)) _)).
      rewrite at_ref_idempotent by done.
      rewrite (at_ref_comm _ (inputSourceRef (refs st))
                 (processorRef (refs st))).
      by rewrite at_ref_idempotent.
    + by destruct (animationFrameRef (refs st)) as [[|h]|].
Qed.

Lemma cleanupAudio_keeps (st : State) :
  let st' := cleanupAudio st in
  isMicOn (ui st') = isMicOn (ui st)
  /\ systemInstruction (ui st') = systemInstruction (ui st)
  /\ error (ui st') = error (ui st)
  /\ isActive (ui st') = isActive (ui st)
  /\ sessions (browser st') = sessions (browser st).
Proof.
  intros st'. subst st'. rewrite cleanupAudio_closed_form. by repeat split.
Qed.

(** X2. The end button of an open conversation: the session is closed,
    the audio is torn down and the set-up screen is back; the mute flag,
    the system instruction and the error text are as they were, and the
    frames sent to the session are not touched. *)
Theorem ending_conversation (st : State) (sid : nat) :
  reachable API_KEY st ->
  isActive (ui st) = true ->
  sessionPromiseRef (refs st) = Some sid ->
  promise_of sid st = Some fulfilled ->
  let st' := step API_KEY ClickEnd st in
  torn_down st st'
  /\ sessionClosed <$> sessions (browser st') !! sid = Some true
  /\ sent_to sid st' = sent_to sid st
  /\ isMicOn (ui st') = isMicOn (ui st)
  /\ systemInstruction (ui st') = systemInstruction (ui st)
  /\ error (ui st') = error (ui st).
Proof.
  intros Hreach Hact Href Hp st'.
  pose proof (reachable_well_formed API_KEY st Hreach) as Hwf.
  assert (st' = finish_disconnect (close_session sid st)) as ->.
  { subst st'. simpl. rewrite Hact. unfold disconnectSession, promise_then.
    rewrite Href. unfold promise_of in Hp.
    destruct (sessions (browser st) !! sid) as [s|]; [|discriminate].
    injection Hp as Hp. by rewrite Hp. }
  split.
  { apply (resume_disconnect_tears_down st st sid fulfilled); [|done].
    repeat split. }
  unfold finish_disconnect. rewrite cleanupAudio_closed_form.
  unfold sent_to, close_session. simpl.
  rewrite list_lookup_alter_eq.
  unfold promise_of in Hp.
  destruct (sessions (browser st) !! sid) as [s|]; [|discriminate].
  by repeat split.
Qed.

(** X3. With no API key, [connectSession] shows the message about the
    key and goes no further: no audio context, stream, node or session is
    created, [aiRef] is not set, and the start button is enabled again. *)
Theorem connect_without_key (r : Render) (env : SetupEnv) (st : State) :
  JS.truthy API_KEY = false ->
  r_isConnecting r = false ->
  let st' := connectSession API_KEY r env st in
  error (ui st')
  = Some "API Key is missing. Please check the code in LiveVoice.tsx to set your API_KEY."%string
  /\ isConnecting (ui st') = false
  /\ aiRef (refs st') = aiRef (refs st)
  /\ length (contexts (browser st')) = length (contexts (browser st))
  /\ length (streams (browser st')) = length (streams (browser st))
  /\ length (nodes (browser st')) = length (nodes (browser st))
  /\ sessions (browser st') = sessions (browser st).
Proof.
  intros Hkey Hcon st'. subst st'.
  assert (connect_try API_KEY r env (setError None (setIsConnecting true st))
          = Thrown
              {| JS.message :=
                   Some "API Key is missing. Please check the code in LiveVoice.tsx to set your API_KEY."%string |}
              (setError None (setIsConnecting true st))) as Htry.
  { unfold connect_try. by rewrite Hkey. }
  unfold connectSession. rewrite Hcon. cbv zeta. rewrite Htry.
  rewrite cleanupAudio_closed_form.
  split; [reflexivity|]. split; [reflexivity|]. split; [reflexivity|].
  unfold cleanup_browser. cbn [browser contexts streams nodes sessions setIsConnecting setError refs].
  rewrite !length_at_ref. by repeat split.
Qed.

End TeardownMore.
(** ** [LiveVoice]: what happens to a session once it exists *)

Section SessionFacts.

Import LiveVoice LiveVoiceSpec Behaviour.

Context (API_KEY : string) `{U : AudioUtils}.

Lemma session_grown_refl (s : Session) : session_grown s s.
Proof.
  repeat split; try done. exists []. by rewrite app_nil_r.
Qed.

Lemma session_grown_trans (a b c : Session) :
  session_grown a b -> session_grown b c -> session_grown a c.
Proof.
  intros (Hc1 & Hm1 & [m1 Hs1] & Hcl1 & Hp1)
         (Hc2 & Hm2 & [m2 Hs2] & Hcl2 & Hp2).
  repeat split; try congruence.
  - exists (m1 ++ m2). by rewrite Hs2, Hs1, app_assoc.
  - auto.
  - intros Hp. rewrite Hp2; [by apply Hp1|]. by rewrite Hp1.
Qed.

Lemma sessions_grown_refl (ss : list Session) : sessions_grown ss ss.
Proof. intros sid s Hs. exists s. split; [done|apply session_grown_refl]. Qed.

Lemma sessions_grown_trans (a b c : list Session) :
  sessions_grown a b -> sessions_grown b c -> sessions_grown a c.
Proof.
  intros Hab Hbc sid s Hs.
  destruct (Hab sid s Hs) as (s1 & Hs1 & Hg1).
  destruct (Hbc sid s1 Hs1) as (s2 & Hs2 & Hg2).
  exists s2. split; [done|]. by apply (session_grown_trans s s1 s2).
Qed.

Lemma sessions_grown_alter (f : Session -> Session) (sid : nat)
    (ss : list Session) :
  (forall s, session_grown s (f s)) ->
  sessions_grown ss (alter f sid ss).
Proof.
  intros Hf i s Hs. destruct (decide (i = sid)) as [->|Hne].
  - exists (f s). split; [|apply Hf].
    by rewrite list_lookup_alter_eq, Hs.
  - exists s. split; [|apply session_grown_refl].
    by rewrite list_lookup_alter_ne.
Qed.

Lemma sessions_grown_insert (sid : nat) (s s' : Session)
    (ss : list Session) :
  ss !! sid = Some s -> session_grown s s' ->
  sessions_grown ss (<[sid := s']> ss).
Proof.
  intros Hsid Hg i x Hx. destruct (decide (i = sid)) as [->|Hne].
  - exists s'. split.
    + apply list_lookup_insert_eq. by apply lookup_lt_Some in Hsid.
    + by replace x with s by congruence.
  - exists x. split; [|apply session_grown_refl].
    by rewrite list_lookup_insert_ne.
Qed.

Lemma sessions_grown_app (ss more : list Session) :
  sessions_grown ss (ss ++ more).
Proof.
  intros i s Hs. exists s. split; [|apply session_grown_refl].
  by apply lookup_app_l_Some.
Qed.

Lemma with_sent_grown (media : Blob) (s : Session) :
  session_grown s (with_sent (sent s ++ [media]) s).
Proof. repeat split; try done. by exists [media]. Qed.

Lemma with_closed_grown (s : Session) : session_grown s (with_closed s).
Proof. repeat split; try done. exists []. by rewrite app_nil_r. Qed.

(** The handlers of the session promise keep every session there is. *)
Lemma kept_refl (ss : list Session) :
  sessions_grown ss ss /\ length ss = length ss.
Proof. split; [apply sessions_grown_refl|done]. Qed.

Lemma kept_trans (a b c : list Session) :
  sessions_grown a b /\ length b = length a ->
  sessions_grown b c /\ length c = length b ->
  sessions_grown a c /\ length c = length a.
Proof.
  intros [Hab Hl1] [Hbc Hl2]. split; [|congruence].
  by apply (sessions_grown_trans a b c).
Qed.

Lemma kept_alter (f : Session -> Session) (sid : nat) (ss : list Session) :
  (forall s, session_grown s (f s)) ->
  sessions_grown ss (alter f sid ss) /\ length (alter f sid ss) = length ss.
Proof.
  intros Hf. split; [by apply sessions_grown_alter|apply length_alter].
Qed.

Lemma kept_insert (sid : nat) (s s' : Session) (ss : list Session) :
  ss !! sid = Some s -> session_grown s s' ->
  sessions_grown ss (<[sid := s']> ss)
  /\ length (<[sid := s']> ss) = length ss.
Proof.
  intros Hs Hg. split; [by apply (sessions_grown_insert sid s)|].
  apply length_insert.
Qed.

Lemma with_promise_grown (p : PromiseState) (q : list Reaction)
    (s : Session) :
  promise s = pending -> session_grown s (with_promise p q s).
Proof.
  intros Hp. repeat split; try done. exists []. by rewrite app_nil_r.
Qed.

Lemma run_reaction_grown (sid : nat) (outcome : PromiseState) (r : Reaction)
    (st : State) :
  sessions_grown (sessions (browser st))
    (sessions (browser (run_reaction sid outcome r st)))
  /\ length (sessions (browser (run_reaction sid outcome r st)))
     = length (sessions (browser st)).
Proof.
  unfold run_reaction, finish_disconnect.
  destruct r as [media|], outcome; rewrite ?cleanupAudio_closed_form;
    unfold sendRealtimeInput, close_session; simpl;
    try apply kept_refl.
  - apply kept_alter. intros s. apply with_sent_grown.
  - apply kept_alter. intros s. apply with_closed_grown.
Qed.

Lemma fold_reactions_grown (sid : nat) (outcome : PromiseState)
    (q : list Reaction) (st : State) :
  let st' := fold_left (fun st r => run_reaction sid outcome r st) q st in
  sessions_grown (sessions (browser st)) (sessions (browser st'))
  /\ length (sessions (browser st')) = length (sessions (browser st)).
Proof.
  revert st. induction q as [|r q IH]; intros st.
  - apply kept_refl.
  - cbn [fold_left].
    eapply kept_trans; [apply (run_reaction_grown sid outcome r)|].
    apply IH.
Qed.

Lemma promise_then_grown (sid : nat) (r : Reaction) (st : State) :
  sessions_grown (sessions (browser st))
    (sessions (browser (promise_then sid r st)))
  /\ length (sessions (browser (promise_then sid r st)))
     = length (sessions (browser st)).
Proof.
  unfold promise_then.
  destruct (sessions (browser st) !! sid) as [s|] eqn:Hs;
    [|apply kept_refl].
  destruct (promise s) eqn:Hp; try apply run_reaction_grown.
  simpl. apply (kept_insert sid s); [done|]. by apply with_promise_grown.
Qed.

Lemma settle_grown (sid : nat) (outcome : PromiseState) (st : State) :
  sessions_grown (sessions (browser st))
    (sessions (browser (settle sid outcome st)))
  /\ length (sessions (browser (settle sid outcome st)))
     = length (sessions (browser st)).
Proof.
  unfold settle.
  destruct (sessions (browser st) !! sid) as [s|] eqn:Hs;
    [|apply kept_refl].
  destruct (promise s) eqn:Hp; try apply kept_refl.
  eapply kept_trans; [|apply fold_reactions_grown].
  simpl. apply (kept_insert sid s); [done|]. by apply with_promise_grown.
Qed.

Lemma disconnectSession_grown (st : State) :
  sessions_grown (sessions (browser st))
    (sessions (browser (disconnectSession st)))
  /\ length (sessions (browser (disconnectSession st)))
     = length (sessions (browser st)).
Proof.
  unfold disconnectSession.
  destruct (sessionPromiseRef (refs st)) as [sid|].
  - apply promise_then_grown.
  - unfold finish_disconnect. rewrite cleanupAudio_closed_form.
    apply kept_refl.
Qed.

Lemma onopen_sessions (cl : AudioProcessClosure) (st : State) :
  sessions (browser (onopen cl st)) = sessions (browser st).
Proof.
  unfold onopen. simpl.
  by destruct (inputAudioContextRef (refs st)), (streamRef (refs st)).
Qed.

Lemma onmessage_sessions (now : R) (m : LiveServerMessage) (st : State) :
  sessions (browser (onmessage now m st)) = sessions (browser st).
Proof.
  unfold onmessage.
  transitivity (sessions (browser (onmessage_audio now m st))).
  - unfold onmessage_interruption.
    destruct (content ← serverContent m; interrupted content) as [[|]|];
      try done.
    by destruct (stop_each _ _).
  - unfold onmessage_audio.
    destruct (audio_of m) as [base64Audio|]; [|done].
    destruct (outputAudioContextRef (refs st)) as [ctx|]; [|done].
    destruct (outputNodeRef (refs st)) as [outputNode|]; [|done].
    destruct (JS.truthy base64Audio); [|done].
    by destruct (context_state ctx st) as [[| |]|].
Qed.

Lemma onended_sessions (source : nat) (st : State) :
  sessions (browser (onended source st)) = sessions (browser st).
Proof. unfold onended. by case_decide. Qed.

(** The [try] block adds one session when it returns and none when it
    throws. *)
Lemma connect_try_sessions (r : Render) (env : SetupEnv) (st : State) :
  match connect_try API_KEY r env st with
  | Returned st' =>
      exists s, sessions (browser st') = sessions (browser st) ++ [s]
  | Thrown _ st' => sessions (browser st') = sessions (browser st)
  end.
Proof.
  unfold connect_try.
  destruct (negb (JS.truthy API_KEY)); [done|].
  destruct (new_input_context env) as [s_in|e1]; [|done].
  destruct (new_output_context env) as [s_out|e2]; [|done].
  destruct (getUserMedia env) as [[]|e3]; [|done].
  simpl. by eexists.
Qed.

Lemma connectSession_sessions (r : Render) (env : SetupEnv) (st : State) :
  sessions (browser (connectSession API_KEY r env st))
  = sessions (browser st)
  \/ exists s,
       sessions (browser (connectSession API_KEY r env st))
       = sessions (browser st) ++ [s].
Proof.
  unfold connectSession.
  destruct (r_isConnecting r); [by left|]. cbv zeta.
  pose proof (connect_try_sessions r env
                (setError None (setIsConnecting true st))) as Htry.
  destruct (connect_try API_KEY r env _) as [st'|e st'].
  - right. exact Htry.
  - left. rewrite cleanupAudio_closed_form. simpl. exact Htry.
Qed.

(** One event keeps every session there is and adds at most one, and
    only a click on the start button adds one. *)
Lemma step_sessions (ev : Event) (st : State) :
  sessions_grown (sessions (browser st))
    (sessions (browser (step API_KEY ev st)))
  /\ length (sessions (browser st))
     <= length (sessions (browser (step API_KEY ev st)))
     <= length (sessions (browser st)) + (if is_start ev then 1 else 0).
Proof.
  assert (forall a b : list Session,
            sessions_grown a b /\ length b = length a ->
            sessions_grown a b /\ length a <= length b <= length a + 0)
    as Hkept.
  { intros a b [Hab Heq]. split; [done|lia]. }
  assert (forall a b : list Session,
            b = a ->
            sessions_grown a b /\ length a <= length b <= length a + 0)
    as Hsame.
  { intros a b ->. split; [apply sessions_grown_refl|lia]. }
  destruct ev; cbn [step is_start].
  - destruct (isActive (ui st)); by apply Hsame.
  - destruct (isActive (ui st) || isConnecting (ui st)).
    { split; [apply sessions_grown_refl|lia]. }
    destruct (connectSession_sessions (render st) env st) as [->|[s ->]].
    + split; [apply sessions_grown_refl|lia].
    + split; [apply sessions_grown_app|]. rewrite length_app. simpl. lia.
  - destruct (isActive (ui st)); by apply Hsame.
  - destruct (isActive (ui st)); [|by apply Hsame].
    apply Hkept, disconnectSession_grown.
  - apply Hkept, disconnectSession_grown.
  - destruct (sessions (browser st) !! sid); [|by apply Hsame].
    apply Hsame, onopen_sessions.
  - destruct (sessions (browser st) !! sid); [|by apply Hsame].
    apply Hsame, onmessage_sessions.
  - destruct (sessions (browser st) !! sid); by apply Hsame.
  - destruct (sessions (browser st) !! sid); [|by apply Hsame].
    apply Hkept. unfold onerror.
    apply (disconnectSession_grown
             (setError (Some "Connection failed. Please try again."%string)
                st)).
  - apply Hkept, settle_grown.
  - destruct (nodes (browser st) !! node) as [[[| size [cl|] |] ctx outs]|];
      try by apply Hsame.
    case_decide; [|by apply Hsame].
    unfold onaudioprocess. destruct (negb (captured_isMicOn cl));
      [by apply Hsame|].
    apply Hkept.
    apply (promise_then_grown (captured_sessionPromise cl) _
             (set_currentVolumeRef (Volume.level inputData) st)).
  - case_decide; by apply Hsame.
  - destruct (bufferSources (browser st) !! source) as [[b c [w|] s]|];
      try by apply Hsame.
    apply Hsame, onended_sessions.
Qed.

Lemma run_cons (ev : Event) (evs : list Event) (st : State) :
  run API_KEY (ev :: evs) st = run API_KEY evs (step API_KEY ev st).
Proof. reflexivity. Qed.

Lemma run_sessions_grown (evs : list Event) (st : State) :
  sessions_grown (sessions (browser st))
    (sessions (browser (run API_KEY evs st))).
Proof.
  revert st. induction evs as [|ev evs IH]; intros st.
  - apply sessions_grown_refl.
  - rewrite run_cons.
    eapply sessions_grown_trans; [apply (step_sessions ev st)|apply IH].
Qed.

(** X5. A session keeps the configuration and the microphone flag it was
    created with: no later event (typing a new system instruction,
    toggling the microphone, ending the conversation, starting another
    one) changes them; once closed it stays closed, and a settled promise
    keeps its outcome. *)
Theorem session_is_fixed (evs : list Event) (st : State) (sid : nat)
    (s : Session) :
  sessions (browser st) !! sid = Some s ->
  exists s',
    sessions (browser (run API_KEY evs st)) !! sid = Some s'
    /\ config s' = config s
    /\ callbacks_isMicOn s' = callbacks_isMicOn s
    /\ (sessionClosed s = true -> sessionClosed s' = true)
    /\ (promise s <> pending -> promise s' = promise s).
Proof.
  intros Hs.
  destruct (run_sessions_grown evs st sid s Hs)
    as (s' & Hs' & Hc & Hm & _ & Hcl & Hp).
  by exists s'.
Qed.

(** X6. Sessions are created by clicks on the start button only, one per
    click at most, and none is ever removed. *)
Theorem sessions_created_by_start (evs : list Event) (st : State) :
  length (sessions (browser st))
  <= length (sessions (browser (run API_KEY evs st)))
  <= length (sessions (browser st)) + starts evs.
Proof.
  revert st. induction evs as [|ev evs IH]; intros st.
  - simpl. lia.
  - rewrite run_cons.
    destruct (step_sessions ev st) as [_ Hstep].
    specialize (IH (step API_KEY ev st)).
    assert (starts (ev :: evs) = (if is_start ev then 1 else 0) + starts evs)
      as ->.
    { unfold starts. rewrite filter_cons.
      destruct (is_start ev); by case_decide. }
    lia.
Qed.

End SessionFacts.
(** ** [LiveVoice]: the speaking indicator *)

Section SpeakingFacts.

Import LiveVoice LiveVoiceSpec Behaviour.

Context (API_KEY : string) `{U : AudioUtils}.

(** A handler that can only clear the flag, and leaves the tracked sources
    alone when it does not. *)
Lemma speaking_frame (st st' : State) :
  (isAiSpeaking (ui st') = true ->
   isAiSpeaking (ui st) = true
   /\ sourcesRef (refs st') = sourcesRef (refs st)) ->
  speaking_tracked st -> speaking_tracked st'.
Proof.
  intros Hframe Hst Hsp. destruct (Hframe Hsp) as [Hsp0 ->]. by apply Hst.
Qed.

Lemma finish_disconnect_speaking (st : State) :
  speaking_tracked (finish_disconnect st).
Proof.
  unfold finish_disconnect. rewrite cleanupAudio_closed_form.
  intros Hsp. discriminate.
Qed.

Lemma run_reaction_speaking (sid : nat) (outcome : PromiseState)
    (r : Reaction) (st : State) :
  speaking_tracked st -> speaking_tracked (run_reaction sid outcome r st).
Proof.
  intros Hst. destruct r as [media|], outcome; simpl; try done;
    apply finish_disconnect_speaking.
Qed.

Lemma fold_reactions_speaking (sid : nat) (outcome : PromiseState)
    (q : list Reaction) (st : State) :
  speaking_tracked st ->
  speaking_tracked
    (fold_left (fun st r => run_reaction sid outcome r st) q st).
Proof.
  revert st. induction q as [|r q IH]; intros st Hst; [done|].
  cbn [fold_left]. by apply IH, run_reaction_speaking.
Qed.

Lemma promise_then_speaking (sid : nat) (r : Reaction) (st : State) :
  speaking_tracked st -> speaking_tracked (promise_then sid r st).
Proof.
  intros Hst. unfold promise_then.
  destruct (sessions (browser st) !! sid) as [s|]; [|done].
  destruct (promise s); try by apply run_reaction_speaking.
  done.
Qed.

Lemma settle_speaking (sid : nat) (outcome : PromiseState) (st : State) :
  speaking_tracked st -> speaking_tracked (settle sid outcome st).
Proof.
  intros Hst. unfold settle.
  destruct (sessions (browser st) !! sid) as [s|]; [|done].
  destruct (promise s); try done.
  by apply fold_reactions_speaking.
Qed.

Lemma disconnectSession_speaking (st : State) :
  speaking_tracked st -> speaking_tracked (disconnectSession st).
Proof.
  intros Hst. unfold disconnectSession.
  destruct (sessionPromiseRef (refs st)) as [sid|].
  - by apply promise_then_speaking.
  - apply finish_disconnect_speaking.
Qed.

Lemma onopen_speaking (cl : AudioProcessClosure) (st : State) :
  speaking_tracked st -> speaking_tracked (onopen cl st).
Proof.
  apply speaking_frame. unfold onopen. simpl.
  by destruct (inputAudioContextRef (refs st)), (streamRef (refs st)).
Qed.

Lemma onmessage_audio_speaking (now : R) (m : LiveServerMessage)
    (st : State) :
  speaking_tracked st -> speaking_tracked (onmessage_audio now m st).
Proof.
  intros Hst. unfold onmessage_audio.
  destruct (audio_of m) as [base64Audio|]; [|done].
  destruct (outputAudioContextRef (refs st)) as [ctx|]; [|done].
  destruct (outputNodeRef (refs st)) as [outputNode|]; [|done].
  destruct (JS.truthy base64Audio); [|done].
  intros _.
  destruct (context_state ctx st) as [[| |]|]; simpl; set_solver.
Qed.

Lemma onmessage_interruption_speaking (m : LiveServerMessage) (st : State) :
  speaking_tracked st -> speaking_tracked (onmessage_interruption m st).
Proof.
  intros Hst. unfold onmessage_interruption.
  destruct (content ← serverContent m; interrupted content) as [[|]|];
    try done.
  destruct (stop_each _ _); [|done]. intros Hsp. discriminate.
Qed.

Lemma onended_speaking (source : nat) (st : State) :
  speaking_tracked (onended source st).
Proof.
  unfold onended. cbn [refs set_sourcesRef sourcesRef].
  case_decide as Hsize; [intros Hsp; discriminate|].
  intros _. cbn [refs set_sourcesRef sourcesRef]. intros Hempty.
  apply Hsize. rewrite Hempty. apply size_empty.
Qed.

Lemma connect_try_speaking (r : Render) (env : SetupEnv) (st : State) :
  speaking_tracked st ->
  match connect_try API_KEY r env st with
  | Returned st' => speaking_tracked st'
  | Thrown _ _ => True
  end.
Proof.
  intros Hst. unfold connect_try.
  destruct (negb (JS.truthy API_KEY)); [done|].
  destruct (new_input_context env) as [s_in|e1]; [|done].
  destruct (new_output_context env) as [s_out|e2]; [|done].
  destruct (getUserMedia env) as [[]|e3]; [|done].
  revert Hst. apply speaking_frame. by simpl.
Qed.

Lemma connectSession_speaking (r : Render) (env : SetupEnv) (st : State) :
  speaking_tracked st ->
  speaking_tracked (connectSession API_KEY r env st).
Proof.
  intros Hst. unfold connectSession.
  destruct (r_isConnecting r); [done|]. cbv zeta.
  pose proof (connect_try_speaking r env
                (setError None (setIsConnecting true st)) Hst) as Htry.
  destruct (connect_try API_KEY r env _) as [st'|e st']; [done|].
  rewrite cleanupAudio_closed_form. intros Hsp. discriminate.
Qed.

Lemma step_speaking (ev : Event) (st : State) :
  speaking_tracked st -> speaking_tracked (step API_KEY ev st).
Proof.
  intros Hst. destruct ev; cbn [step].
  - by destruct (isActive (ui st)).
  - destruct (isActive (ui st) || isConnecting (ui st)); [done|].
    by apply connectSession_speaking.
  - by destruct (isActive (ui st)).
  - destruct (isActive (ui st)); [|done].
    by apply disconnectSession_speaking.
  - by apply disconnectSession_speaking.
  - destruct (sessions (browser st) !! sid); [|done].
    by apply onopen_speaking.
  - destruct (sessions (browser st) !! sid); [|done].
    by apply onmessage_interruption_speaking, onmessage_audio_speaking.
  - destruct (sessions (browser st) !! sid); [|done].
    intros Hsp. discriminate.
  - destruct (sessions (browser st) !! sid); [|done].
    by apply disconnectSession_speaking.
  - by apply settle_speaking.
  - destruct (nodes (browser st) !! node) as [[[| size [cl|] |] ctx outs]|];
      try done.
    case_decide; [|done].
    unfold onaudioprocess. destruct (negb (captured_isMicOn cl)); [done|].
    by apply promise_then_speaking.
  - by case_decide.
  - destruct (bufferSources (browser st) !! source) as [[b c [w|] s]|];
      try done.
    apply onended_speaking.
Qed.

Lemma reachable_speaking_tracked (st : State) :
  reachable API_KEY st -> speaking_tracked st.
Proof.
  induction 1 as [|ev st _ IH].
  - intros Hi. discriminate.
  - by apply step_speaking.
Qed.

(** Tracked sources are playing: the invariant, handler by handler. *)
Lemma playing_frame (st st' : State) :
  bufferSources (browser st') = bufferSources (browser st) ->
  (forall id, id ∈ sourcesRef (refs st') -> id ∈ sourcesRef (refs st)) ->
  tracked_playing st -> tracked_playing st'.
Proof.
  intros Hsrcs Hsub Hst id Hid. rewrite Hsrcs. by apply Hst, Hsub.
Qed.

Lemma playing_untracked (st : State) :
  sourcesRef (refs st) = ∅ -> tracked_playing st.
Proof.
  intros Hempty id Hid. rewrite Hempty in Hid. by apply elem_of_empty in Hid.
Qed.

Lemma finish_disconnect_playing (st : State) :
  tracked_playing (finish_disconnect st).
Proof.
  apply playing_untracked. unfold finish_disconnect.
  by rewrite cleanupAudio_closed_form.
Qed.

Lemma run_reaction_playing (sid : nat) (outcome : PromiseState)
    (r : Reaction) (st : State) :
  tracked_playing st -> tracked_playing (run_reaction sid outcome r st).
Proof.
  intros Hst. destruct r as [media|], outcome; cbn [run_reaction];
    try done; apply finish_disconnect_playing.
Qed.

Lemma fold_reactions_playing (sid : nat) (outcome : PromiseState)
    (q : list Reaction) (st : State) :
  tracked_playing st ->
  tracked_playing
    (fold_left (fun st r => run_reaction sid outcome r st) q st).
Proof.
  revert st. induction q as [|r q IH]; intros st Hst; [done|].
  cbn [fold_left]. by apply IH, run_reaction_playing.
Qed.

Lemma promise_then_playing (sid : nat) (r : Reaction) (st : State) :
  tracked_playing st -> tracked_playing (promise_then sid r st).
Proof.
  intros Hst. unfold promise_then.
  destruct (sessions (browser st) !! sid) as [s|]; [|done].
  destruct (promise s); try by apply run_reaction_playing.
  done.
Qed.

Lemma settle_playing (sid : nat) (outcome : PromiseState) (st : State) :
  tracked_playing st -> tracked_playing (settle sid outcome st).
Proof.
  intros Hst. unfold settle.
  destruct (sessions (browser st) !! sid) as [s|]; [|done].
  destruct (promise s); try done.
  by apply fold_reactions_playing.
Qed.

Lemma disconnectSession_playing (st : State) :
  tracked_playing st -> tracked_playing (disconnectSession st).
Proof.
  intros Hst. unfold disconnectSession.
  destruct (sessionPromiseRef (refs st)) as [sid|].
  - by apply promise_then_playing.
  - apply finish_disconnect_playing.
Qed.

Lemma onopen_playing (cl : AudioProcessClosure) (st : State) :
  tracked_playing st -> tracked_playing (onopen cl st).
Proof.
  apply playing_frame; unfold onopen; simpl;
    by destruct (inputAudioContextRef (refs st)), (streamRef (refs st)).
Qed.

(** The audio half tracks the source it has started and touches no
    other. *)
Lemma onmessage_audio_playing (now : R) (m : LiveServerMessage)
    (st : State) :
  tracked_playing st -> tracked_playing (onmessage_audio now m st).
Proof.
  intros Hst. unfold onmessage_audio.
  destruct (audio_of m) as [base64Audio|]; [|done].
  destruct (outputAudioContextRef (refs st)) as [ctx|]; [|done].
  destruct (outputNodeRef (refs st)) as [outputNode|]; [|done].
  destruct (JS.truthy base64Audio); [|done].
  assert (tracked_playing
            (match context_state ctx st with
             | Some suspended => resume ctx st
             | _ => st
             end)) as Hst'.
  { by destruct (context_state ctx st) as [[| |]|]. }
  revert Hst'.
  generalize (match context_state ctx st with
              | Some suspended => resume ctx st
              | _ => st
              end).
  clear Hst st. intros st Hst id. simpl.
  rewrite !alter_fresh. simpl.
  intros [Hid|Hid]%elem_of_union.
  - apply elem_of_singleton in Hid as ->.
    rewrite lookup_app_r by lia. rewrite Nat.sub_diag. simpl. eauto.
  - destruct (Hst id Hid) as (s & Hs & Hstart & Hstop).
    exists s. split; [by apply lookup_app_l_Some|done].
Qed.

(** The interruption half never throws on tracked sources that have been
    started, and leaves nothing tracked. *)
Lemma onmessage_interruption_playing (m : LiveServerMessage) (st : State) :
  tracked_playing st -> tracked_playing (onmessage_interruption m st).
Proof.
  intros Hst. unfold onmessage_interruption.
  destruct (content ← serverContent m; interrupted content) as [[|]|];
    try done.
  rewrite stop_each_started.
  - by apply playing_untracked.
  - intros id Hid. apply elem_of_elements in Hid.
    destruct (Hst id Hid) as (s & Hs & Hstart & _). eauto.
Qed.

Lemma onended_playing (source : nat) (st : State) :
  tracked_playing st -> tracked_playing (onended source st).
Proof.
  apply playing_frame; unfold onended; case_decide; simpl; try done;
    intros id [Hid _]%elem_of_difference; done.
Qed.

Lemma connect_try_playing (r : Render) (env : SetupEnv) (st : State) :
  tracked_playing st ->
  match connect_try API_KEY r env st with
  | Returned st' => tracked_playing st'
  | Thrown _ _ => True
  end.
Proof.
  intros Hst. unfold connect_try.
  destruct (negb (JS.truthy API_KEY)); [done|].
  destruct (new_input_context env) as [s_in|e1]; [|done].
  destruct (new_output_context env) as [s_out|e2]; [|done].
  destruct (getUserMedia env) as [[]|e3]; [|done].
  revert Hst. by apply playing_frame.
Qed.

Lemma connectSession_playing (r : Render) (env : SetupEnv) (st : State) :
  tracked_playing st ->
  tracked_playing (connectSession API_KEY r env st).
Proof.
  intros Hst. unfold connectSession.
  destruct (r_isConnecting r); [done|]. cbv zeta.
  pose proof (connect_try_playing r env
                (setError None (setIsConnecting true st)) Hst) as Htry.
  destruct (connect_try API_KEY r env _) as [st'|e st']; [done|].
  apply playing_untracked. by rewrite cleanupAudio_closed_form.
Qed.

Lemma step_playing (ev : Event) (st : State) :
  tracked_playing st -> tracked_playing (step API_KEY ev st).
Proof.
  intros Hst. destruct ev; cbn [step].
  - by destruct (isActive (ui st)).
  - destruct (isActive (ui st) || isConnecting (ui st)); [done|].
    by apply connectSession_playing.
  - by destruct (isActive (ui st)).
  - destruct (isActive (ui st)); [|done].
    by apply disconnectSession_playing.
  - by apply disconnectSession_playing.
  - destruct (sessions (browser st) !! sid); [|done].
    by apply onopen_playing.
  - destruct (sessions (browser st) !! sid); [|done].
    by apply onmessage_interruption_playing, onmessage_audio_playing.
  - by destruct (sessions (browser st) !! sid).
  - destruct (sessions (browser st) !! sid); [|done].
    by apply disconnectSession_playing.
  - by apply settle_playing.
  - destruct (nodes (browser st) !! node) as [[[| size [cl|] |] ctx outs]|];
      try done.
    case_decide; [|done].
    unfold onaudioprocess. destruct (negb (captured_isMicOn cl)); [done|].
    by apply promise_then_playing.
  - by case_decide.
  - destruct (bufferSources (browser st) !! source) as [[b c [w|] s]|];
      try done.
    by apply onended_playing.
Qed.

Lemma reachable_tracked_playing (st : State) :
  reachable API_KEY st -> tracked_playing st.
Proof.
  induction 1 as [|ev st _ IH].
  - intros id Hid. by apply elem_of_empty in Hid.
  - by apply step_playing.
Qed.

(** X7. The speaking indicator is never on without a source that is
    playing: in every state the component can reach, whenever the
    component shows the AI as speaking, at least one source is tracked;
    and every tracked source has been started and has not been stopped
    (a source stays tracked until its [ended] listener runs). *)
Theorem speaking_only_while_tracked (st : State) :
  reachable API_KEY st ->
  isAiSpeaking (ui st) = true ->
  (exists source, source ∈ sourcesRef (refs st))
  /\ forall source, source ∈ sourcesRef (refs st) ->
       exists s, bufferSources (browser st) !! source = Some s
                 /\ is_Some (startedAt s) /\ stopped s = false.
Proof.
  intros Hreach Hsp. split.
  - apply set_choose_L. by apply (reachable_speaking_tracked st Hreach).
  - apply (reachable_tracked_playing st Hreach).
Qed.

Lemma all_ended_snoc (ids : list nat) (id : nat) (st : State) :
  all_ended (ids ++ [id]) st = onended id (all_ended ids st).
Proof. unfold all_ended. by rewrite fold_left_app. Qed.

Lemma all_ended_keeps (ids : list nat) (st : State) :
  let st' := all_ended ids st in
  sourcesRef (refs st') = sourcesRef (refs st) ∖ list_to_set ids
  /\ browser st' = browser st
  /\ nextStartTimeRef (refs st') = nextStartTimeRef (refs st).
Proof.
  induction ids as [|id ids IH] using rev_ind.
  - simpl. split; [by rewrite difference_empty_L|done].
  - cbv zeta in *. rewrite all_ended_snoc.
    destruct IH as (IH1 & IH2 & IH3). unfold onended.
    cbn [refs set_sourcesRef sourcesRef].
    case_decide; simpl; rewrite IH1, IH2, IH3;
      (split; [|done]); rewrite list_to_set_app_L; simpl;
      by rewrite union_empty_r_L, difference_difference_l_L.
Qed.

(** X8. When every tracked source has ended, nothing is tracked any more
    and the speaking indicator is off; the sources themselves and the next
    start time are as they were. *)
Theorem playback_ends (ids : list nat) (st : State) :
  ids <> [] ->
  (forall id, id ∈ sourcesRef (refs st) -> id ∈ ids) ->
  let st' := all_ended ids st in
  sourcesRef (refs st') = ∅
  /\ isAiSpeaking (ui st') = false
  /\ browser st' = browser st
  /\ nextStartTimeRef (refs st') = nextStartTimeRef (refs st).
Proof.
  intros Hne Hall st'.
  destruct (all_ended_keeps ids st) as (Hsrc & Hb & Hn). fold st' in Hsrc, Hb, Hn.
  assert (sourcesRef (refs st') = ∅) as Hempty.
  { rewrite Hsrc. apply set_eq. intros id. split; [|set_solver].
    intros [Hin Hout]%elem_of_difference. exfalso. apply Hout.
    apply elem_of_list_to_set. by apply Hall. }
  split; [done|]. split; [|done].
  subst st'. destruct ids as [|id ids _] using rev_ind; [done|].
  rewrite all_ended_snoc in *. revert Hempty. unfold onended.
  cbn [refs set_sourcesRef sourcesRef].
  case_decide as Hsize; [done|].
  cbn [refs set_sourcesRef sourcesRef]. intros Hempty. exfalso.
  apply Hsize. rewrite Hempty. apply size_empty.
Qed.

(** X9. Once the component is idle, a message of a session that is still
    delivering changes nothing: no buffer is decoded, no source is
    created, the state is the same. *)
Theorem idle_ignores_messages (now : R) (m : LiveServerMessage)
    (st : State) :
  idle st -> onmessage now m st = st.
Proof.
  intros Hidle. unfold onmessage.
  rewrite onmessage_audio_without_output
    by (left; apply (idle_output st Hidle)).
  unfold onmessage_interruption.
  destruct (content ← serverContent m; interrupted content) as [[|]|];
    try done.
  rewrite (idle_sources st Hidle), elements_empty. simpl.
  pose proof (idle_sources st Hidle) as Hs.
  pose proof (idle_next st Hidle) as Hn.
  pose proof (idle_speaking st Hidle) as Hsp.
  destruct st as [[] [] []]. simpl in *. by subst.
Qed.

End SpeakingFacts.
(** ** [LiveVoice]: the visual loop and the view *)

Section VisualFacts.

Import LiveVoice LiveVoiceSpec LiveVoiceView Behaviour.

Context (API_KEY : string) `{U : AudioUtils}.

Local Open Scope R_scope.

Lemma frames_S (n : nat) (st : State) :
  frames (S n) st = update (frames n st).
Proof. reflexivity. Qed.

(** X10. The displayed level converges to the captured one: after [n]
    animation frames with no new block, the distance between the two is
    the initial distance times 0.8 to the [n]; the loop does not touch the
    captured level. *)
Theorem meter_converges (n : nat) (st : State) :
  currentVolumeRef (refs (frames n st)) = currentVolumeRef (refs st)
  /\ visualVolume (ui (frames n st)) - currentVolumeRef (refs st)
     = (visualVolume (ui st) - currentVolumeRef (refs st)) * 0.8 ^ n.
Proof.
  induction n as [|n [IHc IHv]].
  - simpl. split; [done|lra].
  - rewrite frames_S. cbn [update requestAnimationFrame refs ui
      set_animationFrameRef set_rafCounter set_rafPending setVisualVolume
      currentVolumeRef visualVolume].
    split; [done|]. unfold Volume.smooth. rewrite IHc.
    replace (0.8 ^ S n) with (0.8 ^ n * 0.8) by (simpl; lra).
    rewrite <- Rmult_assoc, <- IHv. lra.
Qed.

(** X11. What the active screen draws stays within its design range in
    every state the component can reach: the blob is scaled by a factor
    between 1 and 2.5 (at most 1.2 while the AI speaks), and the glow
    radius is between 20 and 90 pixels. *)
Theorem view_within_range (st : State) :
  reachable API_KEY st ->
  1 <= blobScale st <= 2.5
  /\ (isAiSpeaking (ui st) = true -> blobScale st <= 1.2)
  /\ 20 <= glowRadius st <= 90.
Proof.
  intros Hreach.
  pose proof (wf_visual st (reachable_well_formed API_KEY st Hreach)) as Hv.
  unfold blobScale, glowRadius.
  destruct (isAiSpeaking (ui st)), (isMicOn (ui st)); simpl;
    repeat split; try lra; intros; try lra; discriminate.
Qed.

End VisualFacts.
(** ** [LiveVoice]: what a teardown reaches, and what it does not *)

Section ResourceFacts.

Import LiveVoice LiveVoiceSpec Behaviour.

Context (API_KEY : string) `{U : AudioUtils}.

(** *** Animation-frame handles *)

Lemma handles_frame (st st' : State) :
  rafCounter (browser st) <= rafCounter (browser st') ->
  (forall h, h ∈ rafPending (browser st') -> h ∈ rafPending (browser st)) ->
  (forall h, animationFrameRef (refs st') = Some h ->
     animationFrameRef (refs st) = Some h) ->
  handles_issued st -> handles_issued st'.
Proof.
  intros Hc Hp Hr [Hpend Href]. split.
  - intros h Hh. specialize (Hpend h (Hp h Hh)). lia.
  - intros h Hh. specialize (Href h (Hr h Hh)). lia.
Qed.

Ltac same_handles :=
  apply handles_frame;
  [ apply Nat.eq_le_incl; reflexivity
  | intros ? Hh; exact Hh
  | intros ? Hh; exact Hh ].

Lemma update_handles (st : State) :
  handles_issued st -> handles_issued (update st).
Proof.
  intros [Hpend Href]. split; simpl.
  - intros h [Hh|Hh]%elem_of_union.
    + apply elem_of_singleton in Hh as ->. lia.
    + specialize (Hpend h Hh). lia.
  - intros h [= <-]. lia.
Qed.

Lemma cleanupAudio_handles (st : State) :
  handles_issued st -> handles_issued (cleanupAudio st).
Proof.
  rewrite cleanupAudio_closed_form. apply handles_frame; simpl.
  - lia.
  - intros h. destruct (animationFrameRef (refs st)) as [[|h']|]; try done.
    by intros [Hh _]%elem_of_difference.
  - intros h. by destruct (animationFrameRef (refs st)) as [[|h']|].
Qed.

Lemma finish_disconnect_handles (st : State) :
  handles_issued st -> handles_issued (finish_disconnect st).
Proof.
  intros Hst. apply cleanupAudio_handles in Hst. revert Hst.
  unfold finish_disconnect. generalize (cleanupAudio st). intros st'.
  same_handles.
Qed.

Lemma run_reaction_handles (sid : nat) (outcome : PromiseState)
    (r : Reaction) (st : State) :
  handles_issued st -> handles_issued (run_reaction sid outcome r st).
Proof.
  intros Hst. destruct r as [media|], outcome; cbn [run_reaction];
    try done; by apply finish_disconnect_handles.
Qed.

Lemma fold_reactions_handles (sid : nat) (outcome : PromiseState)
    (q : list Reaction) (st : State) :
  handles_issued st ->
  handles_issued
    (fold_left (fun st r => run_reaction sid outcome r st) q st).
Proof.
  revert st. induction q as [|r q IH]; intros st Hst; [done|].
  cbn [fold_left]. by apply IH, run_reaction_handles.
Qed.

Lemma promise_then_handles (sid : nat) (r : Reaction) (st : State) :
  handles_issued st -> handles_issued (promise_then sid r st).
Proof.
  intros Hst. unfold promise_then.
  destruct (sessions (browser st) !! sid) as [s|]; [|done].
  destruct (promise s); try by apply run_reaction_handles.
  revert Hst. same_handles.
Qed.

Lemma settle_handles (sid : nat) (outcome : PromiseState) (st : State) :
  handles_issued st -> handles_issued (settle sid outcome st).
Proof.
  intros Hst. unfold settle.
  destruct (sessions (browser st) !! sid) as [s|]; [|done].
  destruct (promise s); try done.
  apply fold_reactions_handles. revert Hst. same_handles.
Qed.

Lemma disconnectSession_handles (st : State) :
  handles_issued st -> handles_issued (disconnectSession st).
Proof.
  intros Hst. unfold disconnectSession.
  destruct (sessionPromiseRef (refs st)) as [sid|].
  - by apply promise_then_handles.
  - by apply finish_disconnect_handles.
Qed.

Lemma onopen_handles (cl : AudioProcessClosure) (st : State) :
  handles_issued st -> handles_issued (onopen cl st).
Proof.
  intros Hst. unfold onopen.
  assert (handles_issued
            (startVisualLoop (setIsActive true (setIsConnecting false st))))
    as Hst'.
  { apply update_handles. revert Hst. same_handles. }
  revert Hst'.
  generalize (startVisualLoop (setIsActive true (setIsConnecting false st))).
  clear Hst st. intros st.
  destruct (inputAudioContextRef (refs st)) as [ctx|]; [|done].
  destruct (streamRef (refs st)) as [stream|]; [|done].
  same_handles.
Qed.

Lemma onmessage_handles (now : R) (m : LiveServerMessage) (st : State) :
  handles_issued st -> handles_issued (onmessage now m st).
Proof.
  intros Hst. unfold onmessage.
  assert (handles_issued (onmessage_audio now m st)) as Hst'.
  { unfold onmessage_audio.
    destruct (audio_of m) as [base64Audio|]; [|done].
    destruct (outputAudioContextRef (refs st)) as [ctx|]; [|done].
    destruct (outputNodeRef (refs st)) as [outputNode|]; [|done].
    destruct (JS.truthy base64Audio); [|done].
    revert Hst. destruct (context_state ctx st) as [[| |]|]; same_handles. }
  revert Hst'. generalize (onmessage_audio now m st). clear Hst st.
  intros st Hst. unfold onmessage_interruption.
  destruct (content ← serverContent m; interrupted content) as [[|]|];
    try done.
  revert Hst. destruct (stop_each _ _); same_handles.
Qed.

Lemma connect_try_handles (r : Render) (env : SetupEnv) (st : State) :
  handles_issued st ->
  match connect_try API_KEY r env st with
  | Returned st' => handles_issued st'
  | Thrown _ st' => handles_issued st'
  end.
Proof.
  intros Hst. unfold connect_try.
  destruct (negb (JS.truthy API_KEY)); [done|].
  destruct (new_input_context env) as [s_in|e1];
    [|revert Hst; same_handles].
  destruct (new_output_context env) as [s_out|e2];
    [|revert Hst; same_handles].
  destruct (getUserMedia env) as [[]|e3]; revert Hst; same_handles.
Qed.

Lemma connectSession_handles (r : Render) (env : SetupEnv) (st : State) :
  handles_issued st -> handles_issued (connectSession API_KEY r env st).
Proof.
  intros Hst. unfold connectSession.
  destruct (r_isConnecting r); [done|]. cbv zeta.
  assert (handles_issued (setError None (setIsConnecting true st))) as Hst'
    by (revert Hst; same_handles).
  pose proof (connect_try_handles r env _ Hst') as Htry.
  destruct (connect_try API_KEY r env _) as [st'|e st']; [done|].
  assert (handles_issued
            (cleanupAudio
               (setError
                  (Some (JS.or_else (JS.message e)
                           "Failed to start audio session.")) st')))
    as Hclean.
  { apply cleanupAudio_handles. revert Htry. same_handles. }
  revert Hclean. generalize (cleanupAudio
               (setError
                  (Some (JS.or_else (JS.message e)
                           "Failed to start audio session.")) st')).
  intros st2. same_handles.
Qed.

Lemma step_handles (ev : Event) (st : State) :
  handles_issued st -> handles_issued (step API_KEY ev st).
Proof.
  intros Hst. destruct ev; cbn [step].
  - destruct (isActive (ui st)); [done|]. revert Hst. same_handles.
  - destruct (isActive (ui st) || isConnecting (ui st)); [done|].
    by apply connectSession_handles.
  - destruct (isActive (ui st)); [|done]. revert Hst. same_handles.
  - destruct (isActive (ui st)); [|done].
    by apply disconnectSession_handles.
  - by apply disconnectSession_handles.
  - destruct (sessions (browser st) !! sid); [|done].
    by apply onopen_handles.
  - destruct (sessions (browser st) !! sid); [|done].
    by apply onmessage_handles.
  - destruct (sessions (browser st) !! sid); [|done].
    revert Hst. same_handles.
  - destruct (sessions (browser st) !! sid); [|done].
    apply disconnectSession_handles. revert Hst. same_handles.
  - by apply settle_handles.
  - destruct (nodes (browser st) !! node) as [[[| size [cl|] |] ctx outs]|];
      try done.
    case_decide; [|done].
    unfold onaudioprocess. destruct (negb (captured_isMicOn cl)).
    + revert Hst. same_handles.
    + apply promise_then_handles. revert Hst. same_handles.
  - case_decide; [|done]. apply update_handles.
    revert Hst. apply handles_frame; simpl; [lia| |done].
    intros h. by intros [Hh _]%elem_of_difference.
  - destruct (bufferSources (browser st) !! source) as [[b c [w|] s]|];
      try done.
    revert Hst. unfold onended. case_decide; same_handles.
Qed.

Lemma reachable_handles_issued (st : State) :
  reachable API_KEY st -> handles_issued st.
Proof.
  induction 1 as [|ev st _ IH].
  - split; [intros h Hh; by apply elem_of_empty in Hh|intros h [=]].
  - by apply step_handles.
Qed.

(** X12. A teardown stops the visual loop the component holds: in every
    state the component can reach, [cleanupAudio] clears
    [animationFrameRef] and cancels the frame it held, so that this frame
    never runs. *)
Theorem teardown_stops_visual_loop (st : State) :
  reachable API_KEY st ->
  let st' := cleanupAudio st in
  animationFrameRef (refs st') = None
  /\ forall h, animationFrameRef (refs st) = Some h ->
       (h ∉ rafPending (browser st'))
       /\ step API_KEY (AnimationFrame h) st' = st'.
Proof.
  intros Hreach st'. subst st'.
  destruct (reachable_handles_issued st Hreach) as [_ Href].
  assert (forall h, animationFrameRef (refs st) = Some h ->
            h ∉ rafPending (browser (cleanupAudio st))) as Hgone.
  { intros h Hh. rewrite cleanupAudio_closed_form. simpl. rewrite Hh.
    specialize (Href h Hh). destruct h as [|h]; [lia|].
    intros [_ Hout]%elem_of_difference. apply Hout.
    by apply elem_of_singleton. }
  split.
  - rewrite cleanupAudio_closed_form. simpl.
    destruct (animationFrameRef (refs st)) as [[|h]|] eqn:Hh; try done.
    specialize (Href 0 eq_refl). lia.
  - intros h Hh. split; [by apply Hgone|].
    cbn [step]. case_decide as Hin; [|done]. by apply Hgone in Hin.
Qed.

(** *** The microphone stream *)

Lemma orphaned_frame (old : nat) (st st' : State) :
  streams (browser st') = streams (browser st) ->
  streamRef (refs st') = streamRef (refs st) ->
  orphaned old st -> orphaned old st'.
Proof.
  unfold orphaned, is_live. intros -> ->. done.
Qed.

Ltac same_streams := apply orphaned_frame; reflexivity.

Lemma cleanupAudio_orphaned (old : nat) (st : State) :
  orphaned old st -> orphaned old (cleanupAudio st).
Proof.
  intros [Hlive Href]. rewrite cleanupAudio_closed_form.
  split; [|done]. unfold is_live. simpl.
  destruct (streamRef (refs st)) as [s|]; simpl; [|done].
  rewrite list_lookup_alter_ne; [done|congruence].
Qed.

Lemma finish_disconnect_orphaned (old : nat) (st : State) :
  orphaned old st -> orphaned old (finish_disconnect st).
Proof.
  intros Hst. apply cleanupAudio_orphaned in Hst. revert Hst.
  unfold finish_disconnect. generalize (cleanupAudio st). intros st'.
  same_streams.
Qed.

Lemma run_reaction_orphaned (old sid : nat) (outcome : PromiseState)
    (r : Reaction) (st : State) :
  orphaned old st -> orphaned old (run_reaction sid outcome r st).
Proof.
  intros Hst. destruct r as [media|], outcome; cbn [run_reaction];
    try done; by apply finish_disconnect_orphaned.
Qed.

Lemma fold_reactions_orphaned (old sid : nat) (outcome : PromiseState)
    (q : list Reaction) (st : State) :
  orphaned old st ->
  orphaned old
    (fold_left (fun st r => run_reaction sid outcome r st) q st).
Proof.
  revert st. induction q as [|r q IH]; intros st Hst; [done|].
  cbn [fold_left]. by apply IH, run_reaction_orphaned.
Qed.

Lemma promise_then_orphaned (old sid : nat) (r : Reaction) (st : State) :
  orphaned old st -> orphaned old (promise_then sid r st).
Proof.
  intros Hst. unfold promise_then.
  destruct (sessions (browser st) !! sid) as [s|]; [|done].
  destruct (promise s); try by apply run_reaction_orphaned.
  done.
Qed.

Lemma settle_orphaned (old sid : nat) (outcome : PromiseState)
    (st : State) :
  orphaned old st -> orphaned old (settle sid outcome st).
Proof.
  intros Hst. unfold settle.
  destruct (sessions (browser st) !! sid) as [s|]; [|done].
  destruct (promise s); try done.
  by apply fold_reactions_orphaned.
Qed.

Lemma disconnectSession_orphaned (old : nat) (st : State) :
  orphaned old st -> orphaned old (disconnectSession st).
Proof.
  intros Hst. unfold disconnectSession.
  destruct (sessionPromiseRef (refs st)) as [sid|].
  - by apply promise_then_orphaned.
  - by apply finish_disconnect_orphaned.
Qed.

Lemma onopen_orphaned (old : nat) (cl : AudioProcessClosure) (st : State) :
  orphaned old st -> orphaned old (onopen cl st).
Proof.
  apply orphaned_frame; unfold onopen; simpl;
    destruct (inputAudioContextRef (refs st)),
      (streamRef (refs st)) eqn:Hs; simpl; by rewrite ?Hs.
Qed.

Lemma onmessage_orphaned (old : nat) (now : R) (m : LiveServerMessage)
    (st : State) :
  orphaned old st -> orphaned old (onmessage now m st).
Proof.
  intros Hst. unfold onmessage.
  assert (orphaned old (onmessage_audio now m st)) as Hst'.
  { unfold onmessage_audio.
    destruct (audio_of m) as [base64Audio|]; [|done].
    destruct (outputAudioContextRef (refs st)) as [ctx|]; [|done].
    destruct (outputNodeRef (refs st)) as [outputNode|]; [|done].
    destruct (JS.truthy base64Audio); [|done].
    revert Hst. destruct (context_state ctx st) as [[| |]|]; same_streams. }
  revert Hst'. generalize (onmessage_audio now m st). clear Hst st.
  intros st Hst. unfold onmessage_interruption.
  destruct (content ← serverContent m; interrupted content) as [[|]|];
    try done.
  revert Hst. destruct (stop_each _ _); same_streams.
Qed.

(** A stream that is live stays live and fresh refs never point at it. *)
Lemma connect_try_orphaned (old : nat) (r : Render) (env : SetupEnv)
    (st : State) :
  is_live old st ->
  match connect_try API_KEY r env st with
  | Returned st' => orphaned old st'
  | Thrown _ st' =>
      is_live old st' /\ streamRef (refs st') = streamRef (refs st)
  end.
Proof.
  intros Hlive. unfold connect_try.
  destruct (negb (JS.truthy API_KEY)); [done|].
  destruct (new_input_context env) as [s_in|e1]; [|done].
  destruct (new_output_context env) as [s_out|e2]; [|done].
  destruct (getUserMedia env) as [[]|e3]; [|done].
  unfold orphaned, is_live in *. simpl. split.
  - by apply lookup_app_l_Some.
  - apply lookup_lt_Some in Hlive. intros [= Heq]. lia.
Qed.

Lemma connectSession_orphaned (old : nat) (r : Render) (env : SetupEnv)
    (st : State) :
  orphaned old st -> orphaned old (connectSession API_KEY r env st).
Proof.
  intros [Hlive Href]. unfold connectSession.
  destruct (r_isConnecting r); [done|]. cbv zeta.
  pose proof (connect_try_orphaned old r env
                (setError None (setIsConnecting true st)) Hlive) as Htry.
  destruct (connect_try API_KEY r env _) as [st'|e st']; [done|].
  destruct Htry as [Hlive' Href'].
  assert (orphaned old
            (cleanupAudio
               (setError
                  (Some (JS.or_else (JS.message e)
                           "Failed to start audio session.")) st')))
    as Hclean.
  { apply cleanupAudio_orphaned. split; [exact Hlive'|].
    cbn [refs setError]. by rewrite Href'. }
  revert Hclean. generalize (cleanupAudio
               (setError
                  (Some (JS.or_else (JS.message e)
                           "Failed to start audio session.")) st')).
  intros st2. same_streams.
Qed.

Lemma step_orphaned (old : nat) (ev : Event) (st : State) :
  orphaned old st -> orphaned old (step API_KEY ev st).
Proof.
  intros Hst. destruct ev; cbn [step].
  - by destruct (isActive (ui st)).
  - destruct (isActive (ui st) || isConnecting (ui st)); [done|].
    by apply connectSession_orphaned.
  - by destruct (isActive (ui st)).
  - destruct (isActive (ui st)); [|done].
    by apply disconnectSession_orphaned.
  - by apply disconnectSession_orphaned.
  - destruct (sessions (browser st) !! sid); [|done].
    by apply onopen_orphaned.
  - destruct (sessions (browser st) !! sid); [|done].
    by apply onmessage_orphaned.
  - by destruct (sessions (browser st) !! sid).
  - destruct (sessions (browser st) !! sid); [|done].
    by apply disconnectSession_orphaned.
  - by apply settle_orphaned.
  - destruct (nodes (browser st) !! node) as [[[| size [cl|] |] ctx outs]|];
      try done.
    case_decide; [|done].
    unfold onaudioprocess. destruct (negb (captured_isMicOn cl)); [done|].
    by apply promise_then_orphaned.
  - by case_decide.
  - destruct (bufferSources (browser st) !! source) as [[b c [w|] s]|];
      try done.
    revert Hst. unfold onended. by case_decide.
Qed.

Lemma run_orphaned (old : nat) (evs : list Event) (st : State) :
  orphaned old st -> orphaned old (run API_KEY evs st).
Proof.
  revert st. induction evs as [|ev evs IH]; intros st Hst; [done|].
  apply (IH (step API_KEY ev st)). by apply step_orphaned.
Qed.

(** X13. A microphone stream that the component still holds when a new
    conversation is started is never stopped: the new stream replaces it
    in [streamRef], and no later event, teardown and unmount included,
    reaches the old one; its tracks stay live. *)
Theorem replaced_stream_stays_live (st : State) (old : nat)
    (s_in s_out : ContextState) (evs : list Event) :
  JS.truthy API_KEY = true ->
  isActive (ui st) = false ->
  isConnecting (ui st) = false ->
  streamRef (refs st) = Some old ->
  is_live old st ->
  let env := {| new_input_context := Succeeds s_in;
                new_output_context := Succeeds s_out;
                getUserMedia := Succeeds tt |} in
  is_live old (run API_KEY (ClickStart env :: evs) st).
Proof.
  intros Hkey Hact Hcon Href Hlive env.
  change (run API_KEY (ClickStart env :: evs) st)
    with (run API_KEY evs (step API_KEY (ClickStart env) st)).
  apply run_orphaned. cbn [step]. rewrite Hact, Hcon. cbn [orb].
  unfold connectSession. cbn [render r_isConnecting]. rewrite Hcon.
  cbv zeta.
  pose proof (connect_try_orphaned old (render st) env
                (setError None (setIsConnecting true st)) Hlive) as Htry.
  unfold connect_try in *. rewrite Hkey in *. by simpl in *.
Qed.

End ResourceFacts.
(** ** [LiveVoice]: starting, and starting again *)

Section StartFacts.

Import LiveVoice LiveVoiceSpec LiveVoiceView Behaviour.

Context (API_KEY : string) `{U : AudioUtils}.

Lemma or_else_truthy (m : option string) (fallback : string) :
  JS.truthy fallback = true -> JS.truthy (JS.or_else m fallback) = true.
Proof.
  intros Hf. unfold JS.or_else. destruct m as [s|]; [|done].
  by destruct (JS.truthy s) eqn:Hs.
Qed.

(** What a set-up in which nothing throws shows. *)
Lemma connectSession_succeeds_ui (r : Render) (st : State)
    (s_in s_out : ContextState) :
  JS.truthy API_KEY = true ->
  r_isConnecting r = false ->
  let env := {| new_input_context := Succeeds s_in;
                new_output_context := Succeeds s_out;
                getUserMedia := Succeeds tt |} in
  let st' := connectSession API_KEY r env st in
  error (ui st') = None
  /\ isConnecting (ui st') = true
  /\ isActive (ui st') = isActive (ui st)
  /\ streamRef (refs st') = Some (length (streams (browser st)))
  /\ is_live (length (streams (browser st))) st'.
Proof.
  intros Hkey Hcon env st'. subst st' env.
  unfold connectSession, connect_try. rewrite Hcon, Hkey. simpl.
  repeat split. unfold is_live. simpl.
  rewrite lookup_app_r by lia. by rewrite Nat.sub_diag.
Qed.

(** X14. A set-up that throws can be tried again.  After the failure the
    set-up screen shows the message in its banner and the start button is
    enabled; a second click, with a platform that now grants everything,
    removes the banner, disables the button while connecting and opens
    one session on a fresh, live microphone stream. *)
Theorem failed_setup_can_be_retried (st stt : State) (env : SetupEnv)
    (e : JS.Error) (s_in s_out : ContextState) :
  reachable API_KEY st ->
  JS.truthy API_KEY = true ->
  isActive (ui st) = false ->
  isConnecting (ui st) = false ->
  connect_try API_KEY (render st) env
    (setError None (setIsConnecting true st)) = Thrown e stt ->
  let st1 := step API_KEY (ClickStart env) st in
  let again := {| new_input_context := Succeeds s_in;
                  new_output_context := Succeeds s_out;
                  getUserMedia := Succeeds tt |} in
  let st2 := step API_KEY (ClickStart again) st1 in
  (screen st1 = SetupScreen
   /\ errorBanner st1
      = Some (JS.or_else (JS.message e) "Failed to start audio session.")
   /\ startDisabled st1 = false)
  /\ (screen st2 = SetupScreen
      /\ errorBanner st2 = None
      /\ startDisabled st2 = true
      /\ length (sessions (browser st2)) = S (length (sessions (browser st)))
      /\ sessionPromiseRef (refs st2) = Some (length (sessions (browser st)))
      /\ exists stream,
           streamRef (refs st2) = Some stream /\ is_live stream st2).
Proof.
  intros Hreach Hkey Hact Hcon Htry st1 again st2.
  pose proof (reachable_well_formed API_KEY st Hreach) as Hwf.
  destruct (setup_failure API_KEY st stt env e Hwf Hact Hcon Htry)
    as (Herr & [Hidle _] & Hlen).
  fold st1 in Herr, Hidle, Hlen.
  pose proof (idle_active st1 Hidle) as Hact1.
  pose proof (idle_connecting st1 Hidle) as Hcon1.
  split.
  { unfold screen, errorBanner, startDisabled.
    rewrite Hact1, Hcon1, Herr, or_else_truthy; done. }
  assert (st2 = connectSession API_KEY (render st1) again st1) as Hst2.
  { subst st2. cbn [step]. by rewrite Hact1, Hcon1. }
  destruct (connectSession_succeeds API_KEY (render st1) st1 s_in s_out
              Hkey Hcon1) as [Hses Href].
  destruct (connectSession_succeeds_ui (render st1) st1 s_in s_out
              Hkey Hcon1) as (Herr2 & Hcon2 & Hact2 & Hstream & Hlive).
  fold again in Hses, Href, Herr2, Hcon2, Hact2, Hstream, Hlive.
  rewrite <- Hst2 in Hses, Href, Herr2, Hcon2, Hact2, Hstream, Hlive.
  unfold screen, errorBanner, startDisabled.
  rewrite Hact2, Hact1, Herr2, Hcon2, Hses, Href, length_app, Hlen.
  repeat split; try done.
  - simpl. lia.
  - eauto.
Qed.

Lemma alter_first_of_two {A} (f : A -> A) (l : list A) (a b : A) :
  alter f (length l) ((l ++ [a]) ++ [b]) = (l ++ [f a]) ++ [b].
Proof.
  rewrite alter_app_l by (rewrite length_app; simpl; lia).
  by rewrite alter_fresh.
Qed.

Lemma alter_second_of_two {A} (f : A -> A) (l : list A) (a b : A) :
  alter f (S (length l)) ((l ++ [a]) ++ [b]) = (l ++ [a]) ++ [f b].
Proof.
  replace (S (length l)) with (length (l ++ [a]))
    by (rewrite length_app; simpl; lia).
  apply alter_fresh.
Qed.

(** X15. [onopen] wires the capture graph and the browser then delivers
    to the callback of the session that opened: the source of the
    microphone stream feeds a script processor of 4096 samples, which
    feeds the destination of the input context; a block of 4096 samples
    on that processor runs [onaudioprocess] with the microphone flag of
    the render that started the session and with that session's promise;
    a block of another size runs nothing. *)
Theorem opened_session_captures (st : State) (sid ctx stream : nat)
    (s : Session) (inputData : list R) :
  sessions (browser st) !! sid = Some s ->
  inputAudioContextRef (refs st) = Some ctx ->
  streamRef (refs st) = Some stream ->
  let st1 := step API_KEY (SessionOpen sid) st in
  let source := length (nodes (browser st)) in
  let processor := S source in
  let cl := {| captured_isMicOn := callbacks_isMicOn s;
               captured_sessionPromise := sid |} in
  nodes (browser st1)
  = nodes (browser st)
    ++ [ {| kind := MediaStreamSource stream; context := ctx;
            outputs := [ToNode processor] |};
         {| kind := ScriptProcessor 4096 (Some cl); context := ctx;
            outputs := [ToContextDestination ctx] |} ]
  /\ inputSourceRef (refs st1) = Some source
  /\ processorRef (refs st1) = Some processor
  /\ screen st1 = ActiveScreen
  /\ step API_KEY (AudioProcess processor inputData) st1
     = if decide (length inputData = 4096)
       then onaudioprocess cl inputData st1
       else st1.
Proof.
  intros Hs Hctx Hstream st1 source processor cl.
  assert (nodes (browser st1)
          = nodes (browser st)
            ++ [ {| kind := MediaStreamSource stream; context := ctx;
                    outputs := [ToNode processor] |};
                 {| kind := ScriptProcessor 4096 (Some cl); context := ctx;
                    outputs := [ToContextDestination ctx] |} ]) as Hnodes.
  { subst st1 processor source cl. cbn [step]. rewrite Hs. unfold onopen.
    simpl. rewrite Hctx, Hstream. simpl.
    unfold connect, set_onaudioprocess. simpl.
    rewrite !length_app. simpl. rewrite !Nat.add_1_r.
    rewrite alter_second_of_two, alter_first_of_two, alter_second_of_two.
    by rewrite <- app_assoc. }
  split; [exact Hnodes|].
  assert (inputSourceRef (refs st1) = Some source
          /\ processorRef (refs st1) = Some processor
          /\ isActive (ui st1) = true) as (Hsource & Hproc & Hact).
  { subst st1 processor source. cbn [step]. rewrite Hs. unfold onopen.
    simpl. rewrite Hctx, Hstream. simpl.
    rewrite !length_app. simpl. by rewrite ?Nat.add_1_r. }
  split; [exact Hsource|]. split; [exact Hproc|].
  split; [unfold screen; by rewrite Hact|].
  cbn [step]. rewrite Hnodes.
  replace processor with (length (nodes (browser st)) + 1)
    by (subst processor source; lia).
  rewrite lookup_app_r by lia.
  replace (length (nodes (browser st)) + 1 - length (nodes (browser st)))
    with 1 by lia.
  reflexivity.
Qed.

End StartFacts.
(** ** The level meter: silence *)

Section MeterFacts.

Import Volume.
Local Open Scope R_scope.

Lemma sum_of_squares_zero (l : list R) :
  sum_of_squares l = 0 <-> Forall (fun x => x = 0) l.
Proof.
  induction l as [|x l IH]; simpl.
  - split; [constructor|done].
  - pose proof (sum_of_squares_nonneg l) as Hl.
    pose proof (Rle_0_sqr x) as Hx. unfold Rsqr in Hx.
    split.
    + intros H0. constructor.
      * apply Rsqr_0_uniq. unfold Rsqr. lra.
      * apply IH. lra.
    + intros Hall. apply Forall_cons in Hall as [-> Hall].
      apply IH in Hall. rewrite Hall. lra.
Qed.

(** X16. The meter reads 0 exactly for a block whose sampled values
    (every fourth one) are all 0: any other block of the processor moves
    the displayed level. *)
Theorem meter_zero_iff_silent (n : nat) (data : list R) :
  length data = (4 * n)%nat -> (0 < n)%nat ->
  level data = 0 <-> Forall (fun x => x = 0) (every_fourth data).
Proof.
  intros Hlen Hn. rewrite (level_is_scaled_rms n data Hlen).
  unfold root_mean_square. rewrite (length_every_fourth n data Hlen).
  rewrite <- sum_of_squares_zero.
  pose proof (sum_of_squares_nonneg (every_fourth data)) as Hs.
  assert (0 < INR n) as HN by (apply lt_0_INR; lia).
  assert (0 <= sum_of_squares (every_fourth data) / INR n) as Hq.
  { apply Rmult_le_pos; [done|]. left. by apply Rinv_0_lt_compat. }
  pose proof (sqrt_pos (sum_of_squares (every_fourth data) / INR n)) as Hr.
  split.
  - intros Hmin.
    assert (sqrt (sum_of_squares (every_fourth data) / INR n) = 0) as H0.
    { revert Hmin. unfold Rmin. destruct (Rle_dec _ _); lra. }
    apply sqrt_eq_0 in H0; [|done].
    apply (Rmult_eq_compat_r (INR n)) in H0.
    unfold Rdiv in H0. rewrite Rmult_assoc, Rinv_l in H0; lra.
  - intros ->. unfold Rdiv. rewrite Rmult_0_l, sqrt_0, Rmult_0_l.
    apply Rmin_left. lra.
Qed.

End MeterFacts.
(** ** [ChatInterface]: the guard, and several turns *)

Section ConversationFacts.

Import ChatInterface Conversation.

Lemma trim_start_blank (s : string) :
  Forall (fun c => JS.is_space c = true) (list_ascii_of_string s) ->
  JS.trim_start s = EmptyString.
Proof.
  induction s as [|c s IH]; simpl; [done|].
  intros Hall. apply Forall_cons in Hall as [-> Hall]. by apply IH.
Qed.

(** X17. A submission of white space only is ignored: no message is
    appended, no request is made, the input is not cleared. *)
Theorem blank_submission_ignored (clock : Clock) (s : Stream) (st : State) :
  Forall (fun c => JS.is_space c = true) (list_ascii_of_string (input st)) ->
  handleSubmit (render st) clock s st = st.
Proof.
  intros Hblank. unfold handleSubmit, rejected. cbn [render r_input].
  unfold JS.trim. by rewrite (trim_start_blank _ Hblank).
Qed.

Lemma turn_without_chat (t : Turn) (st : State) :
  chatRef st = None -> turn t st = setInput (typed t) st.
Proof.
  intros Hc. unfold turn, handleSubmit, rejected. cbn [chatRef setInput].
  rewrite Hc. cbn [bool_decide]. 
  replace (bool_decide (is_Some (@None Chat))) with false; [|symmetry].
  - by rewrite orb_true_r.
  - apply bool_decide_eq_false. by intros [? ?].
Qed.

(** X18. Without an API key in the environment no chat is created, and
    the panel then never shows a message: whatever the user types and
    submits, the list stays empty and nothing is loading. *)
Theorem no_key_no_conversation (env_API_KEY : option string)
    (config : ModelConfig) (ts : list Turn) :
  JS.truthy (default EmptyString env_API_KEY) = false ->
  let st := converse ts (initialize env_API_KEY config initial) in
  messages st = [] /\ chatRef st = None /\ isLoading st = false.
Proof.
  intros Hkey st.
  assert (initialize env_API_KEY config initial = initial) as Hinit.
  { unfold initialize. destruct env_API_KEY as [key|]; [|done].
    simpl in Hkey. by rewrite Hkey. }
  subst st. rewrite Hinit.
  assert (forall st0, chatRef st0 = None ->
            messages (converse ts st0) = messages st0
            /\ chatRef (converse ts st0) = None
            /\ isLoading (converse ts st0) = isLoading st0) as Hall.
  { induction ts as [|t ts IH]; intros st0 Hc; [done|].
    unfold converse in *. cbn [fold_left].
    rewrite (turn_without_chat t st0 Hc).
    apply (IH (setInput (typed t) st0)). exact Hc. }
  apply (Hall initial). reflexivity.
Qed.

Lemma consume_keeps_loading (key : string)
    (cs : list GenerateContentResponse) (acc : string * State) :
  isLoading (snd (consume key cs acc)) = isLoading (snd acc)
  /\ chatRef (snd (consume key cs acc)) = chatRef (snd acc).
Proof.
  revert acc. induction cs as [|c cs IH]; intros [fullText st]; [done|].
  rewrite consume_cons. destruct (IH (on_chunk key c (fullText, st)))
    as [-> ->].
  unfold on_chunk. destruct (chunk_text c) as [t|]; [|done].
  by destruct (JS.truthy t).
Qed.

(** X19. One request at a time: while the reply to an accepted
    submission is streaming, whatever the user types and submits is
    dropped; only the input box changes, and the chat receives no second
    request. *)
Theorem one_request_in_flight (r : Render) (clock : Clock) (s : Stream)
    (n : nat) (st : State) (t : Turn) :
  rejected r st = false ->
  let mid := streaming r clock s n st in
  isLoading mid = true
  /\ turn t mid = setInput (typed t) mid
  /\ chatRef (turn t mid) = chatRef mid
  /\ messages (turn t mid) = messages mid.
Proof.
  intros Hok mid.
  assert (isLoading mid = true) as Hload.
  { subst mid. unfold streaming.
    destruct (consume_keeps_loading (tempBotMessageId clock)
                (take n (chunks s))
                (EmptyString,
                 sendMessageStream (text (userMessage r clock))
                   (submit r clock st))) as [-> _].
    cbn [snd]. unfold sendMessageStream.
    by destruct (chatRef (submit r clock st)). }
  assert (turn t mid = setInput (typed t) mid) as Hturn.
  { unfold turn, handleSubmit, rejected.
    cbn [render r_isLoading setInput isLoading]. rewrite Hload.
    by rewrite orb_true_r. }
  split; [done|]. split; [done|]. by rewrite Hturn.
Qed.

Lemma map_id_fresh (key : string) (f : ChatMessage -> ChatMessage)
    (old : list ChatMessage) (u b : ChatMessage) :
  Forall (fun m => id m <> key) old -> id u <> key -> id b = key ->
  map_id key f (old ++ [u; b]) = old ++ [u; f b].
Proof.
  intros Hold Hu Hb. unfold map_id. rewrite map_app. f_equal.
  - induction Hold as [|m old Hm _ IH]; [done|]. simpl. rewrite IH.
    by apply String.eqb_neq in Hm as ->.
  - simpl. apply String.eqb_neq in Hu as ->.
    by rewrite Hb, String.eqb_refl.
Qed.

(** The loop over the stream, on the whole list: only the placeholder
    changes. *)
Lemma consume_messages (key : string) (cs : list GenerateContentResponse)
    (fullText : string) (st : State) (old : list ChatMessage)
    (u b : ChatMessage) :
  Forall (fun m => id m <> key) old -> id u <> key -> id b = key ->
  messages st = old ++ [u; with_text fullText b] ->
  let result := consume key cs (fullText, st) in
  messages (snd result)
  = old ++ [u; with_text (fullText ++ joined cs)%string b]
  /\ input (snd result) = input st
  /\ aiRef (snd result) = aiRef st.
Proof.
  intros Hold Hu Hb. revert fullText st.
  induction cs as [|c cs IH]; intros fullText st Hmsgs.
  - simpl. by rewrite append_empty_r.
  - rewrite consume_cons. unfold on_chunk. cbn [joined fold_right].
    destruct (chunk_text c) as [t|]; cbn [default].
    + destruct (JS.truthy t) eqn:Htruthy.
      * specialize (IH (fullText ++ t)%string
                      (setMessages
                         (map_id key (with_text (fullText ++ t)%string)
                            (messages st)) st)).
        rewrite <- append_assoc. apply IH. cbn [messages setMessages].
        rewrite Hmsgs, (map_id_fresh key _ old u _ Hold Hu); [|done].
        by rewrite with_text_with_text.
      * destruct t; [|discriminate]. by apply IH.
    + by apply IH.
Qed.

(** One accepted turn, on the whole state. *)
Lemma turn_accepted (t : Turn) (st : State) (c : Chat) :
  chatRef st = Some c -> isLoading st = false ->
  JS.truthy (JS.trim (typed t)) = true ->
  Forall (fun m => id m <> pretty (now_bot (clock t) + 1)%Z) (messages st) ->
  (now_user (clock t) <= now_bot (clock t))%Z ->
  turn t st
  = {| messages := messages st ++ exchange t; input := EmptyString;
       isLoading := false; aiRef := aiRef st;
       chatRef := Some {| chat_model := chat_model c;
                          requests := requests c ++ [typed t] |} |}.
Proof.
  intros Hc Hload Htyped Hold Hclock.
  unfold turn.
  assert (render (setInput (typed t) st)
          = {| r_input := typed t; r_isLoading := false |}) as ->.
  { unfold render. cbn [setInput input isLoading]. by rewrite Hload. }
  set (r := {| r_input := typed t; r_isLoading := false |}).
  unfold handleSubmit, rejected.
  cbn [r r_input r_isLoading setInput chatRef].
  rewrite Htyped, Hc.
  replace (bool_decide (is_Some (Some c))) with true
    by (symmetry; apply bool_decide_eq_true; eauto).
  cbn [negb orb]. fold r.
  set (st0 := sendMessageStream (text (userMessage r (clock t)))
                (submit r (clock t) (setInput (typed t) st))).
  assert (id (userMessage r (clock t)) <> tempBotMessageId (clock t)) as Hu.
  { unfold tempBotMessageId. simpl. intros Heq.
    apply (inj pretty) in Heq. lia. }
  destruct (consume_messages (tempBotMessageId (clock t))
              (chunks (stream t)) EmptyString st0 (messages st)
              (userMessage r (clock t)) (tempBotMessage (clock t))
              Hold Hu eq_refl) as (Hmsgs & Hin & Hai).
  { subst st0. unfold sendMessageStream, submit. simpl. by rewrite Hc. }
  assert (chatRef (snd (consume (tempBotMessageId (clock t))
                          (chunks (stream t)) (EmptyString, st0)))
          = Some {| chat_model := chat_model c;
                    requests := requests c ++ [typed t] |}) as Hchat.
  { destruct (consume_keeps_loading (tempBotMessageId (clock t))
                (chunks (stream t)) (EmptyString, st0)) as [_ ->].
    subst st0. unfold sendMessageStream, submit. simpl. by rewrite Hc. }
  destruct (consume (tempBotMessageId (clock t)) (chunks (stream t))
              (EmptyString, st0)) as [fullText st1].
  cbn [snd] in *.
  assert (input st1 = EmptyString /\ aiRef st1 = aiRef st) as [Hin' Hai'].
  { rewrite Hin, Hai. subst st0. unfold sendMessageStream, submit. simpl.
    by rewrite Hc. }
  unfold exchange, reply_text, failure_text.
  destruct (failure (stream t)) as [e|];
    unfold setIsLoading, setMessages; cbn [messages input isLoading aiRef
      chatRef];
    rewrite Hmsgs, Hin', Hai', Hchat,
      (map_id_fresh _ _ (messages st) (userMessage r (clock t)) _ Hold Hu)
      by done;
    reflexivity.
Qed.

(** X20. A conversation of several turns, each with an input that is not
    blank, on a clock that advances: the panel shows the earlier messages
    followed, turn by turn, by the user's message and the finished reply
    (the joined chunks, or the error text where the stream failed); the
    chat has received the inputs in order, one request per turn; nothing
    is loading at the end. *)
Theorem conversation_transcript (ts : list Turn) (st : State) (c : Chat)
    (last : Z) :
  chatRef st = Some c -> isLoading st = false ->
  Forall (fun t => JS.truthy (JS.trim (typed t)) = true) ts ->
  ids_below (last + 2) (messages st) ->
  clocks_advance last ts ->
  let st' := converse ts st in
  messages st' = messages st ++ flat_map exchange ts
  /\ chatRef st'
     = Some {| chat_model := chat_model c;
               requests := requests c ++ map typed ts |}
  /\ isLoading st' = false.
Proof.
  revert st c last.
  induction ts as [|t ts IH]; intros st c last Hc Hload Htyped Hids Hclock.
  - simpl. rewrite !app_nil_r. destruct c. by rewrite Hc.
  - apply Forall_cons in Htyped as [Ht Htyped].
    destruct Hclock as (Hlast & Hbot & Hclock).
    assert (Forall (fun m => id m <> pretty (now_bot (clock t) + 1)%Z)
              (messages st)) as Hfresh.
    { eapply Forall_impl; [exact Hids|]. intros m (z & -> & Hz) Heq.
      apply (inj pretty) in Heq. lia. }
    pose proof (turn_accepted t st c Hc Hload Ht Hfresh Hbot) as Hturn.
    unfold converse in *. cbn [fold_left]. rewrite Hturn.
    set (st1 := {| messages := messages st ++ exchange t;
                   input := EmptyString; isLoading := false;
                   aiRef := aiRef st;
                   chatRef :=
                     Some {| chat_model := chat_model c;
                             requests := requests c ++ [typed t] |} |}).
    destruct (IH st1 {| chat_model := chat_model c;
                        requests := requests c ++ [typed t] |}
                (now_bot (clock t)) eq_refl eq_refl Htyped)
      as (Hm & Hch & Hl).
    + unfold ids_below. subst st1. cbn [messages].
      apply Forall_app. split.
      * eapply Forall_impl; [exact Hids|]. intros m (z & Hz & Hlt).
        exists z. split; [done|lia].
      * unfold exchange. repeat constructor; simpl; eexists; split;
          try reflexivity; lia.
    + exact Hclock.
    + cbv zeta in Hm, Hch, Hl. rewrite Hm, Hch, Hl.
      subst st1. cbn [messages chat_model requests flat_map map].
      by rewrite <- !app_assoc.
Qed.

End ConversationFacts.
(** ** Instances of the further properties *)

Section MoreExamples.

Import LiveVoice LiveVoiceSpec LiveVoiceView Behaviour.

(** An instance: the end button of the open conversation. *)
Lemma ending_conversation_witness :
  reachable (H := Samples.utils) Samples.key Samples.talking
  /\ promise_of 0 Samples.talking = Some fulfilled
  /\ torn_down Samples.talking
       (step (H := Samples.utils) Samples.key ClickEnd Samples.talking).
Proof.
  split; [exact talking_reachable|]. split; [reflexivity|].
  exact (proj1
    (ending_conversation Samples.key (U := Samples.utils) Samples.talking 0
       talking_reachable eq_refl eq_refl eq_refl)).
Defined.

(** An instance: the constant left empty. *)
Lemma connect_without_key_witness :
  JS.truthy EmptyString = false
  /\ isConnecting
       (ui (connectSession EmptyString (render initial) Samples.granted
              initial)) = false.
Proof.
  split; [reflexivity|].
  exact (proj1 (proj2
    (connect_without_key EmptyString (render initial) Samples.granted
       initial eq_refl eq_refl))).
Defined.

(** An instance: a new instruction, a mute and the end button do not
    reach the session of the open conversation. *)
Lemma session_is_fixed_witness :
  exists s s',
    sessions (browser Samples.talking) !! 0 = Some s
    /\ sessions (browser
         (run (H := Samples.utils) Samples.key
            [ClickMic; ClickEnd; ChangeInstruction "You are a pirate."]
            Samples.talking)) !! 0 = Some s'
    /\ config s' = config s
    /\ callbacks_isMicOn s' = callbacks_isMicOn s.
Proof.
  eexists.
  destruct (session_is_fixed Samples.key (U := Samples.utils)
              [ClickMic; ClickEnd; ChangeInstruction "You are a pirate."]
              Samples.talking 0 _ eq_refl) as (s' & Hs' & Hc & Hm & _).
  exists s'. split; [reflexivity|]. split; [exact Hs'|].
  split; [exact Hc|exact Hm].
Defined.

(** An instance: the first buffer of a reply. *)
Lemma speaking_only_while_tracked_witness :
  let st :=
    run (H := Samples.utils) Samples.key
      [SessionMessage 0 0%R (Samples.audio "abcd")] Samples.talking in
  reachable (H := Samples.utils) Samples.key st
  /\ isAiSpeaking (ui st) = true
  /\ exists source s,
       source ∈ sourcesRef (refs st)
       /\ bufferSources (browser st) !! source = Some s
       /\ stopped s = false.
Proof.
  intros st.
  assert (reachable (H := Samples.utils) Samples.key st) as Hreach
    by (apply reachable_run, talking_reachable).
  split; [exact Hreach|]. split; [reflexivity|].
  destruct (speaking_only_while_tracked Samples.key (U := Samples.utils) st
              Hreach eq_refl) as [[source Hin] Hall].
  destruct (Hall source Hin) as (s & Hs & _ & Hstop).
  exists source, s. split; [exact Hin|]. split; [exact Hs|exact Hstop].
Defined.

(** An instance: the only buffer of a reply ends. *)
Lemma playback_ends_witness :
  let st :=
    run (H := Samples.utils) Samples.key
      [SessionMessage 0 0%R (Samples.audio "abcd")] Samples.talking in
  sourcesRef (refs st) = {[ 0 ]}
  /\ isAiSpeaking (ui st) = true
  /\ isAiSpeaking (ui (all_ended [0] st)) = false.
Proof.
  intros st.
  assert (sourcesRef (refs st) = {[ 0 ]}) as Hsrc by (vm_compute; reflexivity).
  split; [exact Hsrc|]. split; [reflexivity|].
  refine (proj1 (proj2 (playback_ends [0] st _ _))).
  - discriminate.
  - intros id Hid. rewrite Hsrc in Hid.
    apply elem_of_singleton in Hid as ->. apply elem_of_cons. by left.
Defined.

(** An instance: audio arriving before any conversation. *)
Lemma idle_ignores_messages_witness :
  idle initial
  /\ onmessage (H := Samples.utils) 0%R (Samples.audio "abcd") initial
     = initial.
Proof.
  assert (idle initial) as Hidle
    by (constructor; try reflexivity; intros h; discriminate).
  split; [exact Hidle|].
  exact (idle_ignores_messages (U := Samples.utils) 0%R
           (Samples.audio "abcd") initial Hidle).
Defined.

(** An instance: the open conversation. *)
Lemma view_within_range_witness :
  reachable (H := Samples.utils) Samples.key Samples.talking
  /\ (1 <= blobScale Samples.talking <= 2.5)%R.
Proof.
  split; [exact talking_reachable|].
  exact (proj1
    (view_within_range Samples.key (U := Samples.utils) Samples.talking
       talking_reachable)).
Defined.

(** An instance: the loop started by [onopen]. *)
Lemma teardown_stops_visual_loop_witness :
  reachable (H := Samples.utils) Samples.key Samples.talking
  /\ animationFrameRef (refs Samples.talking) = Some 1
  /\ animationFrameRef (refs (cleanupAudio Samples.talking)) = None
  /\ 1 ∉ rafPending (browser (cleanupAudio Samples.talking)).
Proof.
  split; [exact talking_reachable|]. split; [reflexivity|].
  destruct (teardown_stops_visual_loop Samples.key (U := Samples.utils)
              Samples.talking talking_reachable) as [Hnone Hgone].
  split; [exact Hnone|]. exact (proj1 (Hgone 1 eq_refl)).
Defined.

(** An instance: the server closes the session, the user starts another
    conversation, ends it and leaves the page; the first microphone
    stream is still live. *)
Lemma replaced_stream_stays_live_witness :
  let st :=
    run (H := Samples.utils) Samples.key
      [ClickStart Samples.granted; SessionOpen 0; SessionClose 0] initial in
  reachable (H := Samples.utils) Samples.key st
  /\ screen st = SetupScreen
  /\ streamRef (refs st) = Some 0
  /\ is_live 0
       (run (H := Samples.utils) Samples.key
          [ClickStart Samples.granted; SessionOpen 1; ClickEnd; Unmount]
          st).
Proof.
  intros st.
  split; [apply reachable_run; constructor|].
  split; [reflexivity|]. split; [reflexivity|].
  exact (replaced_stream_stays_live Samples.key (U := Samples.utils) st 0
           running running [SessionOpen 1; ClickEnd; Unmount]
           eq_refl eq_refl eq_refl eq_refl eq_refl).
Defined.

(** An instance: the microphone is refused, then granted. *)
Lemma failed_setup_can_be_retried_witness :
  let st1 :=
    step (H := Samples.utils) Samples.key (ClickStart Samples.denied)
      initial in
  let st2 :=
    step (H := Samples.utils) Samples.key (ClickStart Samples.granted) st1 in
  errorBanner st1 = Some "Permission denied"%string
  /\ startDisabled st1 = false
  /\ errorBanner st2 = None
  /\ length (sessions (browser st2)) = 1.
Proof.
  intros st1 st2.
  destruct (failed_setup_can_be_retried Samples.key (U := Samples.utils)
              initial
              (set_outputNodeRef (Some 0)
                 (connect 0 (ToContextDestination 1)
                    (snd (createGain 1
                       (set_outputAudioContextRef (Some 1)
                          (snd (new_AudioContext 24000 running
                             (set_inputAudioContextRef (Some 0)
                                (snd (new_AudioContext 16000 running
                                   (set_aiRef (Some {| apiKey := Samples.key |})
                                      (setError None
                                         (setIsConnecting true
                                            initial)))))))))))))
              Samples.denied
              {| JS.message := Some "Permission denied"%string |}
              running running
              (reachable_initial Samples.key) eq_refl eq_refl eq_refl eq_refl)
    as [(_ & Hbanner & Hstart) (_ & Hbanner2 & _ & Hlen & _)].
  split; [exact Hbanner|]. split; [exact Hstart|].
  split; [exact Hbanner2|exact Hlen].
Defined.

(** An instance: the session of a first conversation opens. *)
Lemma opened_session_captures_witness :
  let st :=
    run (H := Samples.utils) Samples.key [ClickStart Samples.granted]
      initial in
  let st1 := step (H := Samples.utils) Samples.key (SessionOpen 0) st in
  inputAudioContextRef (refs st) = Some 0
  /\ streamRef (refs st) = Some 0
  /\ inputSourceRef (refs st1) = Some 1
  /\ processorRef (refs st1) = Some 2.
Proof.
  intros st st1.
  split; [reflexivity|]. split; [reflexivity|].
  destruct (opened_session_captures Samples.key (U := Samples.utils) st 0 0
              0 _ Samples.loud eq_refl eq_refl eq_refl)
    as (_ & Hsource & Hproc & _).
  split; [exact Hsource|exact Hproc].
Defined.

(** An instance: four samples of silence. *)
Lemma meter_zero_iff_silent_witness :
  length (repeat 0%R 4) = 4 * 1
  /\ Volume.level (repeat 0%R 4) = 0%R.
Proof.
  split; [reflexivity|].
  apply (proj2 (meter_zero_iff_silent 1 (repeat 0%R 4) eq_refl
                  (Nat.lt_0_succ 0))).
  repeat constructor.
Defined.

End MoreExamples.

Section MoreChatExamples.

Import ChatInterface Conversation.

(** An instance: two spaces. *)
Lemma blank_submission_ignored_witness :
  let config := {| modelName := "gemini"; displayName := "Gemini";
                   description := "chat"; color := blue |} in
  let st := setInput "  " (initialize (Some "key"%string) config initial) in
  let clock := {| now_user := 1000; date_user := 1000; now_bot := 1000;
                  date_bot := 1000 |} in
  let s := {| chunks := [ {| chunk_text := Some "hello"%string |} ];
              failure := None |} in
  handleSubmit (render st) clock s st = st.
Proof.
  intros config st clock s.
  apply (blank_submission_ignored clock s st).
  repeat constructor.
Defined.

(** An instance: no key in the environment, one turn. *)
Lemma no_key_no_conversation_witness :
  let config := {| modelName := "gemini"; displayName := "Gemini";
                   description := "chat"; color := blue |} in
  let t := {| typed := "hi";
              clock := {| now_user := 1000; date_user := 1000;
                          now_bot := 1000; date_bot := 1000 |};
              stream := {| chunks := [ {| chunk_text := Some "hello"%string |} ];
                           failure := None |} |} in
  messages (converse [t] (initialize None config initial)) = [].
Proof.
  intros config t.
  exact (proj1 (no_key_no_conversation None config [t] eq_refl)).
Defined.

(** An instance: a second submission after the first chunk. *)
Lemma one_request_in_flight_witness :
  let config := {| modelName := "gemini"; displayName := "Gemini";
                   description := "chat"; color := blue |} in
  let st := setInput "hi" (initialize (Some "key"%string) config initial) in
  let clock := {| now_user := 1000; date_user := 1000; now_bot := 1000;
                  date_bot := 1000 |} in
  let s := {| chunks := [ {| chunk_text := Some "hel"%string |};
                          {| chunk_text := Some "lo"%string |} ];
              failure := None |} in
  let t := {| typed := "more"; clock := clock; stream := s |} in
  let mid := streaming (render st) clock s 1 st in
  rejected (render st) st = false
  /\ messages (turn t mid) = messages mid.
Proof.
  intros config st clock s t mid.
  split; [reflexivity|].
  exact (proj2 (proj2 (proj2
    (one_request_in_flight (render st) clock s 1 st t eq_refl)))).
Defined.

(** An instance: two turns, the second of which fails. *)
Lemma conversation_transcript_witness :
  let config := {| modelName := "gemini"; displayName := "Gemini";
                   description := "chat"; color := blue |} in
  let st := initialize (Some "key"%string) config initial in
  let t1 := {| typed := "hi";
               clock := {| now_user := 1000; date_user := 1000;
                           now_bot := 1000; date_bot := 1000 |};
               stream := {| chunks := [ {| chunk_text := Some "hel"%string |};
                                        {| chunk_text := Some "lo"%string |} ];
                            failure := None |} |} in
  let t2 := {| typed := "bye";
               clock := {| now_user := 2000; date_user := 2000;
                           now_bot := 2001; date_bot := 2001 |};
               stream := {| chunks := [];
                            failure :=
                              Some {| JS.message := Some "quota"%string |} |} |} in
  messages (converse [t1; t2] st) = exchange t1 ++ exchange t2.
Proof.
  intros config st t1 t2.
  assert (Forall (fun t => JS.truthy (JS.trim (typed t)) = true) [t1; t2])
    as Htyped by (repeat constructor).
  assert (clocks_advance 0 [t1; t2]) as Hclock by (simpl; lia).
  assert (ids_below (0 + 2) (messages st)) as Hids by constructor.
  destruct (conversation_transcript [t1; t2] st
              {| chat_model := "gemini"; requests := [] |} 0
              eq_refl eq_refl Htyped Hids Hclock) as (Hm & _).
  rewrite Hm. simpl. reflexivity.
Defined.

End MoreChatExamples.

(** ** [LiveVoice]: a visual loop the component has lost track of *)

Section LoopFacts.

Import LiveVoice LiveVoiceSpec Behaviour.

Context (API_KEY : string) `{U : AudioUtils}.

(** X21. [cleanupAudio] cancels the one frame [animationFrameRef] holds
    and no other: a pending frame of another loop (there are two once a
    session opens while the loop of a session closed by the server is
    still running) survives the teardown, and when it runs it requests
    the next frame and stores its handle in [animationFrameRef]; the
    component is then not idle any more. *)
Theorem untracked_loop_survives_teardown (st : State) (h : nat) :
  h ∈ rafPending (browser st) ->
  animationFrameRef (refs st) <> Some h ->
  let st1 := cleanupAudio st in
  let st2 := step API_KEY (AnimationFrame h) st1 in
  h ∈ rafPending (browser st1)
  /\ animationFrameRef (refs st2) = Some (S (rafCounter (browser st)))
  /\ S (rafCounter (browser st)) ∈ rafPending (browser st2)
  /\ ~ idle st2.
Proof.
  intros Hpending Href st1 st2.
  assert (h ∈ rafPending (browser st1)) as Hstill.
  { subst st1. rewrite cleanupAudio_closed_form. simpl.
    destruct (animationFrameRef (refs st)) as [[|h']|]; try done.
    apply elem_of_difference. split; [done|].
    intros ->%elem_of_singleton. by apply Href. }
  assert (rafCounter (browser st1) = rafCounter (browser st)) as Hcount.
  { subst st1. by rewrite cleanupAudio_closed_form. }
  assert (st2 = update (cancelAnimationFrame h st1)) as ->.
  { subst st2. cbn [step]. by case_decide. }
  revert Hstill Hcount. generalize st1. clear st1. intros st1 Hstill Hcount.
  split; [done|]. simpl. rewrite Hcount.
  split; [done|]. split.
  - apply elem_of_union. left. by apply elem_of_singleton.
  - intros Hidle. by pose proof (idle_frame _ Hidle _ eq_refl).
Qed.

End LoopFacts.

Section LoopExample.

Import LiveVoice LiveVoiceSpec Behaviour.

(** An instance: the server closes the first session while its loop runs,
    and the user starts a second conversation. *)
Lemma untracked_loop_survives_teardown_witness :
  let st :=
    run (H := Samples.utils) Samples.key
      [ClickStart Samples.granted; SessionOpen 0; SessionClose 0;
       ClickStart Samples.granted; SessionOpen 1] initial in
  rafPending (browser st) = {[ 2; 1 ]}
  /\ animationFrameRef (refs st) = Some 2
  /\ 1 ∈ rafPending (browser (cleanupAudio st))
  /\ ~ idle
       (step (H := Samples.utils) Samples.key (AnimationFrame 1)
          (cleanupAudio st)).
Proof.
  intros st.
  assert (rafPending (browser st) = {[ 2; 1 ]}) as Hpending
    by (vm_compute; reflexivity).
  split; [exact Hpending|]. split; [reflexivity|].
  refine (let H := untracked_loop_survives_teardown Samples.key
                     (U := Samples.utils) st 1 _ _ in
          conj (proj1 H) (proj2 (proj2 (proj2 H)))).
  - rewrite Hpending. apply elem_of_union. right. by apply elem_of_singleton.
  - discriminate.
Defined.

End LoopExample.
